(** * iss-moex: the MOEX ISS client of [src/moex-api.ts]

    A shallow embedding of the three operations [getSecurities],
    [getMarketData] and [getTradingSessions], and the properties of their
    column/row decoding, URL construction and error wrapping.

    JavaScript values live in a heap of objects, so that the records the
    decoder builds, the arrays it reads and the aliasing between them are
    explicit.  Computations thread the heap and the log of HTTP requests
    and end by returning or by throwing.

    The enumerations of [src/types.ts] and the [SimpleRateLimiter] of
    the tests against the real API, through which the tests call the
    operations, come after the operations. *)

From Stdlib Require Import Floats.SpecFloat Numbers.DecimalString Strings.Ascii.
From stdpp Require Import base strings gmap list.

Local Open Scope string_scope.

(** ** Values *)

(** A JS number is an IEEE-754 double. *)
Definition number := spec_float.

Definition loc := positive.

(** A string is its sequence of code units, one per character of the
    Rocq string. *)
Inductive val :=
  | VUndefined
  | VNull
  | VBoolean (b : bool)
  | VNumber (n : number)
  | VString (s : string)
  | VObject (l : loc).
Arguments VObject l%_positive.

(** The [[Prototype]] slot of an ordinary object: [Object.prototype] (what
    an object literal and [JSON.parse] give), [null], or an object of the
    heap once [__proto__] has been assigned. *)
Inductive prototype :=
  | ObjectPrototype
  | NullPrototype
  | ObjectAt (l : loc).

Inductive object :=
  | Ordinary (props : gmap string val) (proto : prototype)
  | Array (elems : list val).

Abbreviation heap := (gmap loc object).

(** A thrown value: an instance of [Error] (a [TypeError] is one) with its
    message, or any other value. *)
Inductive exn :=
  | Error (message : string)
  | Thrown (v : val).

Record state := State {
  objects : heap;
  requests : list string   (* the URLs passed to fetch, oldest first *)
}.

(** ** Computations *)

(** [Stuck] marks what lies outside the embedding, with the state where
    it stops: a dangling reference, a value of another type where the
    source annotates [column: string], a lookup through a reassigned
    prototype, an assignment to an array. *)
Inductive outcome (A : Type) :=
  | Return (a : A) (σ : state)
  | Throw (e : exn) (σ : state)
  | Stuck (σ : state).
Arguments Return {A} a σ.
Arguments Throw {A} e σ.
Arguments Stuck {A} σ.

Definition M (A : Type) : Type := state → outcome A.

Definition ret {A} (a : A) : M A := fun σ => Return a σ.

Definition bind {A B} (m : M A) (k : A → M B) : M B :=
  fun σ =>
    match m σ with
    | Return a σ' => k a σ'
    | Throw e σ' => Throw e σ'
    | Stuck σ' => Stuck σ'
    end.

Definition throw {A} (e : exn) : M A := fun σ => Throw e σ.

Definition stuck {A} : M A := fun σ => Stuck σ.

(** [try { m } catch (error) { handler error }] *)
Definition try_catch {A} (m : M A) (handler : exn → M A) : M A :=
  fun σ =>
    match m σ with
    | Throw e σ' => handler e σ'
    | r => r
    end.

Notation "'let*' x ':=' m 'in' k" := (bind m (fun x => k))
  (at level 10, x name, m at level 100, k at level 200).

(** ** Primitive operations of the language *)

(** [ToBoolean] *)
Definition to_boolean (v : val) : bool :=
  match v with
  | VUndefined | VNull => false
  | VBoolean b => b
  | VNumber (S754_zero _) | VNumber S754_nan => false
  | VNumber _ => true
  | VString s => negb (String.eqb s "")
  | VObject _ => true
  end.

(** [v === 0] *)
Definition strict_equals_zero (v : val) : bool :=
  match v with
  | VNumber (S754_zero _) => true
  | _ => false
  end.

(** The [length] of an array or a string, as a number. *)
Definition number_of_nat (n : nat) : number :=
  match n with
  | O => S754_zero false
  | S _ => S754_finite false (Pos.of_nat n) 0
  end.

(** The property key of an array index. *)
Definition index_key (i : nat) : string :=
  NilZero.string_of_uint (Nat.to_uint i).

(** The property names the source reads with the dot notation. *)
Inductive field :=
  | f_securities | f_marketdata | f_sessions
  | f_data | f_columns | f_length.

Definition field_name (f : field) : string :=
  match f with
  | f_securities => "securities"
  | f_marketdata => "marketdata"
  | f_sessions => "sessions"
  | f_data => "data"
  | f_columns => "columns"
  | f_length => "length"
  end.

Inductive key :=
  | Field (f : field)
  | Index (i : nat).

Definition key_name (k : key) : string :=
  match k with
  | Field f => field_name f
  | Index i => index_key i
  end.

Definition own_property (o : object) (k : key) : option val :=
  match o with
  | Ordinary props _ => props !! key_name k
  | Array elems =>
      match k with
      | Index i => elems !! i
      | Field f_length => Some (VNumber (number_of_nat (length elems)))
      | Field _ => None
      end
  end.

(** The messages of the engine's [TypeError]s, in V8's wording. *)
Definition cannot_read (what : string) (name : string) : exn :=
  Error ("Cannot read properties of " +:+ what +:+
         " (reading '" +:+ name +:+ "')").

Definition not_a_function (callee : string) : exn :=
  Error (callee +:+ " is not a function").

(** [v.f] and [v[i]].  None of the keys read by the source is a property
    of [Object.prototype], [Array.prototype] or of the prototypes of the
    primitive wrappers, so a key that is not an own property reads as
    [undefined] there. *)
Definition get (v : val) (k : key) : M val :=
  match v with
  | VUndefined => throw (cannot_read "undefined" (key_name k))
  | VNull => throw (cannot_read "null" (key_name k))
  | VBoolean _ | VNumber _ => ret VUndefined
  | VString s =>
      match k with
      | Index i =>
          ret (match String.get i s with
               | Some c => VString (String c EmptyString)
               | None => VUndefined
               end)
      | Field f_length => ret (VNumber (number_of_nat (String.length s)))
      | Field _ => ret VUndefined
      end
  | VObject l => fun σ =>
      match objects σ !! l with
      | None => Stuck σ
      | Some o =>
          match own_property o k with
          | Some w => Return w σ
          | None =>
              match o with
              | Ordinary _ (ObjectAt _) => Stuck σ
              | _ => Return VUndefined σ
              end
          end
      end
  end.

Definition get_field (v : val) (f : field) : M val := get v (Field f).
Definition get_index (v : val) (i : nat) : M val := get v (Index i).

(** Allocation of a fresh object. *)
Definition alloc (o : object) : M val :=
  fun σ =>
    let l := fresh (dom (objects σ)) in
    Return (VObject l) (State (<[l := o]> (objects σ)) (requests σ)).

(** [{}] *)
Definition new_object : M val := alloc (Ordinary ∅ ObjectPrototype).

(** Whether the search for the key [__proto__], starting at the prototype
    [p], ends at the accessor of [Object.prototype]: [Some true]; at a
    data property or at the end of the chain: [Some false]. *)
Definition reaches_proto_accessor (h : heap) (p : prototype) : option bool :=
  match p with
  | ObjectPrototype => Some true
  | NullPrototype => Some false
  | ObjectAt l =>
      match h !! l with
      | Some (Array _) => Some true
      | Some (Ordinary ps p') =>
          match ps !! "__proto__" with
          | Some _ => Some false
          | None =>
              match p' with
              | ObjectPrototype => Some true
              | NullPrototype => Some false
              | ObjectAt _ => None
              end
          end
      | None => None
      end
  end.

(** The setter of [Object.prototype.__proto__], called on the object at
    [r] whose properties are [props] and prototype [proto]: an object or
    [null] becomes the prototype, any other value is ignored.  The new
    prototype must not lead back to [r]; one whose own prototype has been
    reassigned is not followed. *)
Definition proto_setter (r : loc) (props : gmap string val)
    (proto : prototype) (v : val) : M unit :=
  fun σ =>
    match v with
    | VNull =>
        Return tt (State (<[r := Ordinary props NullPrototype]> (objects σ))
                         (requests σ))
    | VObject l =>
        if decide (l = r) then Throw (Error "Cyclic __proto__ value") σ
        else
          match objects σ !! l with
          | Some (Ordinary _ (ObjectAt _)) | None => Stuck σ
          | Some _ =>
              Return tt (State (<[r := Ordinary props (ObjectAt l)]> (objects σ))
                               (requests σ))
          end
    | _ => Return tt σ
    end.

(** [target[k] = v] for a string key [k] and an ordinary object
    [target]: an own data property, except that [__proto__] goes to the
    setter of [Object.prototype] when the object has no such own property
    and the search along its prototype chain ends at that accessor. *)
Definition put (target : val) (k : string) (v : val) : M unit :=
  match target with
  | VObject r => fun σ =>
      match objects σ !! r with
      | Some (Ordinary props proto) =>
          let own :=
            Return tt (State (<[r := Ordinary (<[k := v]> props) proto]> (objects σ))
                             (requests σ)) in
          if decide (k = "__proto__") then
            match props !! k with
            | Some _ => own
            | None =>
                match reaches_proto_accessor (objects σ) proto with
                | Some true => proto_setter r props proto v σ
                | Some false => own
                | None => Stuck σ
                end
            end
          else own
      | _ => Stuck σ
      end
  | _ => stuck
  end.

(** ** Property keys *)

(** What [ToString] makes of a value: its text; or the [TypeError] of an
    object that has no primitive value; or nothing, for an object that
    no parse creates. *)
Inductive conversion :=
  | Converted (s : string)
  | NotPrimitive
  | Unknown.

(** [Array.prototype.join]: the texts of the elements, in order,
    separated by commas; the first element that has no text ends it. *)
Fixpoint join_with (element : val → conversion) (xs : list val) : conversion :=
  match xs with
  | [] => Converted ""
  | [x] => element x
  | x :: xs' =>
      match element x with
      | Converted s =>
          match join_with element xs' with
          | Converted t => Converted (s +:+ "," +:+ t)
          | failure => failure
          end
      | failure => failure
      end
  end.

Section decoding.

(** [Number::toString] of the engine, used where a number becomes a
    property key. *)
Variable number_to_string : number → string.

(** [ToString] of [v] in the heap [h].  An array is joined
    ([Array.prototype.toString] calls [join]).  A plain object gives
    [[object Object]] through [Object.prototype.toString], unless it has
    an own property [toString]: no value of a parsed body is callable,
    [Object.prototype.valueOf] returns the object itself, and
    [OrdinaryToPrimitive] throws.  An object without prototype has
    neither method.  An object is not looked at again below itself:
    [fuel] bounds the depth and the heap shrinks on the way down. *)
Fixpoint to_string_within (fuel : nat) (h : heap) (v : val) : conversion :=
  match v with
  | VUndefined => Converted "undefined"
  | VNull => Converted "null"
  | VBoolean true => Converted "true"
  | VBoolean false => Converted "false"
  | VNumber n => Converted (number_to_string n)
  | VString s => Converted s
  | VObject l =>
      match fuel with
      | O => Unknown
      | S fuel' =>
          match h !! l with
          | Some (Array elems) =>
              join_with
                (fun x =>
                   match x with
                   | VUndefined | VNull => Converted ""
                   | _ => to_string_within fuel' (delete l h) x
                   end)
                elems
          | Some (Ordinary props ObjectPrototype) =>
              match props !! "toString" with
              | None => Converted "[object Object]"
              | Some _ => NotPrimitive
              end
          | Some (Ordinary _ NullPrototype) => NotPrimitive
          | Some (Ordinary _ (ObjectAt _)) | None => Unknown
          end
      end
  end.

Definition to_string (h : heap) (v : val) : conversion :=
  to_string_within (S (size h)) h v.

(** [ToPropertyKey] *)
Definition to_property_key (v : val) : M string :=
  fun σ =>
    match to_string (objects σ) v with
    | Converted k => Return k σ
    | NotPrimitive => Throw (Error "Cannot convert object to primitive value") σ
    | Unknown => Stuck σ
    end.

(** [target[column] = v]: the column is converted to a property key when
    the value is stored, after the right-hand side has been evaluated.
    The source declares [column: string]; a column of another type is
    converted like any key. *)
Definition put_computed (target : val) (column : val) (v : val) : M unit :=
  let* k := to_property_key column in
  put target k v.

(** ** The array methods the source calls *)

(** The receiver of [v.method(...)] for a method of [Array.prototype]:
    the array [v] refers to, or the [TypeError] of the call.  [expr] is
    the text of the receiver in the source. *)
Definition array_method (v : val) (expr method : string) : M loc :=
  match v with
  | VUndefined => throw (cannot_read "undefined" method)
  | VNull => throw (cannot_read "null" method)
  | VBoolean _ | VNumber _ | VString _ =>
      throw (not_a_function (expr +:+ "." +:+ method))
  | VObject l => fun σ =>
      match objects σ !! l with
      | Some (Array _) => Return l σ
      | Some (Ordinary props proto) =>
          match props !! method, proto with
          | None, ObjectAt _ => Stuck σ
          | _, _ => Throw (not_a_function (expr +:+ "." +:+ method)) σ
          end
      | None => Stuck σ
      end
  end.

Definition array_elems (a : loc) : M (list val) :=
  fun σ =>
    match objects σ !! a with
    | Some (Array elems) => Return elems σ
    | _ => Stuck σ
    end.

(** The loop of [Array.prototype.forEach]: [n] more indices from [k] on,
    each element read from the array when its turn comes. *)
Fixpoint for_each_from (a : loc) (callback : val → nat → M unit)
    (k n : nat) : M unit :=
  match n with
  | O => ret tt
  | S n' =>
      let* elems := array_elems a in
      match elems !! k with
      | Some x =>
          let* _ := callback x k in
          for_each_from a callback (S k) n'
      | None => for_each_from a callback (S k) n'
      end
  end.

Definition Array_forEach (v : val) (expr : string)
    (callback : val → nat → M unit) : M unit :=
  let* a := array_method v expr "forEach" in
  let* elems := array_elems a in
  for_each_from a callback 0 (length elems).

(** The loop of [Array.prototype.map], collecting the mapped values. *)
Fixpoint map_from (a : loc) (callback : val → M val) (k n : nat)
    : M (list val) :=
  match n with
  | O => ret []
  | S n' =>
      let* elems := array_elems a in
      match elems !! k with
      | Some x =>
          let* y := callback x in
          let* ys := map_from a callback (S k) n' in
          ret (y :: ys)
      | None =>
          let* ys := map_from a callback (S k) n' in
          ret (VUndefined :: ys)
      end
  end.

(** [v.map(callback)]: the mapped values go into a fresh array. *)
Definition Array_map (v : val) (expr : string) (callback : val → M val) : M val :=
  let* a := array_method v expr "map" in
  let* elems := array_elems a in
  let* mapped := map_from a callback 0 (length elems) in
  alloc (Array mapped).

(** ** The decoding steps of [src/moex-api.ts] *)

(** Lines 35-48 of [getSecurities], [data] being the parsed body. *)
Definition getSecurities_decode (data : val) : M val :=
  let* s1 := get_field data f_securities in
  if negb (to_boolean s1) then alloc (Array []) else
  let* s2 := get_field data f_securities in
  let* d := get_field s2 f_data in
  if negb (to_boolean d) then alloc (Array []) else
  let* s3 := get_field data f_securities in
  let* columns := get_field s3 f_columns in
  let* s4 := get_field data f_securities in
  let* rows := get_field s4 f_data in
  Array_map rows "rows" (fun row =>
    let* security := new_object in
    let* _ := Array_forEach columns "columns" (fun column index =>
                let* x := get_index row index in
                put_computed security column x) in
    ret security).

(** Lines 77-89 of [getMarketData]. *)
Definition getMarketData_decode (data : val) : M val :=
  let* m1 := get_field data f_marketdata in
  if negb (to_boolean m1) then ret VNull else
  let* m2 := get_field data f_marketdata in
  let* d := get_field m2 f_data in
  if negb (to_boolean d) then ret VNull else
  let* m3 := get_field data f_marketdata in
  let* d' := get_field m3 f_data in
  let* len := get_field d' f_length in
  if strict_equals_zero len then ret VNull else
  let* m4 := get_field data f_marketdata in
  let* columns := get_field m4 f_columns in
  let* m5 := get_field data f_marketdata in
  let* d'' := get_field m5 f_data in
  let* row := get_index d'' 0 in
  let* marketData := new_object in
  let* _ := Array_forEach columns "columns" (fun column index =>
              let* x := get_index row index in
              put_computed marketData column x) in
  ret marketData.

(** Lines 116-129 of [getTradingSessions]. *)
Definition getTradingSessions_decode (data : val) : M val :=
  let* s1 := get_field data f_sessions in
  if negb (to_boolean s1) then alloc (Array []) else
  let* s2 := get_field data f_sessions in
  let* d := get_field s2 f_data in
  if negb (to_boolean d) then alloc (Array []) else
  let* s3 := get_field data f_sessions in
  let* columns := get_field s3 f_columns in
  let* s4 := get_field data f_sessions in
  let* rows := get_field s4 f_data in
  Array_map rows "rows" (fun row =>
    let* session := new_object in
    let* _ := Array_forEach columns "columns" (fun column index =>
                let* x := get_index row index in
                put_computed session column x) in
    ret session).

End decoding.

(** ** The collaborators and the three operations *)

(** A settled promise of a collaborator, with the heap it leaves. *)
Inductive settled (A : Type) :=
  | Resolved (a : A) (h : heap)
  | Rejected (e : exn) (h : heap).
Arguments Resolved {A} a h.
Arguments Rejected {A} e h.

(** What the source uses of undici's [Response]. *)
Record response := Response {
  ok : bool;
  status : number;
  json : heap → settled val
}.

Definition await {A} (promise : heap → settled A) : M A :=
  fun σ =>
    match promise (objects σ) with
    | Resolved a h => Return a (State h (requests σ))
    | Rejected e h => Throw e (State h (requests σ))
    end.

Module Engine.
Definition STOCK := "stock".
Definition STATE := "state".
Definition CURRENCY := "currency".
Definition FUTURES := "futures".
Definition COMMODITY := "commodity".
Definition INTERVENTIONS := "interventions".
End Engine.

Module Market.
Definition SHARES := "shares".
Definition BONDS := "bonds".
Definition NDM := "ndm".
Definition OTC := "otc".
Definition CCP := "ccp".
Definition DEPOSIT := "deposit".
Definition REPO := "repo".
Definition QNV := "qnv".
Definition MAMC := "mamc".
Definition FOREIGNEXCHANGE := "foreignexchange".
Definition SELT := "selt".
Definition PSDB := "psdb".
Definition MIXED := "mixed".
End Market.

Definition MOEX_API_BASE_URL := "https://iss.moex.com/iss".

(** The number 100, the default of [limit]. *)
Definition number_100 : number := S754_finite false 100 0.

Section operations.

(** [Number::toString] of the engine, used by the template literals. *)
Variable number_to_string : number → string.

(** [fetch] of undici. *)
Variable undici_fetch : string → heap → settled response.

Definition fetch (url : string) : M response :=
  fun σ => await (undici_fetch url) (State (objects σ) (requests σ ++ [url])).

(** The template literal of line 25. *)
Definition getSecurities_url (engine market : string) (limit : number)
    : string :=
  MOEX_API_BASE_URL +:+ "/engines/" +:+ engine +:+ "/markets/" +:+ market
  +:+ "/securities.json?iss.meta=off&iss.only=securities&securities.columns=SECID,BOARDID,SHORTNAME,PREVPRICE,LOTSIZE,FACEVALUE,STATUS,BOARDNAME,DECIMALS,SECNAME,REMARKS,MARKETCODE,INSTRID,SECTORID,MINSTEP,PREVWAPRICE,FACEUNIT,PREVDATE,ISSUESIZE,ISIN,LATNAME,REGNUMBER,PREVLEGALCLOSEPRICE,CURRENCYID,SECTYPE,LISTLEVEL,SETTLEDATE&start=0&limit="
  +:+ number_to_string limit.

(** The template literal of line 67. *)
Definition getMarketData_url (secid engine market : string) : string :=
  MOEX_API_BASE_URL +:+ "/engines/" +:+ engine +:+ "/markets/" +:+ market
  +:+ "/securities/" +:+ secid +:+ ".json?iss.meta=off&iss.only=marketdata".

(** The template literal of line 106. *)
Definition getTradingSessions_url (engine market : string) : string :=
  MOEX_API_BASE_URL +:+ "/engines/" +:+ engine +:+ "/markets/" +:+ market
  +:+ "/sessions.json?iss.meta=off".

Definition getSecurities (engine market : option string)
    (limit : option number) : M val :=
  let engine := default Engine.STOCK engine in
  let market := default Market.SHARES market in
  let limit := default number_100 limit in
  try_catch
    (let url := getSecurities_url engine market limit in
     let* response := fetch url in
     if negb (ok response) then
       throw (Error ("HTTP error! status: " +:+ number_to_string (status response)))
     else
     let* data := await (json response) in
     getSecurities_decode number_to_string data)
    (fun error =>
       throw (Error ("Failed to fetch securities: " +:+
                     match error with
                     | Error message => message
                     | Thrown _ => "Unknown error"
                     end))).

Definition getMarketData (secid : string) (engine market : option string)
    : M val :=
  let engine := default Engine.STOCK engine in
  let market := default Market.SHARES market in
  try_catch
    (let url := getMarketData_url secid engine market in
     let* response := fetch url in
     if negb (ok response) then
       throw (Error ("HTTP error! status: " +:+ number_to_string (status response)))
     else
     let* data := await (json response) in
     getMarketData_decode number_to_string data)
    (fun error =>
       throw (Error ("Failed to fetch market data for " +:+ secid +:+ ": " +:+
                     match error with
                     | Error message => message
                     | Thrown _ => "Unknown error"
                     end))).

Definition getTradingSessions (engine market : option string) : M val :=
  let engine := default Engine.STOCK engine in
  let market := default Market.SHARES market in
  try_catch
    (let url := getTradingSessions_url engine market in
     let* response := fetch url in
     if negb (ok response) then
       throw (Error ("HTTP error! status: " +:+ number_to_string (status response)))
     else
     let* data := await (json response) in
     getTradingSessions_decode number_to_string data)
    (fun error =>
       throw (Error ("Failed to fetch trading sessions: " +:+
                     match error with
                     | Error message => message
                     | Thrown _ => "Unknown error"
                     end))).

(** The call fails with one [Error] of the given message, after exactly
    one request, to [url]; [h] is the heap the collaborators left. *)
Definition fails_with (operation : M val) (σ : state) (url message : string)
    (h : heap) : Prop :=
  operation σ = Throw (Error message) (State h (requests σ ++ [url])).


End operations.

(** ** Vocabulary of the statements *)

(** [v] refers to a plain object, as [JSON.parse] and [{}] create them,
    whose own properties are [props]. *)
Definition json_object (h : heap) (v : val) (props : gmap string val) : Prop :=
  ∃ l, v = VObject l ∧ h !! l = Some (Ordinary props ObjectPrototype).

Definition json_array (h : heap) (v : val) (elems : list val) : Prop :=
  ∃ l, v = VObject l ∧ h !! l = Some (Array elems).

(** The body holds under [key] the wire shape
    [{ columns: string[], data: any[][] }]. *)
Definition table (h : heap) (body : val) (key : string)
    (columns : list string) (rows : list (list val)) : Prop :=
  ∃ props t tprops c d refs,
    json_object h body props ∧ props !! key = Some t ∧
    json_object h t tprops ∧
    tprops !! "columns" = Some c ∧ json_array h c (VString <$> columns) ∧
    tprops !! "data" = Some d ∧ json_array h d refs ∧
    Forall2 (json_array h) refs rows.

(** The same shape, looking at the first element of [data] only: it is
    the array [row], whatever the later elements [later] are. *)
Definition table_first_row (h : heap) (body : val) (key : string)
    (columns : list string) (row : list val) (later : list val) : Prop :=
  ∃ props t tprops c d first,
    json_object h body props ∧ props !! key = Some t ∧
    json_object h t tprops ∧
    tprops !! "columns" = Some c ∧ json_array h c (VString <$> columns) ∧
    tprops !! "data" = Some d ∧ json_array h d (first :: later) ∧
    json_array h first row.

(** The falsy values. *)
Inductive falsy : val → Prop :=
  | falsy_undefined : falsy VUndefined
  | falsy_null : falsy VNull
  | falsy_false : falsy (VBoolean false)
  | falsy_zero s : falsy (VNumber (S754_zero s))
  | falsy_nan : falsy (VNumber S754_nan)
  | falsy_empty : falsy (VString "").

(** The body is an object without [key]; or [key] holds an object
    without [data]; or [data] is the empty array. *)
Definition missing_or_empty (h : heap) (body : val) (key : string) : Prop :=
  ∃ props, json_object h body props ∧
    (props !! key = None
     ∨ (∃ t tprops, props !! key = Some t ∧ json_object h t tprops ∧
          tprops !! "data" = None)
     ∨ (∃ t tprops d, props !! key = Some t ∧ json_object h t tprops ∧
          tprops !! "data" = Some d ∧ json_array h d [])).

(** [key] is present and holds a falsy value; or it holds an object whose
    [data] is present and falsy. *)
Definition present_but_falsy (h : heap) (body : val) (key : string) : Prop :=
  ∃ props, json_object h body props ∧
    ((∃ v, props !! key = Some v ∧ falsy v)
     ∨ (∃ t tprops v, props !! key = Some t ∧ json_object h t tprops ∧
          tprops !! "data" = Some v ∧ falsy v)).

(** The computation returns a fresh empty array. *)
Definition returns_empty (m : M val) (σ : state) : Prop :=
  ∃ a σ', m σ = Return (VObject a) σ' ∧ objects σ' !! a = Some (Array []).

(** The computation returns an array of records whose own properties
    are, in order, [records]. *)
Definition returns_records (m : M val) (σ : state)
    (records : list (gmap string val)) : Prop :=
  ∃ a σ' refs,
    m σ = Return (VObject a) σ' ∧ objects σ' !! a = Some (Array refs) ∧
    Forall2 (json_object (objects σ')) refs records.

(** The computation returns one record whose own properties are [fields]. *)
Definition returns_record (m : M val) (σ : state)
    (fields : gmap string val) : Prop :=
  ∃ v σ', m σ = Return v σ' ∧ json_object (objects σ') v fields.

(** [fields] pairs [columns[i]] with [row[i]] at every index of [columns]
    and has no other field. *)
Definition pairs (columns : list string) (row : list val)
    (fields : gmap string val) : Prop :=
  (∀ i c, columns !! i = Some c → fields !! c = row !! i) ∧
  (∀ k, is_Some (fields !! k) → k ∈ columns).

(** [fields] has exactly [min n m] entries, [columns[i]] paired with
    [row[i]] below that index. *)
Definition zips_to_shorter (columns : list string) (row : list val)
    (fields : gmap string val) : Prop :=
  size fields = length columns `min` length row ∧
  (∀ i c, i < length columns `min` length row →
          columns !! i = Some c → fields !! c = row !! i).

(** [row[i]], [undefined] beyond the end of the row. *)
Definition row_value (row : list val) (i : nat) : val :=
  default VUndefined (row !! i).

(** [fields] has one entry per column: [columns[i]] holds [row[i]], which
    is [undefined] beyond the end of the row. *)
Definition follows_columns (columns : list string) (row : list val)
    (fields : gmap string val) : Prop :=
  (∀ i c, columns !! i = Some c → fields !! c = Some (row_value row i)) ∧
  (∀ k, is_Some (fields !! k) → k ∈ columns).

(** The assignments [record[column] = row[index]] of one [forEach], from
    index [k] on, for columns other than [__proto__]. *)
Fixpoint assign_from (columns : list string) (row : list val) (k : nat)
    (fields : gmap string val) : gmap string val :=
  match columns with
  | [] => fields
  | c :: columns' => assign_from columns' row (S k) (<[c := row_value row k]> fields)
  end.

Definition assign (columns : list string) (row : list val)
    : gmap string val :=
  assign_from columns row 0 ∅.

(** [s] occurs in [t]. *)
Definition contains (t s : string) : Prop :=
  ∃ before after, t = before +:+ s +:+ after.

(** The column whitelist of the instrument listing, in its documented
    order. *)
Definition column_whitelist : list string :=
  [ "SECID"; "BOARDID"; "SHORTNAME"; "PREVPRICE"; "LOTSIZE"; "FACEVALUE";
    "STATUS"; "BOARDNAME"; "DECIMALS"; "SECNAME"; "REMARKS"; "MARKETCODE";
    "INSTRID"; "SECTORID"; "MINSTEP"; "PREVWAPRICE"; "FACEUNIT";
    "PREVDATE"; "ISSUESIZE"; "ISIN"; "LATNAME"; "REGNUMBER";
    "PREVLEGALCLOSEPRICE"; "CURRENCYID"; "SECTYPE"; "LISTLEVEL";
    "SETTLEDATE" ].

(** [Number::toString] on the integers below 10^21, given with an
    exponent that is not negative, as the status codes and limits of
    the examples are; the other finite numbers are not printed here. *)
Definition integer_to_string (n : number) : string :=
  match n with
  | S754_zero _ => "0"
  | S754_finite s m e =>
      if (0 <=? e)%Z then
        (if s then "-" else "")
        +:+ NilZero.string_of_uint (N.to_uint (Npos m * 2 ^ Z.to_N e))
      else ""
  | S754_infinity s => if s then "-Infinity" else "Infinity"
  | S754_nan => "NaN"
  end.

(** Transports of the examples: one that answers every request with the
    status [s], not OK; one that rejects with an error; one whose body
    does not parse. *)
Definition status_response (s : number) : response :=
  Response false s (fun h => Resolved VNull h).

Definition fetch_status (s : number) : string → heap → settled response :=
  fun _ h => Resolved (status_response s) h.




(** A transport that answers every request with the body [body], parsed
    into the heap [h]. *)
Definition body_response (body : val) (h : heap) : response :=
  Response true (S754_finite false 200 0) (fun _ => Resolved body h).

Definition fetch_body (body : val) (h : heap)
    : string → heap → settled response :=
  fun _ h0 => Resolved (body_response body h) h0.

Definition n_500 : number := S754_finite false 500 0.
Definition n_10 : number := S754_finite false 10 0.

(** ** What a computation leaves untouched *)

Definition kept (h0 : heap) (σ σ' : state) : Prop :=
  h0 ⊆ objects σ' ∧ requests σ' = requests σ.

(** [m] leaves every object of [h0] as it is and sends no request,
    whether it returns or throws, and a value it returns satisfies [Q]. *)
Definition keeps (h0 : heap) {A} (m : M A) (Q : A → Prop) : Prop :=
  ∀ σ, h0 ⊆ objects σ →
    match m σ with
    | Return a σ' => kept h0 σ σ' ∧ Q a
    | Throw _ σ' => kept h0 σ σ'
    | Stuck σ' => kept h0 σ σ'
    end.

(** A reference to an object allocated after [h0]. *)
Definition fresh_for (h0 : heap) (v : val) : Prop :=
  ∃ l, v = VObject l ∧ h0 !! l = None.

(** The state an outcome ends in. *)
Definition final {A} (o : outcome A) : state :=
  match o with
  | Return _ σ | Throw _ σ | Stuck σ => σ
  end.

(** ** Bodies of the examples *)

(** The heap [JSON.parse] leaves for the body
    [{ key: { columns: [...], data: [[...], ...] } }]: the body at 1, the
    table at 2, its columns at 3, its data at 4 and the rows from 5 on. *)
Definition row_loc (i : nat) : loc := Pos.of_nat (5 + i).

Definition table_heap (key : string) (columns : list string)
    (rows : list (list val)) : heap :=
  list_to_map
    ([ (1%positive, Ordinary {[ key := VObject 2 ]} ObjectPrototype);
       (2%positive, Ordinary (<["columns" := VObject 3]> {[ "data" := VObject 4 ]})
                             ObjectPrototype);
       (3%positive, Array (VString <$> columns));
       (4%positive, Array (imap (λ i _, VObject (row_loc i)) rows)) ]
     ++ imap (λ i row, (row_loc i, Array row)) rows).

Definition n_250_5 : number := S754_finite false 501 (-1).
Definition n_180_2 : number := S754_finite false 3170111925203763 (-44).
Definition n_250 : number := S754_finite false 125 1.
Definition n_251 : number := S754_finite false 251 0.
Definition n_404 : number := S754_finite false 404 0.

(** The listing of the scenario of the specification, the short names in
    Latin letters. *)
Definition listing_columns : list string :=
  ["SECID"; "BOARDID"; "SHORTNAME"; "PREVPRICE"].

Definition listing_rows : list (list val) :=
  [ [VString "SBER"; VString "TQBR"; VString "Sberbank"; VNumber n_250_5];
    [VString "GAZP"; VString "TQBR"; VString "Gazprom"; VNumber n_180_2] ].

(** The quote of the scenario of the specification. *)
Definition quote_columns : list string :=
  ["SECID"; "BOARDID"; "LAST"; "BID"; "OFFER"].

Definition quote_row : list val :=
  [VString "SBER"; VString "TQBR"; VNumber n_250_5; VNumber n_250;
   VNumber n_251].

(** The body [{ "securities": { "data": [["x"]] } }], without columns. *)
Definition no_columns_heap : heap :=
  list_to_map
    [ (1%positive, Ordinary {[ "securities" := VObject 2 ]} ObjectPrototype);
      (2%positive, Ordinary {[ "data" := VObject 4 ]} ObjectPrototype);
      (4%positive, Array [VObject 5]);
      (5%positive, Array [VString "x"]) ].

(** The body [{}]. *)
Definition empty_body_heap : heap :=
  {[ 1%positive := Ordinary ∅ ObjectPrototype ]}.

(** The body [{ key: v }]. *)
Definition resource_heap (key : string) (v : val) : heap :=
  {[ 1%positive := Ordinary {[ key := v ]} ObjectPrototype ]}.

(** The body [{ "marketdata": { "columns": ["LAST"], "data": null } }]. *)
Definition null_data_heap : heap :=
  list_to_map
    [ (1%positive, Ordinary {[ "marketdata" := VObject 2 ]} ObjectPrototype);
      (2%positive, Ordinary (<["columns" := VObject 3]> {[ "data" := VNull ]})
                            ObjectPrototype);
      (3%positive, Array [VString "LAST"]) ].

(** ** Further vocabulary: failures and malformed tables *)

(** A failure whose cause is a thrown value that is not an [Error]
    (from the transport, or from the parse of an OK response) makes the
    operation fail with the message [wrap "Unknown error"]. *)
Definition hides_unknown_cause
    (undici_fetch : string → heap → settled response)
    (operation : M val) (σ : state) (url : string)
    (wrap : string → string) : Prop :=
  (∀ v h,
     undici_fetch url (objects σ) = Rejected (Thrown v) h →
     fails_with operation σ url (wrap "Unknown error") h) ∧
  (∀ response h v h',
     undici_fetch url (objects σ) = Resolved response h →
     ok response = true →
     json response h = Rejected (Thrown v) h' →
     fails_with operation σ url (wrap "Unknown error") h').

(** A value that is not an array and has no callable [map] or [forEach]:
    [undefined], [null], a boolean, a number, a string or a plain
    object. *)
Definition not_array (h : heap) (v : val) : Prop :=
  match v with
  | VObject _ => ∃ props, json_object h v props
  | _ => True
  end.

(** [null] or [undefined]. *)
Definition nullish (v : val) : Prop := v = VNull ∨ v = VUndefined.

(** How the message of a [TypeError] names a nullish value. *)
Definition nullish_name (v : val) : string :=
  match v with
  | VNull => "null"
  | _ => "undefined"
  end.

(** The computation throws an [Error]. *)
Definition throws_error {A} (m : M A) (σ : state) : Prop :=
  ∃ cause σ', m σ = Throw (Error cause) σ'.

(** The body holds under [key] an object whose [columns] is [c]
    ([undefined] when it has none) and whose [data] is [d]. *)
Definition resource (h : heap) (body : val) (key : string) (c d : val) : Prop :=
  ∃ props t tprops,
    json_object h body props ∧ props !! key = Some t ∧
    json_object h t tprops ∧
    default VUndefined (tprops !! "columns") = c ∧ tprops !! "data" = Some d.

(** The record the three operations build from one row: the body of the
    callback of [rows.map], and lines 84-89 of [getMarketData]. *)
Definition record_of_row (number_to_string : number → string)
    (columns row : val) : M val :=
  let* record := new_object in
  let* _ := Array_forEach columns "columns" (fun column index =>
              let* x := get_index row index in
              put_computed number_to_string record column x) in
  ret record.

(** The body [{ key: { "columns": ["A"], "data": [null] } }]. *)
Definition null_row_heap (key : string) : heap :=
  list_to_map
    [ (1%positive, Ordinary {[ key := VObject 2 ]} ObjectPrototype);
      (2%positive, Ordinary (<["columns" := VObject 3]> {[ "data" := VObject 4 ]})
                            ObjectPrototype);
      (3%positive, Array [VString "A"]);
      (4%positive, Array [VNull]) ].

(** A transport that rejects with a value that is not an [Error]. *)
Definition fetch_throws (v : val) : string → heap → settled response :=
  fun _ h => Rejected (Thrown v) h.

(** The body [{ "securities": { "columns": ["A"], "data": "oops" } }]. *)
Definition string_data_heap : heap :=
  list_to_map
    [ (1%positive, Ordinary {[ "securities" := VObject 2 ]} ObjectPrototype);
      (2%positive, Ordinary (<["columns" := VObject 3]> {[ "data" := VString "oops" ]})
                            ObjectPrototype);
      (3%positive, Array [VString "A"]) ].

(** [fields] has one entry per name that occurs in [columns]; the name
    holds the row value at the last index where it occurs. *)
Definition last_wins (columns : list string) (row : list val)
    (fields : gmap string val) : Prop :=
  (∀ i c, columns !! i = Some c → c ∉ drop (S i) columns →
          fields !! c = Some (row_value row i)) ∧
  (∀ name, is_Some (fields !! name) ↔ name ∈ columns).

(** The table [{ key: { columns: ["A"; "B"; "A"], data: [["x"; "y"; "z"]] } }]. *)
Definition repeated_columns : list string := ["A"; "B"; "A"].
Definition repeated_row : list val := [VString "x"; VString "y"; VString "z"].

(** A value of a parsed body: a primitive, or a reference to an array or
    to a plain object. *)
Definition json_value (h : heap) (v : val) : Prop :=
  match v with
  | VObject l =>
      (∃ elems, h !! l = Some (Array elems)) ∨
      (∃ props, h !! l = Some (Ordinary props ObjectPrototype))
  | _ => True
  end.

(** The prototype of a new record after [record["__proto__"] = v]:
    [null] removes it, an object takes its place, any other value leaves
    [Object.prototype]. *)
Definition proto_of (v : val) : prototype :=
  match v with
  | VNull => NullPrototype
  | VObject l => ObjectAt l
  | _ => ObjectPrototype
  end.

(** The assignments of one [forEach] from index [k] on, the column
    [__proto__] going to the setter: the fields and the prototype of the
    record. *)
Fixpoint fill_from (columns : list string) (row : list val) (k : nat)
    (fields : gmap string val) (proto : prototype)
    : gmap string val * prototype :=
  match columns with
  | [] => (fields, proto)
  | c :: columns' =>
      if decide (c = "__proto__")
      then fill_from columns' row (S k) fields (proto_of (row_value row k))
      else fill_from columns' row (S k) (<[c := row_value row k]> fields) proto
  end.


(** The computation returns an array of records, one per row: the record
    of a row has the fields of the columns other than [__proto__], and
    the prototype that the row value at index [i] gives it. *)
Definition returns_with_proto (m : M val) (σ : state)
    (columns : list string) (i : nat) (rows : list (list val)) : Prop :=
  ∃ a locs σ',
    m σ = Return (VObject a) σ' ∧
    objects σ' !! a = Some (Array (VObject <$> locs)) ∧
    Forall2 (λ row l,
               objects σ' !! l
               = Some (Ordinary (delete "__proto__" (assign columns row))
                                (proto_of (row_value row i))))
            rows locs.

(** The table [{ key: { columns: ["A"; "__proto__"], data: [["x"; [..]]] } }]:
    the value under [__proto__] is an array of the body, at 6. *)
Definition proto_columns : list string := ["A"; "__proto__"].
Definition proto_row : list val := [VString "x"; VObject 6].
Definition proto_heap (key : string) : heap :=
  <[6%positive := Array [VString "y"]]> (table_heap key proto_columns [proto_row]).

(** ** Parsed bodies *)

(** [v] is a value as a parse creates it, down to the depth [fuel]: a
    primitive, or a reference to an array or to a plain object of the
    heap whose elements are such values and do not lead back to it. *)
Fixpoint json_within (fuel : nat) (h : heap) (v : val) : Prop :=
  match v with
  | VObject l =>
      match fuel with
      | O => False
      | S fuel' =>
          match h !! l with
          | Some (Array elems) => Forall (json_within fuel' (delete l h)) elems
          | Some (Ordinary props ObjectPrototype) =>
              map_Forall (λ _, json_within fuel' (delete l h)) props
          | _ => False
          end
      end
  | _ => True
  end.

Definition parsed (h : heap) (v : val) : Prop := ∃ fuel, json_within fuel h v.

(** The computation returns or throws. *)
Definition ends {A} (o : outcome A) : Prop :=
  match o with
  | Stuck _ => False
  | _ => True
  end.

(** [m] reads the heap: wherever the objects of [h0] are, it returns a
    value that satisfies [Q] and leaves the state as it is, or throws. *)
Definition reads (h0 : heap) {A} (m : M A) (Q : A → Prop) : Prop :=
  ∀ σ, h0 ⊆ objects σ →
    match m σ with
    | Return a σ' => σ' = σ ∧ Q a
    | Throw _ _ => True
    | Stuck _ => False
    end.

(** [m] returns a value that satisfies [Q], the objects of [h0] still
    there, or throws. *)
Definition settles (h0 : heap) {A} (m : M A) (Q : A → Prop) : Prop :=
  ∀ σ, h0 ⊆ objects σ →
    match m σ with
    | Return a σ' => h0 ⊆ objects σ' ∧ Q a
    | Throw _ _ => True
    | Stuck _ => False
    end.

(** The record at [r], allocated after [h0], is being filled: its
    prototype is [Object.prototype], none, or an object of [h0]. *)
Definition record_at (h0 : heap) (r : loc) (σ : state) : Prop :=
  h0 ⊆ objects σ ∧ h0 !! r = None ∧
  ∃ fields proto,
    objects σ !! r = Some (Ordinary fields proto) ∧
    match proto with
    | ObjectAt l => parsed h0 (VObject l)
    | _ => True
    end.

Definition fills (h0 : heap) (r : loc) {A} (m : M A) (Q : A → Prop) : Prop :=
  ∀ σ, record_at h0 r σ →
    match m σ with
    | Return a σ' => record_at h0 r σ' ∧ Q a
    | Throw _ _ => True
    | Stuck _ => False
    end.

(** ** Bodies without the structure *)

(** [v], a value other than [null] and [undefined], has no property
    [name]: a boolean, a number, a string, an array, or a plain object
    without it.  ([name] is neither [length] nor an index.) *)
Definition lacks (h : heap) (v : val) (name : string) : Prop :=
  match v with
  | VUndefined | VNull => False
  | VBoolean _ | VNumber _ | VString _ => True
  | VObject l =>
      (∃ elems, h !! l = Some (Array elems)) ∨
      (∃ props, h !! l = Some (Ordinary props ObjectPrototype) ∧
                props !! name = None)
  end.

(** The body, which is not [null], lacks [key]; or what it holds under
    [key], which is not [null], lacks [data]; or [data] is the empty
    array. *)
Definition nothing_to_decode (h : heap) (body : val) (key : string) : Prop :=
  lacks h body key
  ∨ (∃ props t, json_object h body props ∧ props !! key = Some t ∧
                lacks h t "data")
  ∨ (∃ props t tprops d,
       json_object h body props ∧ props !! key = Some t ∧
       json_object h t tprops ∧ tprops !! "data" = Some d ∧
       json_array h d []).

(** ** Texts inside texts *)

Fixpoint starts_with (s t : string) : bool :=
  match s, t with
  | EmptyString, _ => true
  | String a s', String b t' => Ascii.eqb a b && starts_with s' t'
  | String _ _, EmptyString => false
  end.

(** Whether [s] occurs in [t]. *)
Fixpoint occurs (s t : string) : bool :=
  starts_with s t ||
  match t with
  | EmptyString => false
  | String _ t' => occurs s t'
  end.

(** The body [{ "securities": { "columns": [1, null, "A", [2, 3], {}],
    "data": [["a", "b", "c", "d", "e"]] } }]. *)
Definition mixed_columns_heap : heap :=
  list_to_map
    [ (1%positive, Ordinary {[ "securities" := VObject 2 ]} ObjectPrototype);
      (2%positive, Ordinary (<["columns" := VObject 3]> {[ "data" := VObject 4 ]})
                            ObjectPrototype);
      (3%positive, Array [VNumber (S754_finite false 1 0); VNull; VString "A";
                          VObject 6; VObject 7]);
      (4%positive, Array [VObject 5]);
      (5%positive, Array [VString "a"; VString "b"; VString "c"; VString "d";
                          VString "e"]);
      (6%positive, Array [VNumber (S754_finite false 2 0);
                          VNumber (S754_finite false 3 0)]);
      (7%positive, Ordinary ∅ ObjectPrototype) ].

(** ** The enumerations of [src/types.ts] as path segments *)

(** The values of [enum Engine] and of [enum Market], in their order. *)
Definition engines : list string :=
  [Engine.STOCK; Engine.STATE; Engine.CURRENCY; Engine.FUTURES;
   Engine.COMMODITY; Engine.INTERVENTIONS].

Definition markets : list string :=
  [Market.SHARES; Market.BONDS; Market.NDM; Market.OTC; Market.CCP;
   Market.DEPOSIT; Market.REPO; Market.QNV; Market.MAMC;
   Market.FOREIGNEXCHANGE; Market.SELT; Market.PSDB; Market.MIXED].

Fixpoint has_slash (s : string) : bool :=
  match s with
  | EmptyString => false
  | String c s' => Ascii.eqb c "/"%char || has_slash s'
  end.

(** A string without [/], which the templates put between two [/]. *)
Definition path_segment (s : string) : Prop := has_slash s = false.

(** ** The rate limiter of the tests against the real API *)

(** [SimpleRateLimiter], the class through which the tests call the
    three operations.  JavaScript runs each piece of code to completion,
    so the limiter moves in two kinds of steps: a call of [limit], and
    the resumption of a started task when the promise of its [fn] (and,
    in the variant with a delay, the timer after it) has settled.  The
    task is the function pushed on the queue by [limit]; what the limiter
    sees of its [fn] is whether the call [fn()] throws at once or returns
    a promise.  [fn] does not call the limiter itself.  [maxConcurrent]
    is an integer, as in both uses of the class. *)
Module SimpleRateLimiter.

Record task := Task { name : nat; throws : bool }.

(** The fields of the class; the tasks suspended at an [await], in the
    order in which they were started; and the log of the calls [fn()]. *)
Record limiter := Limiter {
  maxConcurrent : Z;
  running : Z;
  queue : list task;
  awaiting : list task;
  called : list task
}.

(** [new SimpleRateLimiter(maxConcurrent)] *)
Definition new (maxConcurrent : Z) : limiter :=
  Limiter maxConcurrent 0 [] [] [].

(** [processQueue], the queue being [queue]: when a slot is free and the
    queue is not empty, [next = this.queue.shift()] and [next()], that
    is [this.running++] and the call [fn()].  When the call throws, the
    task goes on at once to its [finally]: [this.running--] and
    [this.processQueue()] again; otherwise it is suspended at its
    [await]. *)
Fixpoint processQueue_on (queue : list task) (l : limiter) : limiter :=
  match queue with
  | [] => Limiter (maxConcurrent l) (running l) [] (awaiting l) (called l)
  | next :: rest =>
      if (running l <? maxConcurrent l)%Z then
        if throws next then
          processQueue_on rest
            (Limiter (maxConcurrent l) (running l + 1 - 1) rest (awaiting l)
                     (called l ++ [next]))
        else
          Limiter (maxConcurrent l) (running l + 1) rest
                  (awaiting l ++ [next]) (called l ++ [next])
      else Limiter (maxConcurrent l) (running l) queue (awaiting l) (called l)
  end.

Definition processQueue (l : limiter) : limiter :=
  processQueue_on (queue l) l.

(** [limit(fn)]: the task is pushed, then [processQueue()]. *)
Definition limit (fn : task) (l : limiter) : limiter :=
  processQueue
    (Limiter (maxConcurrent l) (running l) (queue l ++ [fn]) (awaiting l)
             (called l)).

(** The task suspended at index [i] resumes: it resolves or rejects the
    promise of its caller and reaches its [finally], [this.running--]
    and [this.processQueue()].  Only a suspended task resumes. *)
Definition resume (i : nat) (l : limiter) : option limiter :=
  match awaiting l !! i with
  | Some _ =>
      Some (processQueue
              (Limiter (maxConcurrent l) (running l - 1) (queue l)
                       (delete i (awaiting l)) (called l)))
  | None => None
  end.

(** The steps of a limiter. *)
Inductive step :=
  | Limit (fn : task)
  | Resume (i : nat).

Fixpoint run (steps : list step) (l : limiter) : option limiter :=
  match steps with
  | [] => Some l
  | Limit fn :: steps' => run steps' (limit fn l)
  | Resume i :: steps' =>
      match resume i l with
      | Some l' => run steps' l'
      | None => None
      end
  end.

(** The functions given to [limit], in the order of the calls. *)
Fixpoint submitted (steps : list step) : list task :=
  match steps with
  | [] => []
  | Limit fn :: steps' => fn :: submitted steps'
  | Resume _ :: steps' => submitted steps'
  end.

(** What holds of a limiter after every step: the counter is the number
    of suspended tasks, it does not exceed the bound, and no slot is free
    while a task waits. *)
Record invariant (l : limiter) : Prop := Invariant {
  inv_running : running l = Z.of_nat (length (awaiting l));
  inv_bound : (running l ≤ Z.max 0 (maxConcurrent l))%Z;
  inv_busy : queue l ≠ [] → (maxConcurrent l ≤ running l)%Z
}.

(** Three calls of [limit], the third with a function that throws, then
    the first task resumes. *)
Definition example_steps : list step :=
  [Limit (Task 1 false); Limit (Task 2 false); Limit (Task 3 true); Resume 0].

End SimpleRateLimiter.

(** * Properties *)

(** ** The frame rules: what a computation leaves untouched *)

Section frame.
Context (h0 : heap).

Lemma kept_refl σ : h0 ⊆ objects σ → kept h0 σ σ.
Proof. by split. Qed.

Lemma kept_trans σ1 σ2 σ3 : kept h0 σ1 σ2 → kept h0 σ2 σ3 → kept h0 σ1 σ3.
Proof. intros [? Hr1] [? Hr2]. split; [done|]. by rewrite Hr2. Qed.

Lemma kept_insert_fresh σ r o :
  h0 !! r = None → h0 ⊆ objects σ →
  kept h0 σ (State (<[r := o]> (objects σ)) (requests σ)).
Proof.
  intros Hr Hσ. split; [|done]. apply map_subseteq_spec. intros l x Hl.
  simpl. rewrite lookup_insert_ne; [|congruence].
  by eapply lookup_weaken.
Qed.

Lemma keeps_ret {A} (a : A) (Q : A → Prop) : Q a → keeps h0 (ret a) Q.
Proof. intros HQ σ Hσ. simpl. split; [by apply kept_refl|done]. Qed.

Lemma keeps_throw {A} e (Q : A → Prop) : keeps h0 (throw e) Q.
Proof. intros σ Hσ. simpl. by apply kept_refl. Qed.

Lemma keeps_stuck {A} (Q : A → Prop) : keeps h0 stuck Q.
Proof. intros σ Hσ. simpl. by apply kept_refl. Qed.

Lemma keeps_bind {A B} (m : M A) (k : A → M B) Q R :
  keeps h0 m Q → (∀ a, Q a → keeps h0 (k a) R) → keeps h0 (bind m k) R.
Proof.
  intros Hm Hk σ Hσ. unfold bind. specialize (Hm σ Hσ).
  destruct (m σ) as [a σ1|e σ1|σ1]; [|done..].
  destruct Hm as [Hσ1 HQ]. specialize (Hk a HQ σ1 (proj1 Hσ1)).
  destruct (k a σ1) as [b σ2|e σ2|σ2]; [|by eapply kept_trans..].
  destruct Hk as [Hσ2 HR]. split; [by eapply kept_trans|done].
Qed.

Lemma keeps_weaken {A} (m : M A) (Q R : A → Prop) :
  keeps h0 m Q → (∀ a, Q a → R a) → keeps h0 m R.
Proof.
  intros Hm HQR σ Hσ. specialize (Hm σ Hσ).
  destruct (m σ); [|done..]. split; [apply Hm|apply HQR, Hm].
Qed.

Lemma keeps_get v k : keeps h0 (get v k) (λ _, True).
Proof.
  intros σ Hσ. pose proof (kept_refl σ Hσ).
  destruct v as [| | | |s|l]; simpl; try done.
  - destruct k as [[]|]; simpl; done.
  - destruct (objects σ !! l) as [o|]; [|done].
    destruct (own_property o k); [done|].
    destruct o as [? []|]; done.
Qed.

Lemma keeps_alloc o : keeps h0 (alloc o) (fresh_for h0).
Proof.
  intros σ Hσ. simpl.
  pose proof (is_fresh (dom (objects σ))) as Hfresh.
  apply not_elem_of_dom in Hfresh.
  assert (h0 !! fresh (dom (objects σ)) = None) as Hnew
    by (by eapply lookup_weaken_None).
  split; [by apply kept_insert_fresh|]. by eexists.
Qed.

Lemma keeps_put target k v :
  fresh_for h0 target → keeps h0 (put target k v) (λ _, True).
Proof.
  intros (r & -> & Hr) σ Hσ. simpl.
  pose proof (kept_refl σ Hσ).
  pose proof (λ o, kept_insert_fresh σ r o Hr Hσ).
  destruct (objects σ !! r) as [[props proto|]|]; [|done..].
  case_decide; [|done].
  destruct (props !! k); [done|].
  destruct (reaches_proto_accessor (objects σ) proto) as [[]|]; [|done..].
  unfold proto_setter. destruct v as [| | | | |l]; simpl; try done.
  case_decide; [done|].
  destruct (objects σ !! l) as [[? []|]|]; done.
Qed.

Lemma keeps_to_property_key {number_to_string : number → string} v :
  keeps h0 (to_property_key number_to_string v) (λ _, True).
Proof.
  intros σ Hσ. pose proof (kept_refl σ Hσ). unfold to_property_key.
  by destruct (to_string number_to_string (objects σ) v).
Qed.

Lemma keeps_put_computed {number_to_string : number → string} target column v :
  fresh_for h0 target →
  keeps h0 (put_computed number_to_string target column v) (λ _, True).
Proof.
  intros Ht. eapply keeps_bind; [apply keeps_to_property_key|].
  intros k _. by apply keeps_put.
Qed.

Lemma keeps_array_method v expr method :
  keeps h0 (array_method v expr method) (λ _, True).
Proof.
  intros σ Hσ. pose proof (kept_refl σ Hσ).
  destruct v as [| | | | |l]; simpl; try done.
  destruct (objects σ !! l) as [[props proto|]|]; try done.
  destruct (props !! method), proto; done.
Qed.

Lemma keeps_array_elems a : keeps h0 (array_elems a) (λ _, True).
Proof.
  intros σ Hσ. pose proof (kept_refl σ Hσ). unfold array_elems.
  destruct (objects σ !! a) as [[]|]; done.
Qed.

Lemma keeps_for_each_from a callback k n :
  (∀ x i, keeps h0 (callback x i) (λ _, True)) →
  keeps h0 (for_each_from a callback k n) (λ _, True).
Proof.
  intros Hcb. revert k. induction n as [|n IH]; intros k; simpl.
  - by apply keeps_ret.
  - eapply keeps_bind; [apply keeps_array_elems|]. intros elems _.
    destruct (elems !! k); [|apply IH].
    eapply keeps_bind; [apply Hcb|]. intros _ _. apply IH.
Qed.

Lemma keeps_forEach v expr callback :
  (∀ x i, keeps h0 (callback x i) (λ _, True)) →
  keeps h0 (Array_forEach v expr callback) (λ _, True).
Proof.
  intros Hcb. unfold Array_forEach.
  eapply keeps_bind; [apply keeps_array_method|]. intros a _.
  eapply keeps_bind; [apply keeps_array_elems|]. intros elems _.
  by apply keeps_for_each_from.
Qed.

Lemma keeps_map_from a callback k n :
  (∀ x, keeps h0 (callback x) (λ _, True)) →
  keeps h0 (map_from a callback k n) (λ _, True).
Proof.
  intros Hcb. revert k. induction n as [|n IH]; intros k; simpl.
  - by apply keeps_ret.
  - eapply keeps_bind; [apply keeps_array_elems|]. intros elems _.
    destruct (elems !! k).
    + eapply keeps_bind; [apply Hcb|]. intros y _.
      eapply keeps_bind; [apply IH|]. intros ys _. by apply keeps_ret.
    + eapply keeps_bind; [apply IH|]. intros ys _. by apply keeps_ret.
Qed.

Lemma keeps_map v expr callback :
  (∀ x, keeps h0 (callback x) (λ _, True)) →
  keeps h0 (Array_map v expr callback) (λ _, True).
Proof.
  intros Hcb. unfold Array_map.
  eapply keeps_bind; [apply keeps_array_method|]. intros a _.
  eapply keeps_bind; [apply keeps_array_elems|]. intros elems _.
  eapply keeps_bind; [by apply keeps_map_from|]. intros mapped _.
  eapply keeps_weaken; [apply keeps_alloc|done].
Qed.

(** The callback shared by the three operations: a fresh record filled
    from [row], column by column. *)
Lemma keeps_row_callback {number_to_string : number → string} columns row :
  keeps h0
    (let* record := new_object in
     let* _ := Array_forEach columns "columns" (fun column index =>
                 let* x := get_index row index in
                 put_computed number_to_string record column x) in
     ret record)
    (λ _, True).
Proof.
  eapply keeps_bind; [apply keeps_alloc|]. intros record Hrecord.
  eapply keeps_bind; [|intros; by apply keeps_ret].
  apply keeps_forEach. intros column index.
  eapply keeps_bind; [apply keeps_get|]. intros x _.
  by apply keeps_put_computed.
Qed.

End frame.

Ltac keeps_reads :=
  repeat (eapply keeps_bind; [apply keeps_get|]; intros ? _;
          try (case_match; [first [by apply keeps_ret
                                  |eapply keeps_weaken; [apply keeps_alloc|done]]|])).

Lemma keeps_getSecurities_decode {number_to_string : number → string} h0 data :
  keeps h0 (getSecurities_decode number_to_string data) (λ _, True).
Proof.
  unfold getSecurities_decode, get_field. keeps_reads.
  apply keeps_map. intros row. apply keeps_row_callback.
Qed.

Lemma keeps_getTradingSessions_decode {number_to_string : number → string} h0 data :
  keeps h0 (getTradingSessions_decode number_to_string data) (λ _, True).
Proof.
  unfold getTradingSessions_decode, get_field. keeps_reads.
  apply keeps_map. intros row. apply keeps_row_callback.
Qed.

Lemma keeps_getMarketData_decode {number_to_string : number → string} h0 data :
  keeps h0 (getMarketData_decode number_to_string data) (λ _, True).
Proof.
  unfold getMarketData_decode, get_field, get_index. keeps_reads.
  apply keeps_row_callback.
Qed.

Lemma keeps_final {A} (m : M A) σ :
  keeps (objects σ) m (λ _, True) → kept (objects σ) σ (final (m σ)).
Proof.
  intros Hm. specialize (Hm σ (reflexivity _)).
  destruct (m σ); simpl; [apply Hm|apply Hm|apply Hm].
Qed.

(** ** Parsed bodies: decoding returns or throws *)

Lemma alloc_subseteq (h : heap) o : h ⊆ <[fresh (dom h) := o]> h.
Proof. apply insert_subseteq, not_elem_of_dom, is_fresh. Qed.

Lemma json_within_fuel n : ∀ m h v,
  (n ≤ m)%nat → json_within n h v → json_within m h v.
Proof.
  induction n as [|n IH]; intros m h v Hnm Hv.
  - destruct v; try done; by destruct m.
  - destruct v as [| | | | |l]; try (by destruct m).
    destruct m as [|m]; [lia|]. simpl in *.
    destruct (h !! l) as [[props []|elems]|]; try done.
    + eapply map_Forall_impl; [exact Hv|]. intros k x. apply IH. lia.
    + eapply Forall_impl; [exact Hv|]. intros x. apply IH. lia.
Qed.

Lemma json_within_weaken n : ∀ h h' v,
  h ⊆ h' → json_within n h v → json_within n h' v.
Proof.
  induction n as [|n IH]; intros h h' v Hsub Hv;
    destruct v as [| | | | |l]; try done.
  simpl in *. destruct (h !! l) as [o|] eqn:Hl; [|done].
  rewrite (lookup_weaken _ _ _ _ Hl Hsub).
  destruct o as [props []|elems]; try done.
  - eapply map_Forall_impl; [exact Hv|]. intros k x.
    by apply IH, delete_mono.
  - eapply Forall_impl; [exact Hv|]. intros x.
    by apply IH, delete_mono.
Qed.

#[local] Instance json_within_dec n : ∀ h v, Decision (json_within n h v).
Proof.
  induction n as [|n IH]; intros h [| | | | |l]; simpl; try apply _.
  destruct (h !! l) as [[props []|elems]|]; apply _.
Defined.

Lemma parsed_weaken h h' v : h ⊆ h' → parsed h v → parsed h' v.
Proof. intros Hsub [n Hn]. exists n. by eapply json_within_weaken. Qed.

Lemma parsed_lookup h l :
  parsed h (VObject l) →
  (∃ elems, h !! l = Some (Array elems) ∧ Forall (parsed h) elems) ∨
  (∃ props, h !! l = Some (Ordinary props ObjectPrototype) ∧
            map_Forall (λ _, parsed h) props).
Proof.
  intros [[|n] Hn]; [done|]. simpl in Hn.
  destruct (h !! l) as [[props []|elems]|]; try done.
  - right. exists props. split; [done|].
    eapply map_Forall_impl; [exact Hn|]. intros k x Hx. exists n.
    eapply json_within_weaken; [apply (delete_subseteq h l)|exact Hx].
  - left. exists elems. split; [done|].
    eapply Forall_impl; [exact Hn|]. intros x Hx. exists n.
    eapply json_within_weaken; [apply (delete_subseteq h l)|exact Hx].
Qed.

Lemma join_with_known element xs :
  Forall (λ x, element x ≠ Unknown) xs → join_with element xs ≠ Unknown.
Proof.
  induction 1 as [|x xs Hx _ IH]; [done|]. simpl.
  destruct xs as [|y ys]; [done|].
  destruct (element x); try done.
  by destruct (join_with element (y :: ys)).
Qed.

Section parsed_bodies.
Context {number_to_string : number → string}.

(** The conversion of a parsed value to text never runs out of fuel. *)
Lemma to_string_within_known n : ∀ m h v,
  json_within n h v → size h < m →
  to_string_within number_to_string m h v ≠ Unknown.
Proof.
  induction n as [|n IH]; intros m h v Hv Hm;
    (destruct m as [|m]; [lia|]);
    destruct v as [| |[]| | |l]; try done.
  simpl in *. destruct (h !! l) as [o|] eqn:Hl; [|done].
  assert (size (delete l h) < m) as Hsize.
  { rewrite map_size_delete_Some by done.
    pose proof (map_size_ne_0_lookup_2 h l (mk_is_Some _ _ Hl)). lia. }
  destruct o as [props []|elems]; try done.
  - by destruct (props !! "toString").
  - apply join_with_known. eapply Forall_impl; [exact Hv|].
    intros x Hx. destruct x as [| |[]| | |l']; try done; by apply IH.
Qed.

Context (h0 : heap).

Lemma reads_ret {A} (a : A) (Q : A → Prop) : Q a → reads h0 (ret a) Q.
Proof. by intros HQ σ Hσ. Qed.

Lemma reads_settles {A} (m : M A) Q : reads h0 m Q → settles h0 m Q.
Proof.
  intros Hm σ Hσ. specialize (Hm σ Hσ).
  destruct (m σ) as [a σ'| |]; [|done..]. by destruct Hm as [-> ?].
Qed.

Lemma reads_fills r {A} (m : M A) Q : reads h0 m Q → fills h0 r m Q.
Proof.
  intros Hm σ Hσ. specialize (Hm σ (proj1 Hσ)).
  destruct (m σ) as [a σ'| |]; [|done..]. by destruct Hm as [-> ?].
Qed.

Lemma settles_ret {A} (a : A) (Q : A → Prop) : Q a → settles h0 (ret a) Q.
Proof. by intros HQ σ Hσ. Qed.

Lemma settles_bind {A B} (m : M A) (k : A → M B) Q R :
  settles h0 m Q → (∀ a, Q a → settles h0 (k a) R) → settles h0 (bind m k) R.
Proof.
  intros Hm Hk σ Hσ. unfold bind. specialize (Hm σ Hσ).
  destruct (m σ) as [a σ1| |]; [|done..].
  destruct Hm as [Hσ1 HQ]. exact (Hk a HQ σ1 Hσ1).
Qed.

Lemma settles_weaken {A} (m : M A) (Q R : A → Prop) :
  settles h0 m Q → (∀ a, Q a → R a) → settles h0 m R.
Proof.
  intros Hm HQR σ Hσ. specialize (Hm σ Hσ).
  destruct (m σ); [|done..]. split; [apply Hm|apply HQR, Hm].
Qed.

Lemma fills_bind r {A B} (m : M A) (k : A → M B) Q R :
  fills h0 r m Q → (∀ a, Q a → fills h0 r (k a) R) → fills h0 r (bind m k) R.
Proof.
  intros Hm Hk σ Hσ. unfold bind. specialize (Hm σ Hσ).
  destruct (m σ) as [a σ1| |]; [|done..].
  destruct Hm as [Hσ1 HQ]. exact (Hk a HQ σ1 Hσ1).
Qed.

Lemma fills_ret r {A} (a : A) (Q : A → Prop) : Q a → fills h0 r (ret a) Q.
Proof. by intros HQ σ Hσ. Qed.

Lemma settles_ends {A} (m : M A) Q σ :
  settles h0 m Q → h0 ⊆ objects σ → ends (m σ).
Proof. intros Hm Hσ. specialize (Hm σ Hσ). by destruct (m σ). Qed.

Lemma reads_get v k : parsed h0 v → reads h0 (get v k) (parsed h0).
Proof.
  intros Hv σ Hσ.
  destruct v as [| | | |s|l]; simpl; try done.
  - split; [done|]. by exists 0.
  - split; [done|]. by exists 0.
  - destruct k as [f|i]; simpl.
    + destruct f; (split; [done|]); by exists 0.
    + split; [done|]. destruct (String.get i s); by exists 0.
  - destruct (parsed_lookup _ _ Hv) as [(elems & Hl & Helems)|(props & Hl & Hprops)];
      rewrite (lookup_weaken _ _ _ _ Hl Hσ).
    + destruct k as [f|i]; simpl.
      * destruct f; (split; [done|]); by exists 0.
      * destruct (elems !! i) as [w|] eqn:Hi.
        -- split; [done|]. by eapply (Forall_lookup_1 _ elems i w).
        -- split; [done|]. by exists 0.
    + simpl. destruct (props !! key_name k) as [w|] eqn:Hk.
      * split; [done|]. exact (Hprops (key_name k) w Hk).
      * split; [done|]. by exists 0.
Qed.

Lemma reads_array_method v expr method :
  parsed h0 v →
  reads h0 (array_method v expr method)
    (λ a, ∃ elems, h0 !! a = Some (Array elems) ∧ Forall (parsed h0) elems).
Proof.
  intros Hv σ Hσ. destruct v as [| | | | |l]; simpl; try done.
  destruct (parsed_lookup _ _ Hv) as [(elems & Hl & Helems)|(props & Hl & Hprops)];
    rewrite (lookup_weaken _ _ _ _ Hl Hσ).
  - split; [done|]. by exists elems.
  - by destruct (props !! method).
Qed.

Lemma reads_array_elems a elems :
  h0 !! a = Some (Array elems) →
  reads h0 (array_elems a) (λ es, es = elems).
Proof.
  intros Ha σ Hσ. unfold array_elems.
  by rewrite (lookup_weaken _ _ _ _ Ha Hσ).
Qed.

Lemma reads_to_property_key v :
  parsed h0 v → reads h0 (to_property_key number_to_string v) (λ _, True).
Proof.
  intros [n Hn] σ Hσ. unfold to_property_key, to_string.
  pose proof (to_string_within_known n (S (size (objects σ))) (objects σ) v
                (json_within_weaken n _ _ v Hσ Hn) ltac:(lia)) as Hknown.
  by destruct (to_string_within _ _ _ v).
Qed.

Lemma settles_alloc o : settles h0 (alloc o) (λ _, True).
Proof.
  intros σ Hσ. simpl. split; [|done].
  etrans; [exact Hσ|]. apply alloc_subseteq.
Qed.

(** A write to the record that is being filled. *)
Lemma record_at_insert r σ fields proto :
  record_at h0 r σ →
  match proto with
  | ObjectAt l => parsed h0 (VObject l)
  | _ => True
  end →
  record_at h0 r
    (State (<[r := Ordinary fields proto]> (objects σ)) (requests σ)).
Proof.
  intros (Hσ & Hr & _) Hproto. split_and!; [|done|].
  - by apply insert_subseteq_r.
  - exists fields, proto. simpl. by rewrite lookup_insert_eq.
Qed.

Lemma fills_put r k v :
  parsed h0 v → fills h0 r (put (VObject r) k v) (λ _, True).
Proof.
  intros Hv σ Hσ. pose proof Hσ as (Hsub & Hr & fields & proto & Hrσ & Hproto).
  assert (record_at h0 r
            (State (<[r := Ordinary (<[k := v]> fields) proto]> (objects σ))
                   (requests σ))) as Hown
    by (by apply record_at_insert).
  simpl. rewrite Hrσ. case_decide; [|done].
  destruct (fields !! k); [done|].
  assert (reaches_proto_accessor (objects σ) proto ≠ None) as Hreach.
  { destruct proto as [| |l]; simpl; try done.
    destruct (parsed_lookup _ _ Hproto) as [(elems & Hl & _)|(props & Hl & _)];
      rewrite (lookup_weaken _ _ _ _ Hl Hsub); [done|].
    by destruct (props !! "__proto__"). }
  destruct (reaches_proto_accessor (objects σ) proto) as [[]|]; [|done..].
  unfold proto_setter. destruct v as [| | | | |l]; try done.
  - split; [|done]. by apply record_at_insert.
  - case_decide; [done|].
    destruct (parsed_lookup _ _ Hv) as [(elems & Hl & _)|(props & Hl & _)];
      rewrite (lookup_weaken _ _ _ _ Hl Hsub);
      (split; [|done]); by apply record_at_insert.
Qed.

Lemma fills_put_computed r column v :
  parsed h0 column → parsed h0 v →
  fills h0 r (put_computed number_to_string (VObject r) column v) (λ _, True).
Proof.
  intros Hcolumn Hv. eapply fills_bind.
  - by apply reads_fills, reads_to_property_key.
  - intros k _. by apply fills_put.
Qed.

Lemma fills_for_each_from r a elems callback n : ∀ k,
  h0 !! a = Some (Array elems) → Forall (parsed h0) elems →
  (∀ x i, parsed h0 x → fills h0 r (callback x i) (λ _, True)) →
  fills h0 r (for_each_from a callback k n) (λ _, True).
Proof.
  induction n as [|n IH]; intros k Ha Helems Hcb; simpl.
  - by apply fills_ret.
  - eapply fills_bind; [by apply reads_fills, (reads_array_elems a elems)|].
    intros es ->. destruct (elems !! k) as [x|] eqn:Hk; [|by apply IH].
    eapply fills_bind; [|intros _ _; by apply IH].
    apply Hcb. by eapply (Forall_lookup_1 _ elems k x).
Qed.

Lemma fills_forEach r v expr callback :
  parsed h0 v →
  (∀ x i, parsed h0 x → fills h0 r (callback x i) (λ _, True)) →
  fills h0 r (Array_forEach v expr callback) (λ _, True).
Proof.
  intros Hv Hcb. unfold Array_forEach.
  eapply fills_bind; [by apply reads_fills, reads_array_method|].
  intros a (elems & Ha & Helems).
  eapply fills_bind; [by apply reads_fills, (reads_array_elems a elems)|].
  intros es ->. by eapply fills_for_each_from.
Qed.

(** The record of one row of a parsed body. *)
Lemma settles_record_of_row columns row :
  parsed h0 columns → parsed h0 row →
  settles h0 (record_of_row number_to_string columns row) (λ _, True).
Proof.
  intros Hcolumns Hrow σ Hσ.
  unfold record_of_row, bind at 1, new_object, alloc.
  set (r := fresh (dom (objects σ))).
  set (σ1 := State _ _).
  assert (objects σ !! r = None) as Hr by apply not_elem_of_dom, is_fresh.
  assert (record_at h0 r σ1) as Hσ1.
  { split_and!.
    - etrans; [exact Hσ|]. apply alloc_subseteq.
    - by eapply lookup_weaken_None.
    - exists ∅, ObjectPrototype. split; [apply lookup_insert_eq|done]. }
  assert (fills h0 r
            (let* _ := Array_forEach columns "columns" (fun column index =>
                         let* x := get_index row index in
                         put_computed number_to_string (VObject r) column x) in
             ret (VObject r)) (λ _, True)) as Hfill.
  { eapply fills_bind; [|intros _ _; by apply fills_ret].
    apply fills_forEach; [done|]. intros column index Hcolumn.
    eapply fills_bind; [by apply reads_fills, reads_get|].
    intros x Hx. by apply fills_put_computed. }
  specialize (Hfill σ1 Hσ1).
  destruct (bind _ _ σ1) as [a σ2| |]; [|done..].
  split; [apply Hfill|done].
Qed.

Lemma settles_map_from a elems callback n : ∀ k,
  h0 !! a = Some (Array elems) → Forall (parsed h0) elems →
  (∀ x, parsed h0 x → settles h0 (callback x) (λ _, True)) →
  settles h0 (map_from a callback k n) (λ _, True).
Proof.
  induction n as [|n IH]; intros k Ha Helems Hcb; simpl.
  - by apply settles_ret.
  - eapply settles_bind; [by apply reads_settles, (reads_array_elems a elems)|].
    intros es ->. destruct (elems !! k) as [x|] eqn:Hk.
    + eapply settles_bind.
      { apply Hcb. by eapply (Forall_lookup_1 _ elems k x). }
      intros y _. eapply settles_bind; [by apply IH|].
      intros ys _. by apply settles_ret.
    + eapply settles_bind; [by apply IH|].
      intros ys _. by apply settles_ret.
Qed.

Lemma settles_map v expr callback :
  parsed h0 v →
  (∀ x, parsed h0 x → settles h0 (callback x) (λ _, True)) →
  settles h0 (Array_map v expr callback) (λ _, True).
Proof.
  intros Hv Hcb. unfold Array_map.
  eapply settles_bind; [by apply reads_settles, reads_array_method|].
  intros a (elems & Ha & Helems).
  eapply settles_bind; [by apply reads_settles, (reads_array_elems a elems)|].
  intros es ->.
  eapply settles_bind; [by eapply settles_map_from|].
  intros mapped _. apply settles_alloc.
Qed.

End parsed_bodies.

Ltac settles_reads :=
  repeat (eapply settles_bind;
          [apply reads_settles, reads_get; eassumption|];
          intros ? ?;
          try (case_match; [first [by apply settles_ret|apply settles_alloc]|])).

Lemma settles_getSecurities_decode {number_to_string : number → string} h0 data :
  parsed h0 data →
  settles h0 (getSecurities_decode number_to_string data) (λ _, True).
Proof.
  intros Hdata. unfold getSecurities_decode, get_field. settles_reads.
  apply settles_map; [done|]. intros row Hrow.
  by apply settles_record_of_row.
Qed.

Lemma settles_getTradingSessions_decode {number_to_string : number → string}
    h0 data :
  parsed h0 data →
  settles h0 (getTradingSessions_decode number_to_string data) (λ _, True).
Proof.
  intros Hdata. unfold getTradingSessions_decode, get_field. settles_reads.
  apply settles_map; [done|]. intros row Hrow.
  by apply settles_record_of_row.
Qed.

Lemma settles_getMarketData_decode {number_to_string : number → string}
    h0 data :
  parsed h0 data →
  settles h0 (getMarketData_decode number_to_string data) (λ _, True).
Proof.
  intros Hdata. unfold getMarketData_decode, get_field, get_index.
  settles_reads.
  by apply settles_record_of_row.
Qed.

(** C9. The decoding step of the three operations never mutates the
    parsed body: whatever the body and the heap, and however decoding
    ends, every object that existed before (the body, its columns array,
    its data array and every row among them) is in the final heap with
    the content it had.  For a parsed body, a tree of plain objects,
    arrays and primitive values whatever its shape, decoding does end,
    by returning or by throwing: the final heap is the heap after the
    whole run. *)
Theorem decode_never_mutates {number_to_string : number → string} σ data :
  (objects σ ⊆ objects (final (getSecurities_decode number_to_string data σ)) ∧
   objects σ ⊆ objects (final (getMarketData_decode number_to_string data σ)) ∧
   objects σ
   ⊆ objects (final (getTradingSessions_decode number_to_string data σ))) ∧
  (parsed (objects σ) data →
   ends (getSecurities_decode number_to_string data σ) ∧
   ends (getMarketData_decode number_to_string data σ) ∧
   ends (getTradingSessions_decode number_to_string data σ)).
Proof.
  split.
  - split_and!; apply keeps_final.
    + apply keeps_getSecurities_decode.
    + apply keeps_getMarketData_decode.
    + apply keeps_getTradingSessions_decode.
  - intros Hdata. split_and!.
    + by eapply settles_ends; [apply settles_getSecurities_decode|].
    + by eapply settles_ends; [apply settles_getMarketData_decode|].
    + by eapply settles_ends; [apply settles_getTradingSessions_decode|].
Qed.

Ltac solve_parsed := exists 5; apply (bool_decide_unpack _); vm_compute; exact I.

Lemma mixed_columns_parsed : parsed mixed_columns_heap (VObject 1).
Proof. solve_parsed. Qed.

Lemma decode_never_mutates_witness :
  ends (getSecurities_decode integer_to_string (VObject 1)
          (State mixed_columns_heap [])) ∧
  ends (getMarketData_decode integer_to_string (VObject 1)
          (State mixed_columns_heap [])) ∧
  ends (getTradingSessions_decode integer_to_string (VObject 1)
          (State mixed_columns_heap [])).
Proof.
  apply (proj2 (decode_never_mutates (number_to_string:=integer_to_string)
                  (State mixed_columns_heap []) (VObject 1))).
  exact mixed_columns_parsed.
Defined.

(** ** Reading and writing the heap *)

Lemma state_eta σ : State (objects σ) (requests σ) = σ.
Proof. by destruct σ. Qed.

Lemma get_index_array σ l row i :
  objects σ !! l = Some (Array row) →
  get_index (VObject l) i σ = Return (row_value row i) σ.
Proof.
  intros Hl. unfold get_index, get, row_value. rewrite Hl. simpl.
  by destruct (row !! i).
Qed.

Lemma get_field_object σ v props f :
  json_object (objects σ) v props →
  get_field v f σ = Return (default VUndefined (props !! field_name f)) σ.
Proof.
  intros (l & -> & Hl). unfold get_field, get. rewrite Hl. simpl.
  by destruct (props !! field_name f).
Qed.

Lemma put_own σ r fields proto k v :
  objects σ !! r = Some (Ordinary fields proto) →
  k ≠ "__proto__" →
  put (VObject r) k v σ
  = Return tt (State (<[r := Ordinary (<[k := v]> fields) proto]> (objects σ))
                     (requests σ)).
Proof. intros Hr Hk. unfold put. rewrite Hr. by rewrite decide_False. Qed.

Lemma to_boolean_falsy v : falsy v ↔ to_boolean v = false.
Proof.
  split.
  - by destruct 1.
  - destruct v as [| |[]|[]|[]|]; simpl; try done; constructor.
Qed.

Lemma json_object_weaken h h' v props :
  h ⊆ h' → json_object h v props → json_object h' v props.
Proof. intros Hh (l & -> & Hl). exists l. eauto using lookup_weaken. Qed.

Lemma json_array_weaken h h' v elems :
  h ⊆ h' → json_array h v elems → json_array h' v elems.
Proof. intros Hh (l & -> & Hl). exists l. eauto using lookup_weaken. Qed.

(** A string is its own property key. *)
Lemma put_computed_string {number_to_string : number → string} target k v σ :
  put_computed number_to_string target (VString k) v σ = put target k v σ.
Proof. reflexivity. Qed.

(** ** One row against the columns *)

Section one_row.
Context (lc lr r : loc) (columns : list string) (row : list val).

Context {number_to_string : number → string}.

Let callback : val → nat → M unit :=
  fun column index =>
    let* x := get_index (VObject lr) index in
    put_computed number_to_string (VObject r) column x.

Lemma for_each_assign suffix : ∀ k fields σ,
  objects σ !! lc = Some (Array (VString <$> columns)) →
  objects σ !! lr = Some (Array row) →
  objects σ !! r = Some (Ordinary fields ObjectPrototype) →
  r ≠ lc → r ≠ lr →
  drop k columns = suffix →
  "__proto__" ∉ suffix →
  for_each_from lc callback k (length suffix) σ
  = Return tt
      (State (<[r := Ordinary (assign_from suffix row k fields) ObjectPrototype]>
                (objects σ))
             (requests σ)).
Proof.
  induction suffix as [|c suffix IH]; intros k fields σ Hlc Hlr Hr Hrc Hrr Hdrop Hproto.
  - simpl. unfold ret. by rewrite insert_id, state_eta.
  - assert (columns !! k = Some c) as Hk.
    { rewrite <- (Nat.add_0_r k), <- lookup_drop, Hdrop. done. }
    assert (drop (S k) columns = suffix) as Hdrop'.
    { by rewrite <- Nat.add_1_r, <- drop_drop, Hdrop. }
    apply not_elem_of_cons in Hproto as [Hc Hproto].
    cbn [for_each_from length]. unfold bind at 1, array_elems at 1.
    rewrite Hlc, list_lookup_fmap, Hk. simpl.
    unfold bind at 1, callback at 1, bind at 1.
    rewrite (get_index_array _ _ row) by done.
    rewrite put_computed_string, (put_own _ _ fields ObjectPrototype) by done.
    rewrite (IH (S k) (<[c := row_value row k]> fields)); simpl;
      rewrite ?lookup_insert_ne by done; try done.
    + by rewrite insert_insert_eq.
    + by rewrite lookup_insert_eq.
Qed.

End one_row.

Lemma row_callback_assign {number_to_string : number → string} σ lc lr columns row :
  objects σ !! lc = Some (Array (VString <$> columns)) →
  objects σ !! lr = Some (Array row) →
  "__proto__" ∉ columns →
  (let* record := new_object in
   let* _ := Array_forEach (VObject lc) "columns" (fun column index =>
               let* x := get_index (VObject lr) index in
               put_computed number_to_string record column x) in
   ret record) σ
  = Return (VObject (fresh (dom (objects σ))))
      (State (<[fresh (dom (objects σ)) := Ordinary (assign columns row) ObjectPrototype]>
                (objects σ))
             (requests σ)).
Proof.
  intros Hlc Hlr Hproto.
  set (r := fresh (dom (objects σ))).
  assert (objects σ !! r = None) as Hr by apply not_elem_of_dom, is_fresh.
  assert (r ≠ lc) as Hrc by congruence.
  assert (r ≠ lr) as Hrr by congruence.
  unfold bind at 1, new_object, alloc. fold r.
  unfold bind at 1, Array_forEach, bind at 1, array_method. simpl.
  rewrite lookup_insert_ne, Hlc by done.
  unfold bind at 1, array_elems at 1. simpl.
  rewrite lookup_insert_ne, Hlc by done.
  rewrite length_fmap.
  rewrite (for_each_assign lc lr r columns row columns 0 ∅); simpl;
    rewrite ?lookup_insert_ne by done; try done.
  - by rewrite insert_insert_eq.
  - by rewrite lookup_insert_eq.
Qed.

(** ** All rows, in order *)

Section rows.
Context (lc ld : loc) (columns : list string) (refs : list val).
Hypothesis no_proto : "__proto__" ∉ columns.

Context {number_to_string : number → string}.

Let callback : val → M val :=
  fun row =>
    let* record := new_object in
    let* _ := Array_forEach (VObject lc) "columns" (fun column index =>
                let* x := get_index row index in
                put_computed number_to_string record column x) in
    ret record.

Lemma map_from_assign rows : ∀ k σ,
  objects σ !! lc = Some (Array (VString <$> columns)) →
  objects σ !! ld = Some (Array refs) →
  Forall2 (json_array (objects σ)) (drop k refs) rows →
  ∃ mapped σ',
    map_from ld callback k (length rows) σ = Return mapped σ' ∧
    objects σ ⊆ objects σ' ∧ requests σ' = requests σ ∧
    Forall2 (json_object (objects σ')) mapped (assign columns <$> rows).
Proof.
  induction rows as [|row rows IH]; intros k σ Hlc Hld Hrows.
  - exists [], σ. simpl. split_and!; done.
  - destruct (drop k refs) as [|ref rest] eqn:Hdrop; [by inversion Hrows|].
    apply Forall2_cons in Hrows as [(lr & -> & Hlr) Hrows].
    assert (refs !! k = Some (VObject lr)) as Hk.
    { rewrite <- (Nat.add_0_r k), <- lookup_drop, Hdrop. done. }
    assert (drop (S k) refs = rest) as Hdrop'.
    { by rewrite <- Nat.add_1_r, <- drop_drop, Hdrop. }
    cbn [map_from length]. unfold bind at 1, array_elems at 1.
    rewrite Hld, Hk. unfold bind at 1, callback at 1.
    rewrite (row_callback_assign σ lc lr columns row) by done.
    set (r := fresh (dom (objects σ))).
    set (σ1 := State _ _).
    assert (objects σ ⊆ objects σ1) as Hσ1 by apply alloc_subseteq.
    destruct (IH (S k) σ1) as (mapped & σ' & Hrun & Hσ' & Hreq & Hmapped).
    { by eapply lookup_weaken. }
    { by eapply lookup_weaken. }
    { rewrite Hdrop'. eapply Forall2_impl; [exact Hrows|].
      intros ??. by apply json_array_weaken. }
    exists (VObject r :: mapped), σ'. unfold bind at 1. rewrite Hrun.
    split_and!; [done|by etrans|done|].
    simpl. constructor; [|done].
    exists r. split; [done|].
    eapply lookup_weaken; [|exact Hσ']. apply lookup_insert_eq.
Qed.

End rows.

(** ** The decoding steps on a table *)

Lemma Array_map_rows {number_to_string : number → string} σ lc d columns refs rows :
  objects σ !! lc = Some (Array (VString <$> columns)) →
  json_array (objects σ) d refs →
  Forall2 (json_array (objects σ)) refs rows →
  "__proto__" ∉ columns →
  returns_records
    (Array_map d "rows" (fun row =>
       let* record := new_object in
       let* _ := Array_forEach (VObject lc) "columns" (fun column index =>
                   let* x := get_index row index in
                   put_computed number_to_string record column x) in
       ret record))
    σ (assign columns <$> rows).
Proof.
  intros Hlc (ld & -> & Hld) Hrows Hproto.
  destruct (map_from_assign (number_to_string:=number_to_string) lc ld columns refs
              Hproto rows 0 σ)
    as (mapped & σ' & Hrun & Hσ' & Hreq & Hmapped); [done..|].
  unfold returns_records, Array_map, bind at 1, array_method. rewrite Hld.
  unfold bind at 1, array_elems at 1. rewrite Hld.
  rewrite (Forall2_length _ _ _ Hrows). unfold bind at 1. rewrite Hrun.
  simpl. eexists _, _, mapped. split_and!; [done|apply lookup_insert_eq|].
  eapply Forall2_impl; [exact Hmapped|].
  intros ??. apply json_object_weaken, alloc_subseteq.
Qed.

Lemma bind_Return {A B} (m : M A) (k : A → M B) σ a σ' :
  m σ = Return a σ' → bind m k σ = k a σ'.
Proof. intros Hm. unfold bind. by rewrite Hm. Qed.

Lemma json_object_truthy h v props : json_object h v props → to_boolean v = true.
Proof. by intros (l & -> & _). Qed.

Lemma json_array_truthy h v elems : json_array h v elems → to_boolean v = true.
Proof. by intros (l & -> & _). Qed.

Lemma returns_records_ext (m m' : M val) σ records :
  m σ = m' σ → returns_records m' σ records → returns_records m σ records.
Proof. unfold returns_records. by intros ->. Qed.

Lemma get_field_at σ l props f v :
  objects σ !! l = Some (Ordinary props ObjectPrototype) →
  props !! field_name f = Some v →
  get_field (VObject l) f σ = Return v σ.
Proof. intros Hl Hf. unfold get_field, get. rewrite Hl. simpl. by rewrite Hf. Qed.

(** The read [v.f] that opens the computation, given where [v] is and
    what it holds under [f]. *)
Ltac read_field f Hl Hf :=
  rewrite (bind_Return _ _ _ _ _ (get_field_at _ _ _ f _ Hl Hf));
  cbn [to_boolean negb].

Lemma getSecurities_decode_table {number_to_string : number → string} σ body columns rows :
  table (objects σ) body "securities" columns rows →
  "__proto__" ∉ columns →
  returns_records (getSecurities_decode number_to_string body) σ (assign columns <$> rows).
Proof.
  intros Htable Hproto.
  destruct Htable as
    (props & t & tprops & c & d & refs & (lb & -> & Hlb) & Hkey & (lt & -> & Hlt)
     & Hc & (lc & -> & Hlc) & Hd & Hdata & Hrows).
  eapply returns_records_ext; [|by eapply (Array_map_rows σ lc d)].
  destruct Hdata as (ld & -> & Hld). unfold getSecurities_decode.
  read_field f_securities Hlb Hkey.
  read_field f_securities Hlb Hkey. read_field f_data Hlt Hd.
  read_field f_securities Hlb Hkey. read_field f_columns Hlt Hc.
  read_field f_securities Hlb Hkey. read_field f_data Hlt Hd.
  done.
Qed.

Lemma getTradingSessions_decode_table {number_to_string : number → string} σ body columns rows :
  table (objects σ) body "sessions" columns rows →
  "__proto__" ∉ columns →
  returns_records (getTradingSessions_decode number_to_string body) σ (assign columns <$> rows).
Proof.
  intros Htable Hproto.
  destruct Htable as
    (props & t & tprops & c & d & refs & (lb & -> & Hlb) & Hkey & (lt & -> & Hlt)
     & Hc & (lc & -> & Hlc) & Hd & Hdata & Hrows).
  eapply returns_records_ext; [|by eapply (Array_map_rows σ lc d)].
  destruct Hdata as (ld & -> & Hld). unfold getTradingSessions_decode.
  read_field f_sessions Hlb Hkey.
  read_field f_sessions Hlb Hkey. read_field f_data Hlt Hd.
  read_field f_sessions Hlb Hkey. read_field f_columns Hlt Hc.
  read_field f_sessions Hlb Hkey. read_field f_data Hlt Hd.
  done.
Qed.

Lemma get_length_array σ l elems :
  objects σ !! l = Some (Array elems) →
  get_field (VObject l) f_length σ
  = Return (VNumber (number_of_nat (length elems))) σ.
Proof. intros Hl. unfold get_field, get. by rewrite Hl. Qed.

Lemma table_table_first_row h body key columns row rows :
  table h body key columns (row :: rows) →
  ∃ later, table_first_row h body key columns row later.
Proof.
  intros (props & t & tprops & c & d & refs & Hbody & Hkey & Ht & Hc & Hcols
          & Hd & Hdata & Hrows).
  destruct refs as [|first later]; [by inversion Hrows|].
  apply Forall2_cons in Hrows as [Hfirst _].
  exists later, props, t, tprops, c, d, first. done.
Qed.

Lemma getMarketData_decode_first_row {number_to_string : number → string} σ body columns row later :
  table_first_row (objects σ) body "marketdata" columns row later →
  "__proto__" ∉ columns →
  returns_record (getMarketData_decode number_to_string body) σ (assign columns row).
Proof.
  intros (props & t & tprops & c & d & first & (lb & -> & Hlb) & Hkey
          & (lt & -> & Hlt) & Hc & (lc & -> & Hlc) & Hd & (ld & -> & Hld)
          & (lr & -> & Hlr)) Hproto.
  unfold returns_record, getMarketData_decode.
  read_field f_marketdata Hlb Hkey.
  read_field f_marketdata Hlb Hkey. read_field f_data Hlt Hd.
  read_field f_marketdata Hlb Hkey. read_field f_data Hlt Hd.
  rewrite (bind_Return _ _ _ _ _ (get_length_array _ _ _ Hld)).
  cbn [length number_of_nat strict_equals_zero].
  read_field f_marketdata Hlb Hkey. read_field f_columns Hlt Hc.
  read_field f_marketdata Hlb Hkey. read_field f_data Hlt Hd.
  rewrite (bind_Return _ _ _ _ _ (get_index_array _ _ _ 0 Hld)).
  change (row_value (VObject lr :: later) 0) with (VObject lr).
  rewrite (row_callback_assign σ lc lr columns row) by done.
  eexists _, _. split; [done|].
  eexists. split; [done|]. apply lookup_insert_eq.
Qed.

(** ** The fields one [forEach] leaves in a record *)

Lemma assign_from_other columns row : ∀ k fields name,
  name ∉ columns →
  assign_from columns row k fields !! name = fields !! name.
Proof.
  induction columns as [|c columns IH]; intros k fields name Hname; [done|].
  apply not_elem_of_cons in Hname as [Hc Hname]. simpl.
  rewrite IH by done. by rewrite lookup_insert_ne.
Qed.

Lemma assign_from_column columns row : ∀ k fields i c,
  NoDup columns → columns !! i = Some c →
  assign_from columns row k fields !! c = Some (row_value row (k + i)).
Proof.
  induction columns as [|c' columns IH]; intros k fields i c Hdup Hi; [done|].
  apply NoDup_cons in Hdup as [Hc' Hdup]. destruct i as [|i]; simpl in *.
  - injection Hi as ->. rewrite assign_from_other by done.
    by rewrite lookup_insert_eq, Nat.add_0_r.
  - rewrite (IH (S k) _ i c) by done. do 2 f_equal. lia.
Qed.

Lemma assign_from_is_Some columns row : ∀ k fields name,
  is_Some (assign_from columns row k fields !! name) →
  name ∈ columns ∨ is_Some (fields !! name).
Proof.
  induction columns as [|c columns IH]; intros k fields name Hname; [by right|].
  simpl in Hname. apply IH in Hname as [Hname|Hname].
  - left. by right.
  - destruct (decide (c = name)) as [->|Hc]; [left; by left|].
    rewrite lookup_insert_ne in Hname by done. by right.
Qed.

Lemma assign_follows_columns columns row :
  NoDup columns → follows_columns columns row (assign columns row).
Proof.
  intros Hdup. split.
  - intros i c Hi. unfold assign. by rewrite (assign_from_column _ _ 0 _ i).
  - intros name Hname. apply assign_from_is_Some in Hname as [?|Hname]; [done|].
    rewrite lookup_empty in Hname. by destruct Hname.
Qed.

Lemma follows_columns_pairs columns row fields :
  length row = length columns →
  follows_columns columns row fields → pairs columns row fields.
Proof.
  intros Hlen [Hfields Hdom]. split; [|done].
  intros i c Hi. rewrite (Hfields i c Hi). unfold row_value.
  destruct (row !! i) eqn:Hrow; [done|].
  apply lookup_ge_None in Hrow. apply lookup_lt_Some in Hi. lia.
Qed.

Lemma Forall2_fmap_follows (P : list val → gmap string val → Prop)
    (f : list val → gmap string val) rows :
  Forall (λ row, P row (f row)) rows → Forall2 P rows (f <$> rows).
Proof. induction 1; constructor; done. Qed.

(** The records a computation returns are determined. *)
Lemma json_object_unique h v props props' :
  json_object h v props → json_object h v props' → props = props'.
Proof. intros (l & -> & Hl) (l' & [= <-] & Hl'). congruence. Qed.

Lemma returns_records_unique m σ records records' :
  returns_records m σ records → returns_records m σ records' →
  records = records'.
Proof.
  intros (a & σ' & refs & Hrun & Ha & Hrefs) (a' & σ'' & refs' & Hrun' & Ha' & Hrefs').
  rewrite Hrun in Hrun'. simplify_eq. clear Hrun Ha.
  revert records' Hrefs'. induction Hrefs as [|ref fields refs records Href _ IH];
    intros records' Hrefs'.
  - by apply Forall2_nil_inv_l in Hrefs'.
  - apply Forall2_cons_inv_l in Hrefs' as (fields' & rest & Href' & Hrest & ->).
    f_equal; [by eapply json_object_unique|by apply IH].
Qed.

Lemma returns_record_unique m σ fields fields' :
  returns_record m σ fields → returns_record m σ fields' → fields = fields'.
Proof.
  intros (v & σ' & Hrun & Hv) (v' & σ'' & Hrun' & Hv').
  rewrite Hrun in Hrun'. simplify_eq.
  by eapply json_object_unique.
Qed.

(** ** Tables of the examples *)

Ltac solve_lookup := vm_compute; reflexivity.

Ltac solve_shape :=
  repeat match goal with
    | |- json_object _ _ _ => eexists; split; [reflexivity|solve_lookup]
    | |- json_array _ _ _ => eexists; split; [reflexivity|solve_lookup]
    | |- Forall2 _ _ _ => constructor
    | |- _ ∧ _ => split
    | |- _ = Some _ => solve_lookup
    end.

Ltac solve_table :=
  eexists _, (VObject 2), _, (VObject 3), (VObject 4), _; solve_shape.

Lemma listing_table_securities :
  table (table_heap "securities" listing_columns listing_rows) (VObject 1)
        "securities" listing_columns listing_rows.
Proof. solve_table. Qed.

Lemma listing_table_sessions :
  table (table_heap "sessions" listing_columns listing_rows) (VObject 1)
        "sessions" listing_columns listing_rows.
Proof. solve_table. Qed.

Lemma quote_table :
  table_first_row (table_heap "marketdata" quote_columns [quote_row]) (VObject 1)
        "marketdata" quote_columns quote_row [].
Proof. solve_table. Qed.

Ltac solve_decidable := apply (bool_decide_unpack _); vm_compute; exact I.

(** ** Decoding a table *)

(** C1, as amended. For columns that are pairwise distinct strings, none
    of them [__proto__], and rows as long as the columns, the decoding
    step of each operation returns records that hold [row[i]], as it is,
    under [columns[i]] for every index [i], and no other field:
    [getSecurities] and [getTradingSessions] one record per row,
    [getMarketData] the record of the first row. *)
Theorem decode_correctness {number_to_string : number → string} σ body columns rows :
  NoDup columns → "__proto__" ∉ columns →
  Forall (λ row, length row = length columns) rows →
  (table (objects σ) body "securities" columns rows →
   ∃ records, returns_records (getSecurities_decode number_to_string body) σ records ∧
              Forall2 (pairs columns) rows records) ∧
  (table (objects σ) body "sessions" columns rows →
   ∃ records, returns_records (getTradingSessions_decode number_to_string body) σ records ∧
              Forall2 (pairs columns) rows records) ∧
  (∀ row later,
     length row = length columns →
     table_first_row (objects σ) body "marketdata" columns row later →
     ∃ fields, returns_record (getMarketData_decode number_to_string body) σ fields ∧
               pairs columns row fields).
Proof.
  intros Hdup Hproto Hlen.
  assert (Forall2 (pairs columns) rows (assign columns <$> rows)) as Hpairs.
  { apply Forall2_fmap_follows. eapply Forall_impl; [exact Hlen|].
    intros row Hrow. apply follows_columns_pairs; [done|].
    by apply assign_follows_columns. }
  split_and!.
  - intros Htable. eexists. split; [|exact Hpairs].
    by apply getSecurities_decode_table.
  - intros Htable. eexists. split; [|exact Hpairs].
    by apply getTradingSessions_decode_table.
  - intros row later Hrow Htable. exists (assign columns row). split.
    + by eapply getMarketData_decode_first_row.
    + apply follows_columns_pairs; [done|]. by apply assign_follows_columns.
Qed.

Lemma decode_correctness_witness :
  (∃ records,
     returns_records (getSecurities_decode integer_to_string (VObject 1))
       (State (table_heap "securities" listing_columns listing_rows) []) records ∧
     Forall2 (pairs listing_columns) listing_rows records) ∧
  (∃ fields,
     returns_record (getMarketData_decode integer_to_string (VObject 1))
       (State (table_heap "marketdata" quote_columns [quote_row]) []) fields ∧
     pairs quote_columns quote_row fields).
Proof.
  split.
  - apply (decode_correctness (number_to_string:=integer_to_string)
             (State (table_heap "securities" listing_columns listing_rows) [])
             (VObject 1) listing_columns listing_rows).
    + solve_decidable.
    + solve_decidable.
    + repeat constructor.
    + exact listing_table_securities.
  - apply (decode_correctness (number_to_string:=integer_to_string)
             (State (table_heap "marketdata" quote_columns [quote_row]) [])
             (VObject 1) quote_columns [quote_row]) with (later := []).
    + solve_decidable.
    + solve_decidable.
    + repeat constructor.
    + reflexivity.
    + exact quote_table.
Defined.

Ltac solve_returns_records :=
  eexists _, _, _; split_and!; [solve_lookup|solve_lookup|solve_shape].

(** C1 as stated fails: a column named [__proto__] leaves no field in
    the record, the assignment going to the setter of
    [Object.prototype]. *)
Lemma decode_correctness_counterexample :
  table (table_heap "securities" ["__proto__"] [[VString "x"]]) (VObject 1)
        "securities" ["__proto__"] [[VString "x"]] ∧
  returns_records (getSecurities_decode integer_to_string (VObject 1))
    (State (table_heap "securities" ["__proto__"] [[VString "x"]]) []) [∅] ∧
  ¬ ∃ records,
      returns_records (getSecurities_decode integer_to_string (VObject 1))
        (State (table_heap "securities" ["__proto__"] [[VString "x"]]) [])
        records ∧
      Forall2 (pairs ["__proto__"]) [[VString "x"]] records.
Proof.
  assert (returns_records ((getSecurities_decode integer_to_string) (VObject 1))
            (State (table_heap "securities" ["__proto__"] [[VString "x"]]) []) [∅])
    as Hrun by solve_returns_records.
  split_and!; [solve_table|exact Hrun|].
  intros (records & Hrecords & Hpairs).
  rewrite (returns_records_unique _ _ _ _ Hrecords Hrun) in Hpairs.
  apply Forall2_cons in Hpairs as [[Hfield _] _].
  specialize (Hfield 0 "__proto__" eq_refl). by rewrite lookup_empty in Hfield.
Qed.


Lemma follows_columns_size columns row fields :
  NoDup columns → follows_columns columns row fields →
  size fields = length columns.
Proof.
  intros Hdup [Hfields Hdom].
  assert (dom fields = list_to_set (C := gset string) columns) as Hset.
  { apply set_eq. intros name. rewrite elem_of_dom, elem_of_list_to_set.
    split; [apply Hdom|].
    intros (i & Hi)%list_elem_of_lookup. by rewrite (Hfields i name Hi). }
  rewrite <- size_dom, Hset. by apply size_list_to_set.
Qed.

(** C4, as amended. For columns that are pairwise distinct strings, none
    of them [__proto__], and rows of any length, a record follows the
    columns, not the shorter of columns and row: it has exactly one field
    per column, [columns[i]] holding [row[i]] where the row has an index
    [i] and [undefined] where the row is too short; the values of a row
    beyond the columns are dropped. *)
Theorem decode_length_mismatch {number_to_string : number → string} σ body columns rows :
  NoDup columns → "__proto__" ∉ columns →
  (table (objects σ) body "securities" columns rows →
   ∃ records, returns_records (getSecurities_decode number_to_string body) σ records ∧
              Forall2 (follows_columns columns) rows records ∧
              Forall (λ fields, size fields = length columns) records) ∧
  (table (objects σ) body "sessions" columns rows →
   ∃ records, returns_records (getTradingSessions_decode number_to_string body) σ records ∧
              Forall2 (follows_columns columns) rows records ∧
              Forall (λ fields, size fields = length columns) records) ∧
  (∀ row later,
     table_first_row (objects σ) body "marketdata" columns row later →
     ∃ fields, returns_record (getMarketData_decode number_to_string body) σ fields ∧
               follows_columns columns row fields ∧
               size fields = length columns).
Proof.
  intros Hdup Hproto.
  assert (Forall2 (follows_columns columns) rows (assign columns <$> rows))
    as Hfollows.
  { apply Forall2_fmap_follows, Forall_forall. intros row _.
    by apply assign_follows_columns. }
  assert (Forall (λ fields, size fields = length columns)
            (assign columns <$> rows)) as Hsize.
  { apply Forall_fmap, Forall_forall. intros row _.
    by eapply follows_columns_size, assign_follows_columns. }
  split_and!.
  - intros Htable. eexists. split_and!; [|exact Hfollows|exact Hsize].
    by apply getSecurities_decode_table.
  - intros Htable. eexists. split_and!; [|exact Hfollows|exact Hsize].
    by apply getTradingSessions_decode_table.
  - intros row later Htable. exists (assign columns row). split_and!.
    + by eapply getMarketData_decode_first_row.
    + by apply assign_follows_columns.
    + by eapply follows_columns_size, assign_follows_columns.
Qed.

Lemma short_row_table :
  table (table_heap "securities" ["A"; "B"] [[VString "x"]]) (VObject 1)
        "securities" ["A"; "B"] [[VString "x"]].
Proof. solve_table. Qed.

Lemma decode_length_mismatch_witness :
  ∃ records,
    returns_records (getSecurities_decode integer_to_string (VObject 1))
      (State (table_heap "securities" ["A"; "B"] [[VString "x"]]) []) records ∧
    Forall2 (follows_columns ["A"; "B"]) [[VString "x"]] records ∧
    Forall (λ fields, size fields = 2) records.
Proof.
  apply (decode_length_mismatch (number_to_string:=integer_to_string)
           (State (table_heap "securities" ["A"; "B"] [[VString "x"]]) [])
           (VObject 1) ["A"; "B"] [[VString "x"]]).
  - solve_decidable.
  - solve_decidable.
  - exact short_row_table.
Defined.

(** C4 as stated fails: against the columns [A, B] the row [["x"]] gives
    a record of two fields, not of [min 2 1], [B] holding [undefined]. *)
Lemma decode_length_mismatch_counterexample :
  table (table_heap "securities" ["A"; "B"] [[VString "x"]]) (VObject 1)
        "securities" ["A"; "B"] [[VString "x"]] ∧
  length [VString "x"] ≠ length ["A"; "B"] ∧
  returns_records (getSecurities_decode integer_to_string (VObject 1))
    (State (table_heap "securities" ["A"; "B"] [[VString "x"]]) [])
    [ <["A" := VString "x"]> {[ "B" := VUndefined ]} ] ∧
  ¬ ∃ records,
      returns_records (getSecurities_decode integer_to_string (VObject 1))
        (State (table_heap "securities" ["A"; "B"] [[VString "x"]]) [])
        records ∧
      Forall2 (zips_to_shorter ["A"; "B"]) [[VString "x"]] records.
Proof.
  assert (returns_records ((getSecurities_decode integer_to_string) (VObject 1))
            (State (table_heap "securities" ["A"; "B"] [[VString "x"]]) [])
            [ <["A" := VString "x"]> {[ "B" := VUndefined ]} ])
    as Hrun by solve_returns_records.
  split_and!; [exact short_row_table|done|exact Hrun|].
  intros (records & Hrecords & Hzips).
  rewrite (returns_records_unique _ _ _ _ Hrecords Hrun) in Hzips.
  apply Forall2_cons in Hzips as [[Hsize _] _].
  vm_compute in Hsize. discriminate.
Qed.



(** ** Missing, empty and falsy structure *)

Lemma alloc_returns_empty σ : returns_empty (alloc (Array [])) σ.
Proof. eexists _, _. split; [done|]. apply lookup_insert_eq. Qed.

Lemma returns_empty_ext (m m' : M val) σ :
  m σ = m' σ → returns_empty m' σ → returns_empty m σ.
Proof. unfold returns_empty. by intros ->. Qed.

(** The read [v.f] that opens the computation, [v] being a plain object:
    what it holds under [f], or [undefined]. *)
Ltac read_default f H :=
  rewrite (bind_Return _ _ _ _ _ (get_field_object _ _ _ f H));
  cbn [field_name].

Lemma getSecurities_decode_falsy_resource {number_to_string : number → string} σ body props :
  json_object (objects σ) body props →
  to_boolean (default VUndefined (props !! "securities")) = false →
  getSecurities_decode number_to_string body σ = alloc (Array []) σ.
Proof.
  intros Hbody Hfalsy. unfold getSecurities_decode.
  read_default f_securities Hbody. by rewrite Hfalsy.
Qed.

Ltac read_resource f Hbody Hkey t :=
  read_default f Hbody; rewrite Hkey;
  change (default VUndefined (Some t)) with t.

Ltac solve_falsy_data f Hbody Hkey t Ht Hfalsy :=
  read_resource f Hbody Hkey t;
  rewrite (json_object_truthy _ _ _ Ht); cbn [negb];
  read_resource f Hbody Hkey t; read_default f_data Ht;
  by rewrite Hfalsy.

Lemma getSecurities_decode_falsy_data {number_to_string : number → string} σ body props t tprops :
  json_object (objects σ) body props → props !! "securities" = Some t →
  json_object (objects σ) t tprops →
  to_boolean (default VUndefined (tprops !! "data")) = false →
  getSecurities_decode number_to_string body σ = alloc (Array []) σ.
Proof.
  intros Hbody Hkey Ht Hfalsy. unfold getSecurities_decode.
  solve_falsy_data f_securities Hbody Hkey t Ht Hfalsy.
Qed.

Lemma Array_map_empty σ d expr callback :
  json_array (objects σ) d [] →
  Array_map d expr callback σ = alloc (Array []) σ.
Proof.
  intros (ld & -> & Hld).
  unfold Array_map.
  assert (array_method (VObject ld) expr "map" σ = Return ld σ) as Hmethod
    by (unfold array_method; by rewrite Hld).
  assert (array_elems ld σ = Return [] σ) as Helems
    by (unfold array_elems; by rewrite Hld).
  rewrite (bind_Return _ _ _ _ _ Hmethod), (bind_Return _ _ _ _ _ Helems).
  done.
Qed.

Ltac solve_empty_data f Hbody Hkey t Ht Hd d Hdata :=
  read_resource f Hbody Hkey t;
  rewrite (json_object_truthy _ _ _ Ht); cbn [negb];
  read_resource f Hbody Hkey t; read_default f_data Ht; rewrite Hd;
  change (default VUndefined (Some d)) with d;
  rewrite (json_array_truthy _ _ _ Hdata); cbn [negb];
  read_resource f Hbody Hkey t; read_default f_columns Ht;
  read_resource f Hbody Hkey t; read_default f_data Ht; rewrite Hd;
  change (default VUndefined (Some d)) with d.

Lemma getSecurities_decode_empty_data {number_to_string : number → string} σ body props t tprops d :
  json_object (objects σ) body props → props !! "securities" = Some t →
  json_object (objects σ) t tprops → tprops !! "data" = Some d →
  json_array (objects σ) d [] →
  getSecurities_decode number_to_string body σ = alloc (Array []) σ.
Proof.
  intros Hbody Hkey Ht Hd Hdata. unfold getSecurities_decode.
  solve_empty_data f_securities Hbody Hkey t Ht Hd d Hdata.
  by apply Array_map_empty.
Qed.

Lemma getTradingSessions_decode_falsy_resource {number_to_string : number → string} σ body props :
  json_object (objects σ) body props →
  to_boolean (default VUndefined (props !! "sessions")) = false →
  getTradingSessions_decode number_to_string body σ = alloc (Array []) σ.
Proof.
  intros Hbody Hfalsy. unfold getTradingSessions_decode.
  read_default f_sessions Hbody. by rewrite Hfalsy.
Qed.

Lemma getTradingSessions_decode_falsy_data {number_to_string : number → string} σ body props t tprops :
  json_object (objects σ) body props → props !! "sessions" = Some t →
  json_object (objects σ) t tprops →
  to_boolean (default VUndefined (tprops !! "data")) = false →
  getTradingSessions_decode number_to_string body σ = alloc (Array []) σ.
Proof.
  intros Hbody Hkey Ht Hfalsy. unfold getTradingSessions_decode.
  solve_falsy_data f_sessions Hbody Hkey t Ht Hfalsy.
Qed.

Lemma getTradingSessions_decode_empty_data {number_to_string : number → string} σ body props t tprops d :
  json_object (objects σ) body props → props !! "sessions" = Some t →
  json_object (objects σ) t tprops → tprops !! "data" = Some d →
  json_array (objects σ) d [] →
  getTradingSessions_decode number_to_string body σ = alloc (Array []) σ.
Proof.
  intros Hbody Hkey Ht Hd Hdata. unfold getTradingSessions_decode.
  solve_empty_data f_sessions Hbody Hkey t Ht Hd d Hdata.
  by apply Array_map_empty.
Qed.

Lemma getMarketData_decode_falsy_resource {number_to_string : number → string} σ body props :
  json_object (objects σ) body props →
  to_boolean (default VUndefined (props !! "marketdata")) = false →
  getMarketData_decode number_to_string body σ = Return VNull σ.
Proof.
  intros Hbody Hfalsy. unfold getMarketData_decode.
  read_default f_marketdata Hbody. by rewrite Hfalsy.
Qed.

Lemma getMarketData_decode_falsy_data {number_to_string : number → string} σ body props t tprops :
  json_object (objects σ) body props → props !! "marketdata" = Some t →
  json_object (objects σ) t tprops →
  to_boolean (default VUndefined (tprops !! "data")) = false →
  getMarketData_decode number_to_string body σ = Return VNull σ.
Proof.
  intros Hbody Hkey Ht Hfalsy. unfold getMarketData_decode.
  solve_falsy_data f_marketdata Hbody Hkey t Ht Hfalsy.
Qed.

Lemma getMarketData_decode_empty_data {number_to_string : number → string} σ body props t tprops d :
  json_object (objects σ) body props → props !! "marketdata" = Some t →
  json_object (objects σ) t tprops → tprops !! "data" = Some d →
  json_array (objects σ) d [] →
  getMarketData_decode number_to_string body σ = Return VNull σ.
Proof.
  intros Hbody Hkey Ht Hd Hdata. unfold getMarketData_decode.
  read_resource f_marketdata Hbody Hkey t.
  rewrite (json_object_truthy _ _ _ Ht); cbn [negb].
  read_resource f_marketdata Hbody Hkey t. read_default f_data Ht. rewrite Hd.
  change (default VUndefined (Some d)) with d.
  rewrite (json_array_truthy _ _ _ Hdata); cbn [negb].
  read_resource f_marketdata Hbody Hkey t. read_default f_data Ht. rewrite Hd.
  change (default VUndefined (Some d)) with d.
  destruct Hdata as (ld & -> & Hld).
  by rewrite (bind_Return _ _ _ _ _ (get_length_array _ _ _ Hld)).
Qed.

Lemma to_boolean_missing (props : gmap string val) name :
  props !! name = None → to_boolean (default VUndefined (props !! name)) = false.
Proof. by intros ->. Qed.

Lemma to_boolean_present_falsy (props : gmap string val) name v :
  props !! name = Some v → falsy v →
  to_boolean (default VUndefined (props !! name)) = false.
Proof. intros -> Hv. by apply to_boolean_falsy. Qed.

Lemma getMarketData_decode_missing_or_empty {number_to_string : number → string} σ body :
  missing_or_empty (objects σ) body "marketdata" →
  getMarketData_decode number_to_string body σ = Return VNull σ.
Proof.
  intros (props & Hbody & [Hnone|[(t & tprops & Hkey & Ht & Hnone)
                                 |(t & tprops & d & Hkey & Ht & Hd & Hdata)]]).
  - eapply getMarketData_decode_falsy_resource; [done|].
    by apply to_boolean_missing.
  - eapply getMarketData_decode_falsy_data; [done..|].
    by apply to_boolean_missing.
  - by eapply getMarketData_decode_empty_data.
Qed.

Lemma getMarketData_decode_present_but_falsy {number_to_string : number → string} σ body :
  present_but_falsy (objects σ) body "marketdata" →
  getMarketData_decode number_to_string body σ = Return VNull σ.
Proof.
  intros (props & Hbody & [(v & Hkey & Hv)|(t & tprops & v & Hkey & Ht & Hd & Hv)]).
  - eapply getMarketData_decode_falsy_resource; [done|].
    by eapply to_boolean_present_falsy.
  - eapply getMarketData_decode_falsy_data; [done..|].
    by eapply to_boolean_present_falsy.
Qed.


Lemma empty_body_missing key : missing_or_empty empty_body_heap (VObject 1) key.
Proof. exists ∅. split; [solve_shape|]. left. apply lookup_empty. Qed.

Lemma empty_quote_table :
  missing_or_empty (table_heap "marketdata" quote_columns []) (VObject 1)
                   "marketdata".
Proof.
  eexists. split; [solve_shape|]. right. right.
  eexists (VObject 2), _, (VObject 4). solve_shape.
Qed.


(** C10. The presence checks are truthiness checks: when the resource
    key is present but holds [null] or another falsy value, or the
    resource is an object whose [data] is present but falsy, the decoding
    step returns what it returns when the key is absent: a fresh empty
    array in [getSecurities] and [getTradingSessions], [null] in
    [getMarketData]. *)
Theorem falsy_is_absent {number_to_string : number → string} σ body :
  (present_but_falsy (objects σ) body "securities" →
   returns_empty (getSecurities_decode number_to_string body) σ) ∧
  (present_but_falsy (objects σ) body "sessions" →
   returns_empty (getTradingSessions_decode number_to_string body) σ) ∧
  (present_but_falsy (objects σ) body "marketdata" →
   getMarketData_decode number_to_string body σ = Return VNull σ).
Proof.
  split_and!; [| |apply getMarketData_decode_present_but_falsy];
    intros (props & Hbody & [(v & Hkey & Hv)|(t & tprops & v & Hkey & Ht & Hd & Hv)]);
    (eapply returns_empty_ext; [|apply alloc_returns_empty]).
  - eapply getSecurities_decode_falsy_resource; [done|].
    by eapply to_boolean_present_falsy.
  - eapply getSecurities_decode_falsy_data; [done..|].
    by eapply to_boolean_present_falsy.
  - eapply getTradingSessions_decode_falsy_resource; [done|].
    by eapply to_boolean_present_falsy.
  - eapply getTradingSessions_decode_falsy_data; [done..|].
    by eapply to_boolean_present_falsy.
Qed.

Lemma null_resource key :
  present_but_falsy (resource_heap key VNull) (VObject 1) key.
Proof.
  exists {[ key := VNull ]}. split.
  - exists 1%positive. split; [done|]. apply lookup_singleton_eq.
  - left. exists VNull. split; [apply lookup_singleton_eq|constructor].
Qed.

Lemma null_data :
  present_but_falsy null_data_heap (VObject 1) "marketdata".
Proof.
  eexists. split; [solve_shape|]. right.
  eexists (VObject 2), _, VNull. split_and!; [solve_shape..|constructor].
Qed.

Lemma falsy_is_absent_witness :
  returns_empty (getSecurities_decode integer_to_string (VObject 1))
    (State (resource_heap "securities" VNull) []) ∧
  returns_empty (getTradingSessions_decode integer_to_string (VObject 1))
    (State (resource_heap "sessions" VNull) []) ∧
  getMarketData_decode integer_to_string (VObject 1) (State null_data_heap [])
  = Return VNull (State null_data_heap []).
Proof.
  split_and!.
  - apply (proj1 (falsy_is_absent (number_to_string:=integer_to_string)
             (State (resource_heap "securities" VNull) []) (VObject 1))).
    apply null_resource.
  - apply (proj1 (proj2 (falsy_is_absent (number_to_string:=integer_to_string)
             (State (resource_heap "sessions" VNull) []) (VObject 1)))).
    apply null_resource.
  - apply (proj2 (proj2 (falsy_is_absent (number_to_string:=integer_to_string) (State null_data_heap []) (VObject 1)))).
    exact null_data.
Defined.

(** ** The quote: [null] or the first row *)

Lemma new_record_not_null (fill : val → M unit) σ σ' :
  (let* record := new_object in
   let* _ := fill record in
   ret record) σ ≠ Return VNull σ'.
Proof.
  unfold bind, new_object, alloc, ret.
  destruct (fill _ _); discriminate.
Qed.

Lemma getMarketData_decode_nonempty {number_to_string : number → string} σ σ' body props t tprops d elems :
  json_object (objects σ) body props → props !! "marketdata" = Some t →
  json_object (objects σ) t tprops → tprops !! "data" = Some d →
  json_array (objects σ) d elems → elems ≠ [] →
  getMarketData_decode number_to_string body σ ≠ Return VNull σ'.
Proof.
  intros Hbody Hkey Ht Hd Hdata Helems. unfold getMarketData_decode.
  read_resource f_marketdata Hbody Hkey t.
  rewrite (json_object_truthy _ _ _ Ht); cbn [negb].
  read_resource f_marketdata Hbody Hkey t. read_default f_data Ht. rewrite Hd.
  change (default VUndefined (Some d)) with d.
  rewrite (json_array_truthy _ _ _ Hdata); cbn [negb].
  read_resource f_marketdata Hbody Hkey t. read_default f_data Ht. rewrite Hd.
  change (default VUndefined (Some d)) with d.
  destruct Hdata as (ld & -> & Hld).
  rewrite (bind_Return _ _ _ _ _ (get_length_array _ _ _ Hld)).
  destruct elems as [|first later]; [done|].
  cbn [length number_of_nat strict_equals_zero].
  read_resource f_marketdata Hbody Hkey t. read_default f_columns Ht.
  read_resource f_marketdata Hbody Hkey t. read_default f_data Ht. rewrite Hd.
  change (default VUndefined (Some (VObject ld))) with (VObject ld).
  rewrite (bind_Return _ _ _ _ _ (get_index_array _ _ _ 0 Hld)).
  apply new_record_not_null.
Qed.

(** C3, as amended. [getMarketData] returns [null] when [marketdata] is
    absent or falsy, or when it is an object whose [data] is absent, falsy
    or the empty array; it does not return [null] when [marketdata] is an
    object whose [data] is a non-empty array; and when the first element
    of [data] is a row and the columns are strings other than
    [__proto__], it returns the one record built from that row against
    the columns, whatever the later elements of [data] are. *)
Theorem quote_null_or_first_row {number_to_string : number → string} σ body props :
  json_object (objects σ) body props →
  (missing_or_empty (objects σ) body "marketdata" ∨
   present_but_falsy (objects σ) body "marketdata" →
   getMarketData_decode number_to_string body σ = Return VNull σ) ∧
  (∀ t tprops d elems,
     props !! "marketdata" = Some t → json_object (objects σ) t tprops →
     tprops !! "data" = Some d → json_array (objects σ) d elems →
     elems ≠ [] →
     ∀ σ', getMarketData_decode number_to_string body σ ≠ Return VNull σ') ∧
  (∀ columns row later,
     table_first_row (objects σ) body "marketdata" columns row later →
     "__proto__" ∉ columns →
     returns_record (getMarketData_decode number_to_string body) σ (assign columns row)).
Proof.
  intros Hbody. split_and!.
  - intros [Hmissing|Hfalsy].
    + by apply getMarketData_decode_missing_or_empty.
    + by apply getMarketData_decode_present_but_falsy.
  - intros t tprops d elems Hkey Ht Hd Hdata Helems σ'.
    by eapply getMarketData_decode_nonempty.
  - intros columns row later Htable Hproto.
    by eapply getMarketData_decode_first_row.
Qed.

Lemma quote_null_or_first_row_witness :
  getMarketData_decode integer_to_string (VObject 1)
    (State (table_heap "marketdata" quote_columns []) [])
  = Return VNull (State (table_heap "marketdata" quote_columns []) []) ∧
  returns_record (getMarketData_decode integer_to_string (VObject 1))
    (State (table_heap "marketdata" quote_columns [quote_row]) [])
    (assign quote_columns quote_row).
Proof.
  split.
  - eapply (proj1 (quote_null_or_first_row (number_to_string:=integer_to_string)
              (State (table_heap "marketdata" quote_columns []) []) (VObject 1) _ _)).
    left. exact empty_quote_table.
  - eapply (proj2 (proj2 (quote_null_or_first_row (number_to_string:=integer_to_string)
              (State (table_heap "marketdata" quote_columns [quote_row]) [])
              (VObject 1) _ _))).
    + exact quote_table.
    + solve_decidable.
  Unshelve.
  all: solve_shape.
Defined.

(** C3 as stated fails: the body
    [{ "marketdata": { "columns": ["LAST"], "data": null } }] has the
    resource key and its [data] field, [data] is not an empty array, and
    [getMarketData] returns [null]. *)
Lemma quote_null_counterexample :
  getMarketData_decode integer_to_string (VObject 1) (State null_data_heap [])
  = Return VNull (State null_data_heap []) ∧
  ¬ missing_or_empty null_data_heap (VObject 1) "marketdata".
Proof.
  split; [solve_lookup|].
  intros (props & (l & [= <-] & Hl) & Hcases).
  vm_compute in Hl. injection Hl as <-.
  destruct Hcases as [Hnone|[(t & tprops & Hkey & (lt & -> & Hlt) & Hnone)
                            |(t & tprops & d & Hkey & (lt & -> & Hlt) & Hd & (ld & -> & Hld))]].
  - vm_compute in Hnone. discriminate.
  - vm_compute in Hkey. injection Hkey as <-.
    vm_compute in Hlt. injection Hlt as <-.
    vm_compute in Hnone. discriminate.
  - vm_compute in Hkey. injection Hkey as <-.
    vm_compute in Hlt. injection Hlt as <-.
    vm_compute in Hd. discriminate.
Qed.

(** ** URLs, statuses and wrapped errors *)

Lemma string_app_assoc (s1 s2 s3 : string) :
  (s1 +:+ s2) +:+ s3 = s1 +:+ s2 +:+ s3.
Proof.
  induction s1 as [|c s1 IH]; [done|].
  change (String c ((s1 +:+ s2) +:+ s3) = String c (s1 +:+ s2 +:+ s3)).
  by rewrite IH.
Qed.

Lemma string_app_nil_r (s : string) : s +:+ "" = s.
Proof.
  induction s as [|c s IH]; [done|].
  change (String c (s +:+ "") = String c s). by rewrite IH.
Qed.

Section operation_properties.
Context (number_to_string : number → string).
Context (undici_fetch : string → heap → settled response).

(** The shape shared by the three operations; [wrap] builds the message
    of the error that is thrown from the message of the one caught. *)
Let operation (url : string) (decode : val → M val) (wrap : string → string)
    : M val :=
  try_catch
    (let* response := fetch undici_fetch url in
     if negb (ok response) then
       throw (Error ("HTTP error! status: " +:+ number_to_string (status response)))
     else
     let* data := await (json response) in
     decode data)
    (fun error =>
       throw (Error (wrap match error with
                          | Error message => message
                          | Thrown _ => "Unknown error"
                          end))).

Lemma operation_one_request url decode wrap σ :
  (∀ h0 data, keeps h0 (decode data) (λ _, True)) →
  requests (final (operation url decode wrap σ)) = (requests σ ++ [url])%list.
Proof.
  intros Hdecode.
  unfold operation, try_catch, bind at 1, fetch, await at 1. simpl.
  destruct (undici_fetch url (objects σ)) as [response h|e h]; [|done].
  destruct (ok response); simpl; [|done].
  unfold bind, await. simpl.
  destruct (json response h) as [data h'|e h']; [|done].
  specialize (Hdecode h' data (State h' (requests σ ++ [url])) (reflexivity _)).
  destruct (decode data _) as [v σ'|e σ'|σ']; apply Hdecode.
Qed.


Lemma operation_http_failure url decode wrap σ response h :
  undici_fetch url (objects σ) = Resolved response h →
  ok response = false →
  fails_with (operation url decode wrap) σ url
    (wrap ("HTTP error! status: " +:+ number_to_string (status response))) h.
Proof.
  intros Hfetch Hok.
  unfold fails_with, operation, try_catch, bind, fetch, await.
  simpl. by rewrite Hfetch, Hok.
Qed.


Lemma getSecurities_operation engine market limit :
  getSecurities number_to_string undici_fetch engine market limit
  = operation (getSecurities_url number_to_string
                 (default Engine.STOCK engine) (default Market.SHARES market)
                 (default number_100 limit))
              (getSecurities_decode number_to_string)
              (λ message, "Failed to fetch securities: " +:+ message).
Proof. reflexivity. Qed.

Lemma getMarketData_operation secid engine market :
  getMarketData number_to_string undici_fetch secid engine market
  = operation (getMarketData_url secid
                 (default Engine.STOCK engine) (default Market.SHARES market))
              (getMarketData_decode number_to_string)
              (λ message, "Failed to fetch market data for " +:+ secid +:+ ": "
                          +:+ message).
Proof. reflexivity. Qed.

Lemma getTradingSessions_operation engine market :
  getTradingSessions number_to_string undici_fetch engine market
  = operation (getTradingSessions_url
                 (default Engine.STOCK engine) (default Market.SHARES market))
              (getTradingSessions_decode number_to_string)
              (λ message, "Failed to fetch trading sessions: " +:+ message).
Proof. reflexivity. Qed.

(** C6. The URL [getSecurities] requests is a function of [engine],
    [market] and [limit] alone: whatever the state and the transport,
    the one request of the call goes to [getSecurities_url], and that
    URL contains [/engines/{engine}/markets/{market}/securities.json],
    [limit={limit}], [start=0] and the 27 whitelisted column names,
    comma-joined in the documented order. *)
Theorem getSecurities_url_deterministic engine market limit σ :
  requests (final (getSecurities number_to_string undici_fetch
                     (Some engine) (Some market) (Some limit) σ))
  = (requests σ ++ [getSecurities_url number_to_string engine market limit])%list ∧
  contains (getSecurities_url number_to_string engine market limit)
    ("/engines/" +:+ engine +:+ "/markets/" +:+ market +:+ "/securities.json") ∧
  contains (getSecurities_url number_to_string engine market limit)
    ("limit=" +:+ number_to_string limit) ∧
  contains (getSecurities_url number_to_string engine market limit) "start=0" ∧
  contains (getSecurities_url number_to_string engine market limit)
    (String.concat "," column_whitelist) ∧
  length column_whitelist = 27.
Proof.
  split_and!.
  - rewrite getSecurities_operation. apply operation_one_request.
    apply keeps_getSecurities_decode.
  - exists MOEX_API_BASE_URL,
      ("?iss.meta=off&iss.only=securities&securities.columns=SECID,BOARDID,SHORTNAME,PREVPRICE,LOTSIZE,FACEVALUE,STATUS,BOARDNAME,DECIMALS,SECNAME,REMARKS,MARKETCODE,INSTRID,SECTORID,MINSTEP,PREVWAPRICE,FACEUNIT,PREVDATE,ISSUESIZE,ISIN,LATNAME,REGNUMBER,PREVLEGALCLOSEPRICE,CURRENCYID,SECTYPE,LISTLEVEL,SETTLEDATE&start=0&limit="
       +:+ number_to_string limit).
    unfold getSecurities_url. rewrite !string_app_assoc. reflexivity.
  - exists (MOEX_API_BASE_URL +:+ "/engines/" +:+ engine +:+ "/markets/" +:+ market
            +:+ "/securities.json?iss.meta=off&iss.only=securities&securities.columns=SECID,BOARDID,SHORTNAME,PREVPRICE,LOTSIZE,FACEVALUE,STATUS,BOARDNAME,DECIMALS,SECNAME,REMARKS,MARKETCODE,INSTRID,SECTORID,MINSTEP,PREVWAPRICE,FACEUNIT,PREVDATE,ISSUESIZE,ISIN,LATNAME,REGNUMBER,PREVLEGALCLOSEPRICE,CURRENCYID,SECTYPE,LISTLEVEL,SETTLEDATE&start=0&"),
      "".
    unfold getSecurities_url.
    rewrite !string_app_assoc, string_app_nil_r. reflexivity.
  - exists (MOEX_API_BASE_URL +:+ "/engines/" +:+ engine +:+ "/markets/" +:+ market
            +:+ "/securities.json?iss.meta=off&iss.only=securities&securities.columns=SECID,BOARDID,SHORTNAME,PREVPRICE,LOTSIZE,FACEVALUE,STATUS,BOARDNAME,DECIMALS,SECNAME,REMARKS,MARKETCODE,INSTRID,SECTORID,MINSTEP,PREVWAPRICE,FACEUNIT,PREVDATE,ISSUESIZE,ISIN,LATNAME,REGNUMBER,PREVLEGALCLOSEPRICE,CURRENCYID,SECTYPE,LISTLEVEL,SETTLEDATE&"),
      ("&limit=" +:+ number_to_string limit).
    unfold getSecurities_url. rewrite !string_app_assoc. reflexivity.
  - exists (MOEX_API_BASE_URL +:+ "/engines/" +:+ engine +:+ "/markets/" +:+ market
            +:+ "/securities.json?iss.meta=off&iss.only=securities&securities.columns="),
      ("&start=0&limit=" +:+ number_to_string limit).
    unfold getSecurities_url. rewrite !string_app_assoc. reflexivity.
  - reflexivity.
Qed.


Lemma contains_suffix (prefix s : string) : contains (prefix +:+ s) s.
Proof. exists prefix, "". by rewrite string_app_nil_r. Qed.

(** C7. When the response is not OK, its status being [S], each of the
    three operations fails with an error whose message includes [S] as
    the engine prints it, and the transport has been called exactly
    once: there is no retry. *)
Theorem http_error_status σ response h :
  ok response = false →
  (∀ engine market limit,
     undici_fetch
       (getSecurities_url number_to_string (default Engine.STOCK engine)
          (default Market.SHARES market) (default number_100 limit))
       (objects σ) = Resolved response h →
     ∃ message,
       message = "Failed to fetch securities: HTTP error! status: "
                 +:+ number_to_string (status response) ∧
       fails_with (getSecurities number_to_string undici_fetch engine market limit) σ
         (getSecurities_url number_to_string (default Engine.STOCK engine)
            (default Market.SHARES market) (default number_100 limit))
         message h ∧
       contains message (number_to_string (status response))) ∧
  (∀ secid engine market,
     undici_fetch
       (getMarketData_url secid (default Engine.STOCK engine)
          (default Market.SHARES market))
       (objects σ) = Resolved response h →
     ∃ message,
       message = "Failed to fetch market data for " +:+ secid
                 +:+ ": HTTP error! status: "
                 +:+ number_to_string (status response) ∧
       fails_with (getMarketData number_to_string undici_fetch secid engine market) σ
         (getMarketData_url secid (default Engine.STOCK engine)
            (default Market.SHARES market))
         message h ∧
       contains message (number_to_string (status response))) ∧
  (∀ engine market,
     undici_fetch
       (getTradingSessions_url (default Engine.STOCK engine)
          (default Market.SHARES market))
       (objects σ) = Resolved response h →
     ∃ message,
       message = "Failed to fetch trading sessions: HTTP error! status: "
                 +:+ number_to_string (status response) ∧
       fails_with (getTradingSessions number_to_string undici_fetch engine market) σ
         (getTradingSessions_url (default Engine.STOCK engine)
            (default Market.SHARES market))
         message h ∧
       contains message (number_to_string (status response))).
Proof.
  intros Hok. split_and!.
  - intros engine market limit Hfetch. eexists. split_and!; [done| |].
    + rewrite getSecurities_operation.
      exact (operation_http_failure _ _
               (λ m, "Failed to fetch securities: " +:+ m) σ response h Hfetch Hok).
    + apply contains_suffix.
  - intros secid engine market Hfetch. eexists. split_and!; [done| |].
    + rewrite getMarketData_operation.
      exact (operation_http_failure _ _
               (λ m, "Failed to fetch market data for " +:+ secid +:+ ": " +:+ m)
               σ response h Hfetch Hok).
    + exists ("Failed to fetch market data for " +:+ secid
              +:+ ": HTTP error! status: "), "".
      by rewrite string_app_nil_r, !string_app_assoc.
  - intros engine market Hfetch. eexists. split_and!; [done| |].
    + rewrite getTradingSessions_operation.
      exact (operation_http_failure _ _
               (λ m, "Failed to fetch trading sessions: " +:+ m)
               σ response h Hfetch Hok).
    + apply contains_suffix.
Qed.


End operation_properties.

(** The URL of the test of the repository, for [limit] 10. *)
Example getSecurities_url_example :
  getSecurities_url integer_to_string Engine.STOCK Market.SHARES n_10
  = "https://iss.moex.com/iss/engines/stock/markets/shares/securities.json?iss.meta=off&iss.only=securities&securities.columns=SECID,BOARDID,SHORTNAME,PREVPRICE,LOTSIZE,FACEVALUE,STATUS,BOARDNAME,DECIMALS,SECNAME,REMARKS,MARKETCODE,INSTRID,SECTORID,MINSTEP,PREVWAPRICE,FACEUNIT,PREVDATE,ISSUESIZE,ISIN,LATNAME,REGNUMBER,PREVLEGALCLOSEPRICE,CURRENCYID,SECTYPE,LISTLEVEL,SETTLEDATE&start=0&limit=10".
Proof. reflexivity. Qed.

Lemma http_error_status_witness :
  fails_with (getSecurities integer_to_string (fetch_status n_404) None None None)
    (State ∅ [])
    (getSecurities_url integer_to_string Engine.STOCK Market.SHARES number_100)
    "Failed to fetch securities: HTTP error! status: 404" ∅ ∧
  fails_with (getMarketData integer_to_string (fetch_status n_500) "SBER" None None)
    (State ∅ [])
    (getMarketData_url "SBER" Engine.STOCK Market.SHARES)
    "Failed to fetch market data for SBER: HTTP error! status: 500" ∅.
Proof.
  split.
  - destruct (proj1 (http_error_status integer_to_string (fetch_status n_404)
                       (State ∅ []) (status_response n_404) ∅ eq_refl)
                None None None eq_refl)
      as (message & -> & Hfails & _).
    exact Hfails.
  - destruct (proj1 (proj2 (http_error_status integer_to_string (fetch_status n_500)
                       (State ∅ []) (status_response n_500) ∅ eq_refl))
                "SBER" None None eq_refl)
      as (message & -> & Hfails & _).
    exact Hfails.
Defined.


(** ** Scenarios *)

(** The listing of two rows, through the whole operation: two records, in
    the order of the rows. *)
Example getSecurities_scenario :
  returns_records
    (getSecurities integer_to_string
       (fetch_body (VObject 1) (table_heap "securities" listing_columns listing_rows))
       None None None)
    (State ∅ [])
    [ list_to_map [ ("SECID", VString "SBER"); ("BOARDID", VString "TQBR");
                    ("SHORTNAME", VString "Sberbank"); ("PREVPRICE", VNumber n_250_5) ];
      list_to_map [ ("SECID", VString "GAZP"); ("BOARDID", VString "TQBR");
                    ("SHORTNAME", VString "Gazprom"); ("PREVPRICE", VNumber n_180_2) ] ].
Proof. solve_returns_records. Qed.

(** The quote, through the whole operation: one record. *)
Example getMarketData_scenario :
  returns_record
    (getMarketData integer_to_string
       (fetch_body (VObject 1) (table_heap "marketdata" quote_columns [quote_row]))
       "SBER" None None)
    (State ∅ [])
    (list_to_map [ ("SECID", VString "SBER"); ("BOARDID", VString "TQBR");
                   ("LAST", VNumber n_250_5); ("BID", VNumber n_250);
                   ("OFFER", VNumber n_251) ]).
Proof. eexists _, _. split; [solve_lookup|solve_shape]. Qed.

(** A column that occurs twice holds the value of its last occurrence. *)
Example duplicate_column_last_wins :
  returns_records (getSecurities_decode integer_to_string (VObject 1))
    (State (table_heap "securities" ["A"; "A"] [[VString "x"; VString "y"]]) [])
    [ {[ "A" := VString "y" ]} ].
Proof. solve_returns_records. Qed.

(** Columns that are not strings are converted to property keys: a
    number by [Number::toString], [null] to its name, an array by
    [join], a plain object to [[object Object]]. *)
Example non_string_columns :
  returns_records (getSecurities_decode integer_to_string (VObject 1))
    (State mixed_columns_heap [])
    [ list_to_map [ ("1", VString "a"); ("null", VString "b");
                    ("A", VString "c"); ("2,3", VString "d");
                    ("[object Object]", VString "e") ] ].
Proof. solve_returns_records. Qed.

(** A table without columns and with a row: the [TypeError] of
    [columns.forEach] is caught and wrapped like any other failure. *)
Example getSecurities_without_columns :
  ∃ h,
    fails_with
      (getSecurities integer_to_string (fetch_body (VObject 1) no_columns_heap)
         None None None)
      (State ∅ [])
      (getSecurities_url integer_to_string Engine.STOCK Market.SHARES number_100)
      "Failed to fetch securities: Cannot read properties of undefined (reading 'forEach')"
      h.
Proof. eexists. unfold fails_with. solve_lookup. Qed.

(** * Further properties of the operations *)

(** ** A response that is OK and parses *)

Section operation_results.
Context (number_to_string : number → string).
Context (undici_fetch : string → heap → settled response).

Let operation (url : string) (decode : val → M val) (wrap : string → string)
    : M val :=
  try_catch
    (let* response := fetch undici_fetch url in
     if negb (ok response) then
       throw (Error ("HTTP error! status: " +:+ number_to_string (status response)))
     else
     let* data := await (json response) in
     decode data)
    (fun error =>
       throw (Error (wrap match error with
                          | Error message => message
                          | Thrown _ => "Unknown error"
                          end))).

(** The state in which the decoding step starts: the heap the parse
    left, and the one request logged. *)
Lemma operation_decodes url decode wrap σ response h data h' :
  undici_fetch url (objects σ) = Resolved response h →
  ok response = true →
  json response h = Resolved data h' →
  operation url decode wrap σ
  = try_catch (decode data)
      (fun error =>
         throw (Error (wrap match error with
                            | Error message => message
                            | Thrown _ => "Unknown error"
                            end)))
      (State h' (requests σ ++ [url])).
Proof.
  intros Hfetch Hok Hjson.
  unfold operation, try_catch, bind, fetch, await.
  simpl. rewrite Hfetch, Hok. simpl. by rewrite Hjson.
Qed.

Lemma operation_returns url decode wrap σ response h data h' v σ' :
  undici_fetch url (objects σ) = Resolved response h →
  ok response = true →
  json response h = Resolved data h' →
  decode data (State h' (requests σ ++ [url])) = Return v σ' →
  operation url decode wrap σ = Return v σ'.
Proof.
  intros Hfetch Hok Hjson Hdecode.
  rewrite (operation_decodes _ _ _ _ _ _ _ _ Hfetch Hok Hjson).
  unfold try_catch. by rewrite Hdecode.
Qed.

Lemma operation_decode_throws url decode wrap σ response h data h' cause σ' :
  undici_fetch url (objects σ) = Resolved response h →
  ok response = true →
  json response h = Resolved data h' →
  decode data (State h' (requests σ ++ [url])) = Throw (Error cause) σ' →
  operation url decode wrap σ = Throw (Error (wrap cause)) σ'.
Proof.
  intros Hfetch Hok Hjson Hdecode.
  rewrite (operation_decodes _ _ _ _ _ _ _ _ Hfetch Hok Hjson).
  unfold try_catch. by rewrite Hdecode.
Qed.

End operation_results.

Lemma keeps_Return {A} (m : M A) σ a σ' :
  keeps (objects σ) m (λ _, True) → m σ = Return a σ' →
  objects σ ⊆ objects σ' ∧ requests σ' = requests σ.
Proof.
  intros Hm Hrun. specialize (Hm σ (reflexivity _)). rewrite Hrun in Hm.
  apply Hm.
Qed.

Section end_to_end.
Context (number_to_string : number → string).
Context (undici_fetch : string → heap → settled response).

(** X1. When the response is OK and its body parses to a table whose
    columns are strings other than [__proto__], [getSecurities] and
    [getTradingSessions] return a new array holding, in the order of the
    rows, one record per row, built from that row by the assignments of
    the columns; exactly one request has been sent and the parsed body
    is as the parse left it. *)
Theorem listing_end_to_end σ response h data h' columns rows :
  ok response = true →
  json response h = Resolved data h' →
  "__proto__" ∉ columns →
  (∀ engine market limit,
     undici_fetch
       (getSecurities_url number_to_string (default Engine.STOCK engine)
          (default Market.SHARES market) (default number_100 limit))
       (objects σ) = Resolved response h →
     table h' data "securities" columns rows →
     ∃ a σ' refs,
       getSecurities number_to_string undici_fetch engine market limit σ
       = Return (VObject a) σ' ∧
       objects σ' !! a = Some (Array refs) ∧
       Forall2 (json_object (objects σ')) refs (assign columns <$> rows) ∧
       h' ⊆ objects σ' ∧
       requests σ'
       = (requests σ ++
          [getSecurities_url number_to_string (default Engine.STOCK engine)
             (default Market.SHARES market) (default number_100 limit)])%list) ∧
  (∀ engine market,
     undici_fetch
       (getTradingSessions_url (default Engine.STOCK engine)
          (default Market.SHARES market))
       (objects σ) = Resolved response h →
     table h' data "sessions" columns rows →
     ∃ a σ' refs,
       getTradingSessions number_to_string undici_fetch engine market σ
       = Return (VObject a) σ' ∧
       objects σ' !! a = Some (Array refs) ∧
       Forall2 (json_object (objects σ')) refs (assign columns <$> rows) ∧
       h' ⊆ objects σ' ∧
       requests σ'
       = (requests σ ++
          [getTradingSessions_url (default Engine.STOCK engine)
             (default Market.SHARES market)])%list).
Proof.
  intros Hok Hjson Hproto. split.
  - intros engine market limit Hfetch Htable.
    set (url := getSecurities_url _ _ _ _) in *.
    destruct (getSecurities_decode_table (number_to_string:=number_to_string) (State h' (requests σ ++ [url]))
                data columns rows Htable Hproto)
      as (a & σ' & refs & Hrun & Ha & Hrefs).
    destruct (keeps_Return _ _ _ _
                (keeps_getSecurities_decode _ data) Hrun) as [Hsub Hreq].
    exists a, σ', refs. split_and!; [|done..].
    exact (operation_returns number_to_string undici_fetch url
             (getSecurities_decode number_to_string) _ σ response h data h' _ σ'
             Hfetch Hok Hjson Hrun).
  - intros engine market Hfetch Htable.
    set (url := getTradingSessions_url _ _) in *.
    destruct (getTradingSessions_decode_table (number_to_string:=number_to_string) (State h' (requests σ ++ [url]))
                data columns rows Htable Hproto)
      as (a & σ' & refs & Hrun & Ha & Hrefs).
    destruct (keeps_Return _ _ _ _
                (keeps_getTradingSessions_decode _ data) Hrun) as [Hsub Hreq].
    exists a, σ', refs. split_and!; [|done..].
    exact (operation_returns number_to_string undici_fetch url
             (getTradingSessions_decode number_to_string) _ σ response h data h' _ σ'
             Hfetch Hok Hjson Hrun).
Qed.

End end_to_end.

Lemma listing_end_to_end_witness :
  (∃ a σ' refs,
     getSecurities integer_to_string
       (fetch_body (VObject 1) (table_heap "securities" listing_columns listing_rows))
       None None None (State ∅ [])
     = Return (VObject a) σ' ∧
     objects σ' !! a = Some (Array refs) ∧
     Forall2 (json_object (objects σ')) refs (assign listing_columns <$> listing_rows) ∧
     table_heap "securities" listing_columns listing_rows ⊆ objects σ' ∧
     requests σ'
     = [getSecurities_url integer_to_string Engine.STOCK Market.SHARES number_100]) ∧
  (∃ a σ' refs,
     getTradingSessions integer_to_string
       (fetch_body (VObject 1) (table_heap "sessions" listing_columns listing_rows))
       None None (State ∅ [])
     = Return (VObject a) σ' ∧
     objects σ' !! a = Some (Array refs) ∧
     Forall2 (json_object (objects σ')) refs (assign listing_columns <$> listing_rows) ∧
     table_heap "sessions" listing_columns listing_rows ⊆ objects σ' ∧
     requests σ' = [getTradingSessions_url Engine.STOCK Market.SHARES]).
Proof.
  split.
  - apply (proj1 (listing_end_to_end integer_to_string
                    (fetch_body (VObject 1)
                       (table_heap "securities" listing_columns listing_rows))
                    (State ∅ [])
                    (body_response (VObject 1)
                       (table_heap "securities" listing_columns listing_rows))
                    ∅ (VObject 1)
                    (table_heap "securities" listing_columns listing_rows)
                    listing_columns listing_rows
                    eq_refl eq_refl ltac:(solve_decidable))
             None None None eq_refl listing_table_securities).
  - apply (proj2 (listing_end_to_end integer_to_string
                    (fetch_body (VObject 1)
                       (table_heap "sessions" listing_columns listing_rows))
                    (State ∅ [])
                    (body_response (VObject 1)
                       (table_heap "sessions" listing_columns listing_rows))
                    ∅ (VObject 1)
                    (table_heap "sessions" listing_columns listing_rows)
                    listing_columns listing_rows
                    eq_refl eq_refl ltac:(solve_decidable))
             None None eq_refl listing_table_sessions).
Defined.

(** ** Nothing to decode *)

Lemma getSecurities_decode_nothing {number_to_string : number → string} σ body :
  missing_or_empty (objects σ) body "securities" ∨
  present_but_falsy (objects σ) body "securities" →
  getSecurities_decode number_to_string body σ = alloc (Array []) σ.
Proof.
  intros [(props & Hbody & [Hnone|[(t & tprops & Hkey & Ht & Hnone)
                                  |(t & tprops & d & Hkey & Ht & Hd & Hdata)]])
         |(props & Hbody & [(v & Hkey & Hv)|(t & tprops & v & Hkey & Ht & Hd & Hv)])].
  - eapply getSecurities_decode_falsy_resource; [done|].
    by apply to_boolean_missing.
  - eapply getSecurities_decode_falsy_data; [done..|].
    by apply to_boolean_missing.
  - by eapply getSecurities_decode_empty_data.
  - eapply getSecurities_decode_falsy_resource; [done|].
    by eapply to_boolean_present_falsy.
  - eapply getSecurities_decode_falsy_data; [done..|].
    by eapply to_boolean_present_falsy.
Qed.

Lemma getTradingSessions_decode_nothing {number_to_string : number → string} σ body :
  missing_or_empty (objects σ) body "sessions" ∨
  present_but_falsy (objects σ) body "sessions" →
  getTradingSessions_decode number_to_string body σ = alloc (Array []) σ.
Proof.
  intros [(props & Hbody & [Hnone|[(t & tprops & Hkey & Ht & Hnone)
                                  |(t & tprops & d & Hkey & Ht & Hd & Hdata)]])
         |(props & Hbody & [(v & Hkey & Hv)|(t & tprops & v & Hkey & Ht & Hd & Hv)])].
  - eapply getTradingSessions_decode_falsy_resource; [done|].
    by apply to_boolean_missing.
  - eapply getTradingSessions_decode_falsy_data; [done..|].
    by apply to_boolean_missing.
  - by eapply getTradingSessions_decode_empty_data.
  - eapply getTradingSessions_decode_falsy_resource; [done|].
    by eapply to_boolean_present_falsy.
  - eapply getTradingSessions_decode_falsy_data; [done..|].
    by eapply to_boolean_present_falsy.
Qed.

Lemma getMarketData_decode_nothing {number_to_string : number → string} σ body :
  missing_or_empty (objects σ) body "marketdata" ∨
  present_but_falsy (objects σ) body "marketdata" →
  getMarketData_decode number_to_string body σ = Return VNull σ.
Proof.
  intros [Hmissing|Hfalsy].
  - by apply getMarketData_decode_missing_or_empty.
  - by apply getMarketData_decode_present_but_falsy.
Qed.

Section end_to_end_quote.
Context (number_to_string : number → string).
Context (undici_fetch : string → heap → settled response).

(** X2. When the response is OK and the first element of [data] under
    [marketdata] is a row, the columns being strings other than
    [__proto__], [getMarketData] returns one new record built from that
    row alone, after exactly one request and without touching the parsed
    body, whatever follows the first row in [data]. *)
Theorem quote_end_to_end secid engine market σ response h data h' columns row later :
  undici_fetch
    (getMarketData_url secid (default Engine.STOCK engine)
       (default Market.SHARES market))
    (objects σ) = Resolved response h →
  ok response = true →
  json response h = Resolved data h' →
  table_first_row h' data "marketdata" columns row later →
  "__proto__" ∉ columns →
  ∃ v σ',
    getMarketData number_to_string undici_fetch secid engine market σ
    = Return v σ' ∧
    json_object (objects σ') v (assign columns row) ∧
    h' ⊆ objects σ' ∧
    requests σ'
    = (requests σ ++
       [getMarketData_url secid (default Engine.STOCK engine)
          (default Market.SHARES market)])%list.
Proof.
  intros Hfetch Hok Hjson Htable Hproto.
  set (url := getMarketData_url _ _ _) in *.
  destruct (getMarketData_decode_first_row (number_to_string:=number_to_string) (State h' (requests σ ++ [url]))
              data columns row later Htable Hproto)
    as (v & σ' & Hrun & Hv).
  destruct (keeps_Return _ _ _ _
              (keeps_getMarketData_decode _ data) Hrun) as [Hsub Hreq].
  exists v, σ'. split_and!; [|done..].
  exact (operation_returns number_to_string undici_fetch url
           (getMarketData_decode number_to_string)
           (λ m, "Failed to fetch market data for " +:+ secid +:+ ": " +:+ m)
           σ response h data h' _ σ' Hfetch Hok Hjson Hrun).
Qed.

(** X3. When the response is OK and the parsed body is an object in
    which the resource key is absent or falsy, or the resource is an
    object whose [data] is absent, falsy or (when present) the empty
    array, the operation does not fail: [getSecurities] and
    [getTradingSessions] return a new empty array, [getMarketData]
    returns [null]; the heap is the one the parse left, plus that
    array. *)
Theorem nothing_end_to_end σ response h data h' :
  ok response = true →
  json response h = Resolved data h' →
  (∀ engine market limit,
     undici_fetch
       (getSecurities_url number_to_string (default Engine.STOCK engine)
          (default Market.SHARES market) (default number_100 limit))
       (objects σ) = Resolved response h →
     missing_or_empty h' data "securities" ∨
     present_but_falsy h' data "securities" →
     getSecurities number_to_string undici_fetch engine market limit σ
     = Return (VObject (fresh (dom h')))
         (State (<[fresh (dom h') := Array []]> h')
            (requests σ ++
             [getSecurities_url number_to_string (default Engine.STOCK engine)
                (default Market.SHARES market) (default number_100 limit)]))) ∧
  (∀ engine market,
     undici_fetch
       (getTradingSessions_url (default Engine.STOCK engine)
          (default Market.SHARES market))
       (objects σ) = Resolved response h →
     missing_or_empty h' data "sessions" ∨
     present_but_falsy h' data "sessions" →
     getTradingSessions number_to_string undici_fetch engine market σ
     = Return (VObject (fresh (dom h')))
         (State (<[fresh (dom h') := Array []]> h')
            (requests σ ++
             [getTradingSessions_url (default Engine.STOCK engine)
                (default Market.SHARES market)]))) ∧
  (∀ secid engine market,
     undici_fetch
       (getMarketData_url secid (default Engine.STOCK engine)
          (default Market.SHARES market))
       (objects σ) = Resolved response h →
     missing_or_empty h' data "marketdata" ∨
     present_but_falsy h' data "marketdata" →
     getMarketData number_to_string undici_fetch secid engine market σ
     = Return VNull
         (State h'
            (requests σ ++
             [getMarketData_url secid (default Engine.STOCK engine)
                (default Market.SHARES market)]))).
Proof.
  intros Hok Hjson. split_and!.
  - intros engine market limit Hfetch Hnothing.
    eapply (operation_returns number_to_string undici_fetch _
              (getSecurities_decode number_to_string) (λ m, "Failed to fetch securities: " +:+ m));
      [done..|].
    by rewrite getSecurities_decode_nothing.
  - intros engine market Hfetch Hnothing.
    eapply (operation_returns number_to_string undici_fetch _
              (getTradingSessions_decode number_to_string)
              (λ m, "Failed to fetch trading sessions: " +:+ m));
      [done..|].
    by rewrite getTradingSessions_decode_nothing.
  - intros secid engine market Hfetch Hnothing.
    eapply (operation_returns number_to_string undici_fetch _
              (getMarketData_decode number_to_string)
              (λ m, "Failed to fetch market data for " +:+ secid +:+ ": " +:+ m));
      [done..|].
    by rewrite getMarketData_decode_nothing.
Qed.

End end_to_end_quote.

Lemma quote_end_to_end_witness :
  ∃ v σ',
    getMarketData integer_to_string
      (fetch_body (VObject 1) (table_heap "marketdata" quote_columns [quote_row]))
      "SBER" None None (State ∅ [])
    = Return v σ' ∧
    json_object (objects σ') v (assign quote_columns quote_row) ∧
    table_heap "marketdata" quote_columns [quote_row] ⊆ objects σ' ∧
    requests σ' = [getMarketData_url "SBER" Engine.STOCK Market.SHARES].
Proof.
  apply (quote_end_to_end integer_to_string
           (fetch_body (VObject 1) (table_heap "marketdata" quote_columns [quote_row]))
           "SBER" None None (State ∅ [])
           (body_response (VObject 1)
              (table_heap "marketdata" quote_columns [quote_row]))
           ∅ (VObject 1) (table_heap "marketdata" quote_columns [quote_row])
           quote_columns quote_row []
           eq_refl eq_refl eq_refl quote_table ltac:(solve_decidable)).
Defined.

Lemma nothing_end_to_end_witness :
  getSecurities integer_to_string (fetch_body (VObject 1) empty_body_heap)
    None None None (State ∅ [])
  = Return (VObject (fresh (dom empty_body_heap)))
      (State (<[fresh (dom empty_body_heap) := Array []]> empty_body_heap)
         [getSecurities_url integer_to_string Engine.STOCK Market.SHARES number_100]) ∧
  getMarketData integer_to_string (fetch_body (VObject 1) null_data_heap)
    "SBER" None None (State ∅ [])
  = Return VNull
      (State null_data_heap [getMarketData_url "SBER" Engine.STOCK Market.SHARES]).
Proof.
  split.
  - apply (proj1 (nothing_end_to_end integer_to_string
                    (fetch_body (VObject 1) empty_body_heap) (State ∅ [])
                    (body_response (VObject 1) empty_body_heap) ∅ (VObject 1)
                    empty_body_heap eq_refl eq_refl)
             None None None eq_refl).
    left. apply empty_body_missing.
  - apply (proj2 (proj2 (nothing_end_to_end integer_to_string
                    (fetch_body (VObject 1) null_data_heap) (State ∅ [])
                    (body_response (VObject 1) null_data_heap) ∅ (VObject 1)
                    null_data_heap eq_refl eq_refl))
             "SBER" None None eq_refl).
    right. exact null_data.
Defined.

(** ** Causes that are not errors, bodies that are not objects *)

Lemma keeps_Throw {A} (m : M A) σ e σ' :
  keeps (objects σ) m (λ _, True) → m σ = Throw e σ' →
  objects σ ⊆ objects σ' ∧ requests σ' = requests σ.
Proof.
  intros Hm Hrun. specialize (Hm σ (reflexivity _)). rewrite Hrun in Hm.
  apply Hm.
Qed.

Section operation_failures.
Context (number_to_string : number → string).
Context (undici_fetch : string → heap → settled response).

Let operation (url : string) (decode : val → M val) (wrap : string → string)
    : M val :=
  try_catch
    (let* response := fetch undici_fetch url in
     if negb (ok response) then
       throw (Error ("HTTP error! status: " +:+ number_to_string (status response)))
     else
     let* data := await (json response) in
     decode data)
    (fun error =>
       throw (Error (wrap match error with
                          | Error message => message
                          | Thrown _ => "Unknown error"
                          end))).

Lemma operation_hides_unknown_cause url decode wrap σ :
  hides_unknown_cause undici_fetch (operation url decode wrap) σ url wrap.
Proof.
  split.
  - intros v h Hfetch.
    unfold fails_with, operation, try_catch, bind, fetch, await.
    simpl. by rewrite Hfetch.
  - intros response h v h' Hfetch Hok Hjson.
    unfold fails_with, operation, try_catch, bind, fetch, await.
    simpl. rewrite Hfetch, Hok. simpl. by rewrite Hjson.
Qed.

(** X4. When what the transport or the parse of an OK response throws is
    not an instance of [Error], each operation still fails with exactly
    one [Error], after one request, and its message is the operation's
    prefix followed by [Unknown error]: the thrown value itself is not
    reported. *)
Theorem unknown_error_cause σ :
  (∀ engine market limit,
     hides_unknown_cause undici_fetch
       (getSecurities number_to_string undici_fetch engine market limit) σ
       (getSecurities_url number_to_string (default Engine.STOCK engine)
          (default Market.SHARES market) (default number_100 limit))
       (λ cause, "Failed to fetch securities: " +:+ cause)) ∧
  (∀ secid engine market,
     hides_unknown_cause undici_fetch
       (getMarketData number_to_string undici_fetch secid engine market) σ
       (getMarketData_url secid (default Engine.STOCK engine)
          (default Market.SHARES market))
       (λ cause, "Failed to fetch market data for " +:+ secid +:+ ": " +:+ cause)) ∧
  (∀ engine market,
     hides_unknown_cause undici_fetch
       (getTradingSessions number_to_string undici_fetch engine market) σ
       (getTradingSessions_url (default Engine.STOCK engine)
          (default Market.SHARES market))
       (λ cause, "Failed to fetch trading sessions: " +:+ cause)).
Proof.
  split_and!; intros.
  - exact (operation_hides_unknown_cause _ (getSecurities_decode number_to_string)
             (λ cause, "Failed to fetch securities: " +:+ cause) σ).
  - exact (operation_hides_unknown_cause _ (getMarketData_decode number_to_string)
             (λ cause, "Failed to fetch market data for " +:+ secid +:+ ": " +:+ cause)
             σ).
  - exact (operation_hides_unknown_cause _ (getTradingSessions_decode number_to_string)
             (λ cause, "Failed to fetch trading sessions: " +:+ cause) σ).
Qed.

(** When the decoding step throws an error, the operation fails with the
    wrapped error, after its one request. *)
Lemma operation_decode_fails url decode wrap σ response h data h' cause σ' :
  (∀ h0 data, keeps h0 (decode data) (λ _, True)) →
  undici_fetch url (objects σ) = Resolved response h →
  ok response = true →
  json response h = Resolved data h' →
  decode data (State h' (requests σ ++ [url])) = Throw (Error cause) σ' →
  fails_with (operation url decode wrap) σ url (wrap cause) (objects σ').
Proof.
  intros Hkeeps Hfetch Hok Hjson Hdecode.
  destruct (keeps_Throw _ _ _ _ (Hkeeps _ data) Hdecode) as [_ Hreq].
  unfold fails_with, operation.
  rewrite (operation_decode_throws number_to_string undici_fetch url decode wrap
             σ response h data h' cause σ' Hfetch Hok Hjson Hdecode).
  f_equal. destruct σ' as [h'' r]. simpl in *. by rewrite Hreq.
Qed.

End operation_failures.

Lemma unknown_error_cause_witness :
  fails_with
    (getSecurities integer_to_string (fetch_throws (VString "boom")) None None None)
    (State ∅ [])
    (getSecurities_url integer_to_string Engine.STOCK Market.SHARES number_100)
    "Failed to fetch securities: Unknown error" ∅.
Proof.
  apply (proj1 (proj1 (unknown_error_cause integer_to_string
                         (fetch_throws (VString "boom")) (State ∅ []))
                  None None None) (VString "boom") ∅).
  reflexivity.
Defined.

Section decode_errors.
Context (number_to_string : number → string).
Context (undici_fetch : string → heap → settled response).

(** X5. An error thrown by the decoding step itself (a [TypeError] on a
    malformed body) is caught like any other failure: when the response
    is OK and parses, and decoding the body throws an error with the
    message [cause], each operation fails with exactly one [Error] whose
    message is its prefix followed by [cause], after one request; it
    returns nothing. *)
Theorem decode_errors_are_wrapped σ response h data h' cause σ' :
  ok response = true →
  json response h = Resolved data h' →
  (∀ engine market limit,
     undici_fetch
       (getSecurities_url number_to_string (default Engine.STOCK engine)
          (default Market.SHARES market) (default number_100 limit))
       (objects σ) = Resolved response h →
     getSecurities_decode number_to_string data
       (State h'
          (requests σ ++
           [getSecurities_url number_to_string (default Engine.STOCK engine)
              (default Market.SHARES market) (default number_100 limit)]))
     = Throw (Error cause) σ' →
     fails_with
       (getSecurities number_to_string undici_fetch engine market limit) σ
       (getSecurities_url number_to_string (default Engine.STOCK engine)
          (default Market.SHARES market) (default number_100 limit))
       ("Failed to fetch securities: " +:+ cause) (objects σ')) ∧
  (∀ secid engine market,
     undici_fetch
       (getMarketData_url secid (default Engine.STOCK engine)
          (default Market.SHARES market))
       (objects σ) = Resolved response h →
     getMarketData_decode number_to_string data
       (State h'
          (requests σ ++
           [getMarketData_url secid (default Engine.STOCK engine)
              (default Market.SHARES market)]))
     = Throw (Error cause) σ' →
     fails_with
       (getMarketData number_to_string undici_fetch secid engine market) σ
       (getMarketData_url secid (default Engine.STOCK engine)
          (default Market.SHARES market))
       ("Failed to fetch market data for " +:+ secid +:+ ": " +:+ cause)
       (objects σ')) ∧
  (∀ engine market,
     undici_fetch
       (getTradingSessions_url (default Engine.STOCK engine)
          (default Market.SHARES market))
       (objects σ) = Resolved response h →
     getTradingSessions_decode number_to_string data
       (State h'
          (requests σ ++
           [getTradingSessions_url (default Engine.STOCK engine)
              (default Market.SHARES market)]))
     = Throw (Error cause) σ' →
     fails_with
       (getTradingSessions number_to_string undici_fetch engine market) σ
       (getTradingSessions_url (default Engine.STOCK engine)
          (default Market.SHARES market))
       ("Failed to fetch trading sessions: " +:+ cause) (objects σ')).
Proof.
  intros Hok Hjson. split_and!.
  - intros engine market limit Hfetch Hthrow.
    exact (operation_decode_fails number_to_string undici_fetch _
             (getSecurities_decode number_to_string)
             (λ cause, "Failed to fetch securities: " +:+ cause)
             σ response h data h' cause σ'
             keeps_getSecurities_decode Hfetch Hok Hjson Hthrow).
  - intros secid engine market Hfetch Hthrow.
    exact (operation_decode_fails number_to_string undici_fetch _
             (getMarketData_decode number_to_string)
             (λ cause, "Failed to fetch market data for " +:+ secid +:+ ": " +:+ cause)
             σ response h data h' cause σ'
             keeps_getMarketData_decode Hfetch Hok Hjson Hthrow).
  - intros engine market Hfetch Hthrow.
    exact (operation_decode_fails number_to_string undici_fetch _
             (getTradingSessions_decode number_to_string)
             (λ cause, "Failed to fetch trading sessions: " +:+ cause)
             σ response h data h' cause σ'
             keeps_getTradingSessions_decode Hfetch Hok Hjson Hthrow).
Qed.

(** X6. A body that parses to [null] is not treated as missing structure:
    when the response is OK and its body is [null] (or the parse gives
    [undefined]), each operation fails, and the message is its prefix
    followed by the [TypeError] of the first property read,
    [Cannot read properties of null (reading 'securities')] for
    [getSecurities]. *)
Theorem nullish_body_fails σ response h data h' :
  ok response = true →
  json response h = Resolved data h' →
  nullish data →
  (∀ engine market limit,
     undici_fetch
       (getSecurities_url number_to_string (default Engine.STOCK engine)
          (default Market.SHARES market) (default number_100 limit))
       (objects σ) = Resolved response h →
     fails_with
       (getSecurities number_to_string undici_fetch engine market limit) σ
       (getSecurities_url number_to_string (default Engine.STOCK engine)
          (default Market.SHARES market) (default number_100 limit))
       ("Failed to fetch securities: Cannot read properties of "
        +:+ nullish_name data +:+ " (reading 'securities')") h') ∧
  (∀ secid engine market,
     undici_fetch
       (getMarketData_url secid (default Engine.STOCK engine)
          (default Market.SHARES market))
       (objects σ) = Resolved response h →
     fails_with
       (getMarketData number_to_string undici_fetch secid engine market) σ
       (getMarketData_url secid (default Engine.STOCK engine)
          (default Market.SHARES market))
       ("Failed to fetch market data for " +:+ secid
        +:+ ": Cannot read properties of "
        +:+ nullish_name data +:+ " (reading 'marketdata')") h') ∧
  (∀ engine market,
     undici_fetch
       (getTradingSessions_url (default Engine.STOCK engine)
          (default Market.SHARES market))
       (objects σ) = Resolved response h →
     fails_with
       (getTradingSessions number_to_string undici_fetch engine market) σ
       (getTradingSessions_url (default Engine.STOCK engine)
          (default Market.SHARES market))
       ("Failed to fetch trading sessions: Cannot read properties of "
        +:+ nullish_name data +:+ " (reading 'sessions')") h').
Proof.
  intros Hok Hjson Hdata. split_and!.
  - intros engine market limit Hfetch.
    set (url := getSecurities_url _ _ _ _) in *.
    apply (operation_decode_fails number_to_string undici_fetch url
             (getSecurities_decode number_to_string)
             (λ cause, "Failed to fetch securities: " +:+ cause)
             σ response h data h'
             ("Cannot read properties of " +:+ nullish_name data
              +:+ " (reading 'securities')")
             (State h' (requests σ ++ [url]))
             keeps_getSecurities_decode Hfetch Hok Hjson).
    by destruct Hdata as [-> | ->].
  - intros secid engine market Hfetch.
    set (url := getMarketData_url _ _ _) in *.
    apply (operation_decode_fails number_to_string undici_fetch url
             (getMarketData_decode number_to_string)
             (λ cause, "Failed to fetch market data for " +:+ secid +:+ ": " +:+ cause)
             σ response h data h'
             ("Cannot read properties of " +:+ nullish_name data
              +:+ " (reading 'marketdata')")
             (State h' (requests σ ++ [url]))
             keeps_getMarketData_decode Hfetch Hok Hjson).
    by destruct Hdata as [-> | ->].
  - intros engine market Hfetch.
    set (url := getTradingSessions_url _ _) in *.
    apply (operation_decode_fails number_to_string undici_fetch url
             (getTradingSessions_decode number_to_string)
             (λ cause, "Failed to fetch trading sessions: " +:+ cause)
             σ response h data h'
             ("Cannot read properties of " +:+ nullish_name data
              +:+ " (reading 'sessions')")
             (State h' (requests σ ++ [url]))
             keeps_getTradingSessions_decode Hfetch Hok Hjson).
    by destruct Hdata as [-> | ->].
Qed.

End decode_errors.

Lemma nullish_body_fails_witness :
  fails_with
    (getSecurities integer_to_string (fetch_body VNull ∅) None None None)
    (State ∅ [])
    (getSecurities_url integer_to_string Engine.STOCK Market.SHARES number_100)
    "Failed to fetch securities: Cannot read properties of null (reading 'securities')"
    ∅.
Proof.
  apply (proj1 (nullish_body_fails integer_to_string (fetch_body VNull ∅)
                  (State ∅ []) (body_response VNull ∅) ∅ VNull ∅
                  eq_refl eq_refl ltac:(by left))
           None None None eq_refl).
Defined.

(** ** Tables that are not tables *)

Ltac read_table f Hbody Hkey t Ht Hd d Htrue :=
  read_resource f Hbody Hkey t;
  rewrite (json_object_truthy _ _ _ Ht); cbn [negb];
  read_resource f Hbody Hkey t; read_default f_data Ht; rewrite Hd;
  change (default VUndefined (Some d)) with d;
  rewrite Htrue; cbn [negb];
  read_resource f Hbody Hkey t; read_default f_columns Ht;
  read_resource f Hbody Hkey t; read_default f_data Ht; rewrite Hd;
  change (default VUndefined (Some d)) with d.

(** Past the guard, the listing decoders map [record_of_row] over
    [data]. *)
Lemma getSecurities_decode_resource {number_to_string : number → string} σ body c d :
  resource (objects σ) body "securities" c d → to_boolean d = true →
  getSecurities_decode number_to_string body σ = Array_map d "rows" (record_of_row number_to_string c) σ.
Proof.
  intros (props & t & tprops & Hbody & Hkey & Ht & <- & Hd) Htrue.
  unfold getSecurities_decode.
  read_table f_securities Hbody Hkey t Ht Hd d Htrue.
  done.
Qed.

Lemma getTradingSessions_decode_resource {number_to_string : number → string} σ body c d :
  resource (objects σ) body "sessions" c d → to_boolean d = true →
  getTradingSessions_decode number_to_string body σ = Array_map d "rows" (record_of_row number_to_string c) σ.
Proof.
  intros (props & t & tprops & Hbody & Hkey & Ht & <- & Hd) Htrue.
  unfold getTradingSessions_decode.
  read_table f_sessions Hbody Hkey t Ht Hd d Htrue.
  done.
Qed.

(** Past the guard, the quote decoder builds the record of [data[0]]. *)
Lemma getMarketData_decode_resource {number_to_string : number → string} σ body c d first later :
  resource (objects σ) body "marketdata" c d →
  json_array (objects σ) d (first :: later) →
  getMarketData_decode number_to_string body σ = record_of_row number_to_string c first σ.
Proof.
  intros (props & t & tprops & Hbody & Hkey & Ht & <- & Hd) Hdata.
  unfold getMarketData_decode.
  read_resource f_marketdata Hbody Hkey t.
  rewrite (json_object_truthy _ _ _ Ht); cbn [negb].
  read_resource f_marketdata Hbody Hkey t. read_default f_data Ht. rewrite Hd.
  change (default VUndefined (Some d)) with d.
  rewrite (json_array_truthy _ _ _ Hdata); cbn [negb].
  read_resource f_marketdata Hbody Hkey t. read_default f_data Ht. rewrite Hd.
  change (default VUndefined (Some d)) with d.
  destruct Hdata as (ld & -> & Hld).
  rewrite (bind_Return _ _ _ _ _ (get_length_array _ _ _ Hld)).
  cbn [length number_of_nat strict_equals_zero].
  read_resource f_marketdata Hbody Hkey t. read_default f_columns Ht.
  read_resource f_marketdata Hbody Hkey t. read_default f_data Ht. rewrite Hd.
  change (default VUndefined (Some (VObject ld))) with (VObject ld).
  rewrite (bind_Return _ _ _ _ _ (get_index_array _ _ _ 0 Hld)).
  done.
Qed.

Lemma not_array_weaken h h' v : h ⊆ h' → not_array h v → not_array h' v.
Proof.
  intros Hsub. destruct v; simpl; try done.
  intros (props & Hv). exists props. by eapply json_object_weaken.
Qed.

Lemma array_method_not_array σ v expr method :
  not_array (objects σ) v → throws_error (array_method v expr method) σ.
Proof.
  destruct v as [| | | | |l]; simpl; intros Hv; try (by eexists _, _).
  destruct Hv as (props & l' & [= <-] & Hl).
  unfold throws_error, array_method. rewrite Hl.
  destruct (props !! method); by eexists _, _.
Qed.

Lemma throws_error_bind {A B} (m : M A) (k : A → M B) σ :
  throws_error m σ → throws_error (bind m k) σ.
Proof.
  intros (cause & σ' & Hm). exists cause, σ'. unfold bind. by rewrite Hm.
Qed.

Lemma throws_error_bind_Return {A B} (m : M A) (k : A → M B) σ a σ' :
  m σ = Return a σ' → throws_error (k a) σ' → throws_error (bind m k) σ.
Proof.
  intros Hm (cause & σ'' & Hk). exists cause, σ''.
  by rewrite (bind_Return _ _ _ _ _ Hm).
Qed.

(** [rows.map] fails when its callback fails on the first row. *)
Lemma Array_map_first_throws σ d first later expr callback :
  json_array (objects σ) d (first :: later) →
  throws_error (callback first) σ →
  throws_error (Array_map d expr callback) σ.
Proof.
  intros (ld & -> & Hld) Hfirst.
  assert (array_method (VObject ld) expr "map" σ = Return ld σ) as Hmethod
    by (unfold array_method; by rewrite Hld).
  assert (array_elems ld σ = Return (first :: later) σ) as Helems
    by (unfold array_elems; by rewrite Hld).
  unfold Array_map.
  eapply throws_error_bind_Return; [exact Hmethod|].
  eapply throws_error_bind_Return; [exact Helems|].
  apply throws_error_bind. cbn [length map_from].
  eapply throws_error_bind_Return; [exact Helems|].
  by apply throws_error_bind.
Qed.

(** [columns.forEach]: columns that are not an array have no [forEach]. *)
Lemma record_of_row_not_array {number_to_string : number → string} σ c row :
  not_array (objects σ) c → throws_error (record_of_row number_to_string c row) σ.
Proof.
  intros Hc. unfold record_of_row.
  eapply throws_error_bind_Return; [reflexivity|].
  apply throws_error_bind, throws_error_bind, array_method_not_array.
  eapply not_array_weaken; [|exact Hc]. apply alloc_subseteq.
Qed.

(** [row[index]] on a row that is [null] or [undefined]. *)
Lemma record_of_row_nullish {number_to_string : number → string} σ c x xs row :
  json_array (objects σ) c (x :: xs) → nullish row →
  throws_error (record_of_row number_to_string c row) σ.
Proof.
  intros (lc & -> & Hlc) Hrow. unfold record_of_row.
  eapply throws_error_bind_Return; [reflexivity|].
  set (σ1 := State _ _).
  assert (objects σ1 !! lc = Some (Array (x :: xs))) as Hlc1.
  { eapply lookup_weaken; [exact Hlc|apply alloc_subseteq]. }
  assert (array_method (VObject lc) "columns" "forEach" σ1 = Return lc σ1) as Hmethod
    by (unfold array_method; by rewrite Hlc1).
  assert (array_elems lc σ1 = Return (x :: xs) σ1) as Helems
    by (unfold array_elems; by rewrite Hlc1).
  apply throws_error_bind. unfold Array_forEach.
  eapply throws_error_bind_Return; [exact Hmethod|].
  eapply throws_error_bind_Return; [exact Helems|].
  cbn [length for_each_from].
  eapply throws_error_bind_Return; [exact Helems|].
  cbn [lookup list_lookup]. simpl.
  apply throws_error_bind, throws_error_bind.
  destruct Hrow as [-> | ->]; by eexists _, _.
Qed.

Lemma array_method_truthy_not_array σ v expr method :
  to_boolean v = true → not_array (objects σ) v →
  array_method v expr method σ
  = Throw (not_a_function (expr +:+ "." +:+ method)) σ.
Proof.
  destruct v as [| | | | |l]; simpl; intros Htrue Hv; try done.
  destruct Hv as (props & l' & [= <-] & Hl).
  unfold array_method. rewrite Hl. by destruct (props !! method).
Qed.

(** X7. A [data] that is truthy but not an array (a non-empty string, a
    number other than 0 and NaN, [true], a plain object) is not treated
    as empty by the listing operations: the decoding step of
    [getSecurities] and [getTradingSessions] throws the [TypeError]
    [rows.map is not a function], having allocated nothing. *)
Theorem data_not_array_throws {number_to_string : number → string} σ body c d :
  to_boolean d = true → not_array (objects σ) d →
  (resource (objects σ) body "securities" c d →
   getSecurities_decode number_to_string body σ
   = Throw (Error "rows.map is not a function") σ) ∧
  (resource (objects σ) body "sessions" c d →
   getTradingSessions_decode number_to_string body σ
   = Throw (Error "rows.map is not a function") σ).
Proof.
  intros Htrue Hd. split; intros Hres.
  - rewrite (getSecurities_decode_resource σ body c d Hres Htrue).
    unfold Array_map, bind at 1.
    by rewrite (array_method_truthy_not_array σ d "rows" "map" Htrue Hd).
  - rewrite (getTradingSessions_decode_resource σ body c d Hres Htrue).
    unfold Array_map, bind at 1.
    by rewrite (array_method_truthy_not_array σ d "rows" "map" Htrue Hd).
Qed.

(** X8. When [data] holds at least one element and [columns] is missing
    or is not an array, the decoding step of each of the three operations
    throws, whatever the rows are: [columns.forEach] cannot be called. *)
Theorem columns_not_array_throws {number_to_string : number → string} σ body c d first later :
  json_array (objects σ) d (first :: later) → not_array (objects σ) c →
  (resource (objects σ) body "securities" c d →
   throws_error (getSecurities_decode number_to_string body) σ) ∧
  (resource (objects σ) body "sessions" c d →
   throws_error (getTradingSessions_decode number_to_string body) σ) ∧
  (resource (objects σ) body "marketdata" c d →
   throws_error (getMarketData_decode number_to_string body) σ).
Proof.
  intros Hdata Hc. pose proof (json_array_truthy _ _ _ Hdata) as Htrue.
  split_and!; intros Hres; unfold throws_error.
  - rewrite (getSecurities_decode_resource σ body c d Hres Htrue).
    eapply Array_map_first_throws; [exact Hdata|].
    by apply record_of_row_not_array.
  - rewrite (getTradingSessions_decode_resource σ body c d Hres Htrue).
    eapply Array_map_first_throws; [exact Hdata|].
    by apply record_of_row_not_array.
  - rewrite (getMarketData_decode_resource σ body c d first later Hres Hdata).
    by apply record_of_row_not_array.
Qed.

Section bad_row.
Context (lc ld : loc) (columns : list string) (refs : list val).
Hypothesis no_proto : "__proto__" ∉ columns.
Hypothesis some_column : columns ≠ [].

(** [rows.map] fails at the first row that is [null] or [undefined],
    the rows before it being arrays. *)
Lemma map_from_nullish_row {number_to_string : number → string} bad later rows : ∀ good k n σ,
  objects σ !! lc = Some (Array (VString <$> columns)) →
  objects σ !! ld = Some (Array refs) →
  drop k refs = (good ++ bad :: later)%list →
  Forall2 (json_array (objects σ)) good rows →
  nullish bad →
  length good < n →
  throws_error (map_from ld (record_of_row number_to_string (VObject lc)) k n) σ.
Proof.
  induction rows as [|row rows IH]; intros good k n σ Hlc Hld Hdrop Hgood Hbad Hn.
  - apply Forall2_nil_inv_r in Hgood as ->. simpl in Hdrop.
    destruct n as [|n]; [simpl in Hn; lia|].
    assert (refs !! k = Some bad) as Hk.
    { rewrite <- (Nat.add_0_r k), <- lookup_drop, Hdrop. done. }
    assert (array_elems ld σ = Return refs σ) as Helems
      by (unfold array_elems; by rewrite Hld).
    cbn [map_from].
    eapply throws_error_bind_Return; [exact Helems|]. rewrite Hk.
    apply throws_error_bind.
    destruct columns as [|c0 cs]; [done|].
    eapply (record_of_row_nullish σ (VObject lc) (VString c0) (VString <$> cs));
      [by exists lc|done].
  - apply Forall2_cons_inv_r in Hgood as (ref & good' & (lr & -> & Hlr) & Hgood & ->).
    destruct n as [|n]; [simpl in Hn; lia|].
    assert (refs !! k = Some (VObject lr)) as Hk.
    { rewrite <- (Nat.add_0_r k), <- lookup_drop, Hdrop. done. }
    assert (drop (S k) refs = (good' ++ bad :: later)%list) as Hdrop'.
    { by rewrite <- Nat.add_1_r, <- drop_drop, Hdrop. }
    assert (array_elems ld σ = Return refs σ) as Helems
      by (unfold array_elems; by rewrite Hld).
    cbn [map_from].
    eapply throws_error_bind_Return; [exact Helems|]. rewrite Hk.
    eapply throws_error_bind_Return.
    { exact (row_callback_assign σ lc lr columns row Hlc Hlr no_proto). }
    apply throws_error_bind.
    set (σ1 := State _ _).
    assert (objects σ ⊆ objects σ1) as Hσ1 by apply alloc_subseteq.
    apply (IH good' (S k) n σ1).
    + by eapply lookup_weaken.
    + by eapply lookup_weaken.
    + done.
    + eapply Forall2_impl; [exact Hgood|]. intros ??. by apply json_array_weaken.
    + done.
    + simpl in Hn. lia.
Qed.

End bad_row.

(** [rows.map] over a data array one of whose rows is [null] or
    [undefined]. *)
Lemma Array_map_nullish_row {number_to_string : number → string} σ c d columns good rows bad later :
  json_array (objects σ) c (VString <$> columns) →
  columns ≠ [] → "__proto__" ∉ columns →
  json_array (objects σ) d (good ++ bad :: later)%list →
  Forall2 (json_array (objects σ)) good rows →
  nullish bad →
  throws_error (Array_map d "rows" (record_of_row number_to_string c)) σ.
Proof.
  intros (lc & -> & Hlc) Hsome Hproto (ld & -> & Hld) Hgood Hbad.
  assert (array_method (VObject ld) "rows" "map" σ = Return ld σ) as Hmethod
    by (unfold array_method; by rewrite Hld).
  assert (array_elems ld σ = Return (good ++ bad :: later)%list σ) as Helems
    by (unfold array_elems; by rewrite Hld).
  unfold Array_map.
  eapply throws_error_bind_Return; [exact Hmethod|].
  eapply throws_error_bind_Return; [exact Helems|].
  apply throws_error_bind.
  eapply (map_from_nullish_row lc ld columns (good ++ bad :: later)%list Hproto Hsome
            bad later rows good 0); try done.
  rewrite length_app. simpl. lia.
Qed.

(** X9. A row that is [null] or [undefined] makes the whole decoding
    step throw, with no partial result: for the listing operations at
    whichever position the row stands, the rows before it being arrays,
    and for the quote when it is the first row; the columns are a
    non-empty array of strings other than [__proto__]. *)
Theorem nullish_row_throws {number_to_string : number → string} σ body c d columns good rows bad later :
  json_array (objects σ) c (VString <$> columns) →
  columns ≠ [] → "__proto__" ∉ columns →
  json_array (objects σ) d (good ++ bad :: later)%list →
  Forall2 (json_array (objects σ)) good rows →
  nullish bad →
  (resource (objects σ) body "securities" c d →
   throws_error (getSecurities_decode number_to_string body) σ) ∧
  (resource (objects σ) body "sessions" c d →
   throws_error (getTradingSessions_decode number_to_string body) σ) ∧
  (good = [] → resource (objects σ) body "marketdata" c d →
   throws_error (getMarketData_decode number_to_string body) σ).
Proof.
  intros Hc Hsome Hproto Hdata Hgood Hbad.
  pose proof (json_array_truthy _ _ _ Hdata) as Htrue.
  split_and!.
  - intros Hres. unfold throws_error.
    rewrite (getSecurities_decode_resource σ body c d Hres Htrue).
    by eapply Array_map_nullish_row.
  - intros Hres. unfold throws_error.
    rewrite (getTradingSessions_decode_resource σ body c d Hres Htrue).
    by eapply Array_map_nullish_row.
  - intros -> Hres. unfold throws_error.
    rewrite (getMarketData_decode_resource σ body c d bad later Hres Hdata).
    destruct columns as [|c0 cs]; [done|].
    by eapply (record_of_row_nullish σ c (VString c0) (VString <$> cs)).
Qed.

Ltac solve_json := eexists; split; [reflexivity|solve_lookup].

Ltac solve_resource :=
  eexists _, (VObject 2), _; split_and!; first [solve_lookup | solve_json].

Lemma decode_errors_are_wrapped_witness :
  ∃ h,
    fails_with
      (getSecurities integer_to_string (fetch_body (VObject 1) no_columns_heap)
         None None None)
      (State ∅ [])
      (getSecurities_url integer_to_string Engine.STOCK Market.SHARES number_100)
      "Failed to fetch securities: Cannot read properties of undefined (reading 'forEach')"
      h.
Proof.
  eexists.
  eapply (proj1 (decode_errors_are_wrapped integer_to_string
                  (fetch_body (VObject 1) no_columns_heap) (State ∅ [])
                  (body_response (VObject 1) no_columns_heap) ∅ (VObject 1)
                  no_columns_heap
                  "Cannot read properties of undefined (reading 'forEach')"
                  _ eq_refl eq_refl)
           None None None eq_refl).
  solve_lookup.
Defined.

Lemma data_not_array_throws_witness :
  getSecurities_decode integer_to_string (VObject 1) (State string_data_heap [])
  = Throw (Error "rows.map is not a function") (State string_data_heap []).
Proof.
  apply (proj1 (data_not_array_throws (number_to_string:=integer_to_string) (State string_data_heap []) (VObject 1)
                  (VObject 3) (VString "oops") eq_refl I)).
  solve_resource.
Defined.

Lemma columns_not_array_throws_witness :
  throws_error (getSecurities_decode integer_to_string (VObject 1)) (State no_columns_heap []).
Proof.
  apply (proj1 (columns_not_array_throws (number_to_string:=integer_to_string) (State no_columns_heap []) (VObject 1)
                  VUndefined (VObject 4) (VObject 5) []
                  ltac:(solve_json) I)).
  solve_resource.
Defined.

Lemma nullish_row_throws_witness :
  throws_error (getSecurities_decode integer_to_string (VObject 1))
    (State (null_row_heap "securities") []) ∧
  throws_error (getMarketData_decode integer_to_string (VObject 1))
    (State (null_row_heap "marketdata") []).
Proof.
  split.
  - apply (proj1 (nullish_row_throws (number_to_string:=integer_to_string) (State (null_row_heap "securities") [])
                    (VObject 1) (VObject 3) (VObject 4) ["A"] [] [] VNull []
                    ltac:(solve_json) ltac:(discriminate) ltac:(solve_decidable)
                    ltac:(solve_json) ltac:(constructor) ltac:(by left))).
    solve_resource.
  - apply (proj2 (proj2 (nullish_row_throws (number_to_string:=integer_to_string) (State (null_row_heap "marketdata") [])
                    (VObject 1) (VObject 3) (VObject 4) ["A"] [] [] VNull []
                    ltac:(solve_json) ltac:(discriminate) ltac:(solve_decidable)
                    ltac:(solve_json) ltac:(constructor) ltac:(by left)))
             eq_refl).
    solve_resource.
Defined.

(** ** Column names that occur more than once *)

Lemma assign_from_last columns row : ∀ k fields i c,
  columns !! i = Some c → c ∉ drop (S i) columns →
  assign_from columns row k fields !! c = Some (row_value row (k + i)).
Proof.
  induction columns as [|c' columns IH]; intros k fields i c Hi Hlast; [done|].
  destruct i as [|i]; simpl in *.
  - injection Hi as ->. rewrite drop_0 in Hlast.
    rewrite assign_from_other by done.
    by rewrite lookup_insert_eq, Nat.add_0_r.
  - rewrite (IH (S k) _ i c) by done. do 2 f_equal. lia.
Qed.

Lemma assign_from_elem_of columns row : ∀ k fields name,
  name ∈ columns → is_Some (assign_from columns row k fields !! name).
Proof.
  induction columns as [|c columns IH]; intros k fields name Hname.
  - by apply elem_of_nil in Hname.
  - simpl. destruct (decide (name ∈ columns)) as [Hin|Hout]; [by apply IH|].
    apply elem_of_cons in Hname as [->|?]; [|done].
    rewrite assign_from_other by done. rewrite lookup_insert_eq. by eexists.
Qed.

Lemma assign_last_wins columns row : last_wins columns row (assign columns row).
Proof.
  split.
  - intros i c Hi Hlast. unfold assign.
    by rewrite (assign_from_last _ _ 0 _ i).
  - intros name. split.
    + intros Hname. apply assign_from_is_Some in Hname as [?|Hname]; [done|].
      rewrite lookup_empty in Hname. by destruct Hname.
    + apply assign_from_elem_of.
Qed.

(** X10. Column names need not be distinct: for columns that are strings
    other than [__proto__], each record has exactly one field per name
    that occurs among the columns, and the field holds the row value at
    the last index where the name occurs ([undefined] beyond the end of
    the row); earlier occurrences are overwritten. *)
Theorem repeated_column_last_wins {number_to_string : number → string} σ body columns rows :
  "__proto__" ∉ columns →
  (table (objects σ) body "securities" columns rows →
   ∃ records, returns_records (getSecurities_decode number_to_string body) σ records ∧
              Forall2 (last_wins columns) rows records) ∧
  (table (objects σ) body "sessions" columns rows →
   ∃ records, returns_records (getTradingSessions_decode number_to_string body) σ records ∧
              Forall2 (last_wins columns) rows records) ∧
  (∀ row later,
     table_first_row (objects σ) body "marketdata" columns row later →
     ∃ fields, returns_record (getMarketData_decode number_to_string body) σ fields ∧
               last_wins columns row fields).
Proof.
  intros Hproto.
  assert (Forall2 (last_wins columns) rows (assign columns <$> rows)) as Hlast.
  { apply Forall2_fmap_follows, Forall_forall. intros row _.
    apply assign_last_wins. }
  split_and!.
  - intros Htable. eexists. split; [|exact Hlast].
    by apply getSecurities_decode_table.
  - intros Htable. eexists. split; [|exact Hlast].
    by apply getTradingSessions_decode_table.
  - intros row later Htable. exists (assign columns row). split.
    + by eapply getMarketData_decode_first_row.
    + apply assign_last_wins.
Qed.

Lemma repeated_columns_table :
  table (table_heap "securities" repeated_columns [repeated_row]) (VObject 1)
        "securities" repeated_columns [repeated_row].
Proof. solve_table. Qed.

Lemma repeated_column_last_wins_witness :
  ∃ records,
    returns_records (getSecurities_decode integer_to_string (VObject 1))
      (State (table_heap "securities" repeated_columns [repeated_row]) []) records ∧
    Forall2 (last_wins repeated_columns) [repeated_row] records.
Proof.
  apply (proj1 (repeated_column_last_wins (number_to_string:=integer_to_string)
                  (State (table_heap "securities" repeated_columns [repeated_row]) [])
                  (VObject 1) repeated_columns [repeated_row]
                  ltac:(solve_decidable))).
  exact repeated_columns_table.
Defined.

(** ** The column [__proto__] *)

Lemma json_value_weaken h h' v : h ⊆ h' → json_value h v → json_value h' v.
Proof.
  intros Hsub. destruct v as [| | | | |l]; simpl; try done.
  intros [(elems & Hl)|(props & Hl)]; [left|right]; eexists;
    by eapply lookup_weaken.
Qed.

Lemma put_proto σ r fields v :
  objects σ !! r = Some (Ordinary fields ObjectPrototype) →
  fields !! "__proto__" = None →
  json_value (objects σ) v → v ≠ VObject r →
  put (VObject r) "__proto__" v σ
  = Return tt (State (<[r := Ordinary fields (proto_of v)]> (objects σ))
                     (requests σ)).
Proof.
  intros Hr Hnone Hv Hvr. unfold put. rewrite Hr.
  case_decide; [|done]. rewrite Hnone. simpl.
  unfold proto_setter.
  destruct v as [| | | | |l]; cbn [proto_of];
    try done; try (by rewrite insert_id, state_eta).
  case_decide; [congruence|].
  simpl in Hv. by destruct Hv as [(elems & ->)|(props & ->)].
Qed.

Section one_row_proto.
Context (h0 : heap) (lc lr r : loc) (columns : list string) (row : list val).
Hypothesis row_values : Forall (json_value h0) row.
Hypothesis r_fresh : h0 !! r = None.

Context {number_to_string : number → string}.

Let callback : val → nat → M unit :=
  fun column index =>
    let* x := get_index (VObject lr) index in
    put_computed number_to_string (VObject r) column x.

Lemma json_value_row_value k : json_value h0 (row_value row k).
Proof.
  unfold row_value. destruct (row !! k) as [v|] eqn:Hk; [|done].
  by eapply (Forall_lookup_1 _ row k v).
Qed.

Lemma row_value_not_record k : row_value row k ≠ VObject r.
Proof.
  intros Heq. pose proof (json_value_row_value k) as Hv. rewrite Heq in Hv.
  simpl in Hv. rewrite r_fresh in Hv. by destruct Hv as [[? ?]|[? ?]].
Qed.

Lemma for_each_fill suffix : ∀ k fields proto σ,
  h0 ⊆ objects σ →
  objects σ !! lc = Some (Array (VString <$> columns)) →
  objects σ !! lr = Some (Array row) →
  objects σ !! r = Some (Ordinary fields proto) →
  r ≠ lc → r ≠ lr →
  drop k columns = suffix →
  NoDup suffix →
  ("__proto__" ∈ suffix → proto = ObjectPrototype ∧ fields !! "__proto__" = None) →
  for_each_from lc callback k (length suffix) σ
  = Return tt
      (State (<[r := Ordinary (fill_from suffix row k fields proto).1
                              (fill_from suffix row k fields proto).2]>
                (objects σ))
             (requests σ)).
Proof.
  induction suffix as [|c suffix IH];
    intros k fields proto σ Hh0 Hlc Hlr Hr Hrc Hrr Hdrop Hdup Hproto.
  - simpl. unfold ret. by rewrite insert_id, state_eta.
  - assert (columns !! k = Some c) as Hk.
    { rewrite <- (Nat.add_0_r k), <- lookup_drop, Hdrop. done. }
    assert (drop (S k) columns = suffix) as Hdrop'.
    { by rewrite <- Nat.add_1_r, <- drop_drop, Hdrop. }
    apply NoDup_cons in Hdup as [Hc Hdup].
    cbn [for_each_from length fill_from]. unfold bind at 1, array_elems at 1.
    rewrite Hlc, list_lookup_fmap, Hk. simpl.
    unfold bind at 1, callback at 1, bind at 1.
    rewrite (get_index_array _ _ row) by done.
    rewrite put_computed_string.
    destruct (decide (c = "__proto__")) as [->|Hne].
    + destruct Hproto as [-> Hnone]; [by left|].
      rewrite (put_proto _ _ fields).
      * rewrite (IH (S k) fields (proto_of (row_value row k))); simpl;
          rewrite ?lookup_insert_ne by done; try done.
        -- by rewrite insert_insert_eq.
        -- by apply insert_subseteq_r.
        -- by rewrite lookup_insert_eq.
      * done.
      * done.
      * eapply json_value_weaken; [exact Hh0|apply json_value_row_value].
      * apply row_value_not_record.
    + rewrite (put_own _ _ fields proto) by done.
      rewrite (IH (S k) (<[c := row_value row k]> fields) proto); simpl;
        rewrite ?lookup_insert_ne by done; try done.
      * by rewrite insert_insert_eq.
      * by apply insert_subseteq_r.
      * by rewrite lookup_insert_eq.
      * intros Hin. destruct Hproto as [-> Hnone]; [by right|].
        by split.
Qed.

End one_row_proto.

Lemma assign_from_delete columns row : ∀ k fields name,
  name ∉ columns →
  delete name (assign_from columns row k fields)
  = assign_from columns row k (delete name fields).
Proof.
  induction columns as [|c columns IH]; intros k fields name Hname; [done|].
  apply not_elem_of_cons in Hname as [Hc Hname]. simpl.
  rewrite IH by done. by rewrite delete_insert_ne.
Qed.

Lemma fill_from_assign columns row : ∀ k fields proto,
  NoDup columns → fields !! "__proto__" = None →
  (fill_from columns row k fields proto).1
  = delete "__proto__" (assign_from columns row k fields) ∧
  (∀ i, columns !! i = Some "__proto__" →
        (fill_from columns row k fields proto).2 = proto_of (row_value row (k + i))) ∧
  ("__proto__" ∉ columns → (fill_from columns row k fields proto).2 = proto).
Proof.
  induction columns as [|c columns IH]; intros k fields proto Hdup Hnone.
  - simpl. split_and!; [by rewrite delete_id|done|done].
  - apply NoDup_cons in Hdup as [Hc Hdup]. cbn [fill_from assign_from].
    destruct (decide (c = "__proto__")) as [->|Hne].
    + destruct (IH (S k) fields (proto_of (row_value row k)) Hdup Hnone)
        as (Hfst & _ & Hsnd).
      split_and!.
      * rewrite Hfst. rewrite !assign_from_delete by done.
        by rewrite delete_insert_eq.
      * intros [|i] Hi.
        -- rewrite Nat.add_0_r. by apply Hsnd.
        -- simpl in Hi. destruct Hc. by eapply list_elem_of_lookup_2.
      * intros Hout. destruct Hout. by left.
    + destruct (IH (S k) (<[c := row_value row k]> fields) proto Hdup)
        as (Hfst & Hat & Hsnd); [by rewrite lookup_insert_ne|].
      split_and!.
      * done.
      * intros [|i] Hi; simpl in Hi; [congruence|].
        rewrite (Hat i Hi). do 2 f_equal. lia.
      * intros Hout. apply Hsnd. by apply not_elem_of_cons in Hout as [_ ?].
Qed.

(** The record of one row whose columns hold [__proto__] once. *)
Lemma record_of_row_fill {number_to_string : number → string} σ lc lr columns row i :
  objects σ !! lc = Some (Array (VString <$> columns)) →
  objects σ !! lr = Some (Array row) →
  NoDup columns → columns !! i = Some "__proto__" →
  Forall (json_value (objects σ)) row →
  record_of_row number_to_string (VObject lc) (VObject lr) σ
  = Return (VObject (fresh (dom (objects σ))))
      (State (<[fresh (dom (objects σ)) :=
                  Ordinary (delete "__proto__" (assign columns row))
                           (proto_of (row_value row i))]>
                (objects σ))
             (requests σ)).
Proof.
  intros Hlc Hlr Hdup Hi Hrow.
  set (r := fresh (dom (objects σ))).
  assert (objects σ !! r = None) as Hr by apply not_elem_of_dom, is_fresh.
  assert (r ≠ lc) as Hrc by congruence.
  assert (r ≠ lr) as Hrr by congruence.
  destruct (fill_from_assign columns row 0 ∅ ObjectPrototype Hdup (lookup_empty _))
    as (Hfst & Hsnd & _).
  specialize (Hsnd i Hi). simpl in Hsnd.
  unfold record_of_row, bind at 1, new_object, alloc. fold r.
  unfold bind at 1, Array_forEach, bind at 1, array_method. simpl.
  rewrite lookup_insert_ne, Hlc by done.
  unfold bind at 1, array_elems at 1. simpl.
  rewrite lookup_insert_ne, Hlc by done.
  rewrite length_fmap.
  rewrite (for_each_fill (objects σ) lc lr r columns row Hrow Hr columns 0 ∅
             ObjectPrototype); simpl;
    rewrite ?lookup_insert_ne by done; try done.
  - rewrite insert_insert_eq. unfold ret. by rewrite Hfst, Hsnd.
  - by apply insert_subseteq.
  - by rewrite lookup_insert_eq.
Qed.

(** ** What [rows.map] allocates *)

Lemma union_swap (X Y Z : gset loc) : X ∪ (Y ∪ Z) = Y ∪ (X ∪ Z).
Proof. by rewrite !(assoc_L (∪)), (comm_L (∪) X Y). Qed.

Section map_allocates.
Context (h0 : heap) (ld : loc) (refs : list val) (callback : val → M val).
Context (R : val → object → Prop).
Hypothesis callback_allocates : ∀ x σ,
  x ∈ refs → h0 ⊆ objects σ →
  ∃ o, callback x σ
       = Return (VObject (fresh (dom (objects σ))))
           (State (<[fresh (dom (objects σ)) := o]> (objects σ)) (requests σ)) ∧
       R x o.

Lemma map_from_allocates : ∀ n k σ,
  h0 ⊆ objects σ →
  objects σ !! ld = Some (Array refs) →
  k + n = length refs →
  ∃ locs σ',
    map_from ld callback k n σ = Return (VObject <$> locs) σ' ∧
    requests σ' = requests σ ∧
    objects σ ⊆ objects σ' ∧
    NoDup locs ∧
    (∀ l, l ∈ locs → objects σ !! l = None) ∧
    dom (objects σ') = dom (objects σ) ∪ list_to_set locs ∧
    Forall2 (λ x l, ∃ o, objects σ' !! l = Some o ∧ R x o) (drop k refs) locs.
Proof.
  induction n as [|n IH]; intros k σ Hh0 Hld Hlen.
  - exists [], σ. simpl. split_and!; try done.
    + constructor.
    + intros l Hl. by apply elem_of_nil in Hl.
    + by rewrite (right_id_L ∅ (∪)).
    + rewrite drop_ge by lia. constructor.
  - destruct (lookup_lt_is_Some_2 refs k) as [x Hk]; [lia|].
    destruct (callback_allocates x σ) as (o & Hcall & HR);
      [by eapply list_elem_of_lookup_2|done|].
    set (r := fresh (dom (objects σ))) in *.
    set (σ1 := State (<[r := o]> (objects σ)) (requests σ)) in *.
    assert (objects σ !! r = None) as Hr by apply not_elem_of_dom, is_fresh.
    assert (objects σ ⊆ objects σ1) as Hσ1 by apply alloc_subseteq.
    destruct (IH (S k) σ1) as (locs & σ' & Hrun & Hreq & Hσ' & Hdup & Hfresh & Hdom & Hrows).
    { by etrans. }
    { by eapply lookup_weaken. }
    { lia. }
    exists (r :: locs), σ'.
    cbn [map_from]. unfold bind at 1, array_elems at 1. rewrite Hld, Hk.
    unfold bind at 1. rewrite Hcall. unfold bind at 1. rewrite Hrun.
    split_and!.
    + done.
    + done.
    + by etrans.
    + apply NoDup_cons. split; [|done].
      intros Hin. apply Hfresh in Hin. simpl in Hin.
      by rewrite lookup_insert_eq in Hin.
    + intros l [->|Hl]%elem_of_cons; [done|].
      apply Hfresh in Hl.
      destruct (objects σ !! l) as [o'|] eqn:Hol; [|done].
      pose proof (lookup_weaken _ _ _ _ Hol Hσ1). congruence.
    + rewrite Hdom. simpl. rewrite dom_insert_L.
      rewrite <- ?(assoc_L (∪)). apply union_swap.
    + rewrite (drop_S _ _ _ Hk). constructor; [|done].
      exists o. split; [|done].
      eapply lookup_weaken; [|exact Hσ']. apply lookup_insert_eq.
Qed.

Lemma Array_map_allocates σ expr :
  h0 ⊆ objects σ →
  objects σ !! ld = Some (Array refs) →
  ∃ a locs σ',
    Array_map (VObject ld) expr callback σ = Return (VObject a) σ' ∧
    requests σ' = requests σ ∧
    objects σ ⊆ objects σ' ∧
    objects σ' !! a = Some (Array (VObject <$> locs)) ∧
    NoDup (a :: locs) ∧
    (∀ l, l ∈ a :: locs → objects σ !! l = None) ∧
    dom (objects σ') = dom (objects σ) ∪ list_to_set (a :: locs) ∧
    Forall2 (λ x l, ∃ o, objects σ' !! l = Some o ∧ R x o) refs locs.
Proof.
  intros Hh0 Hld.
  destruct (map_from_allocates (length refs) 0 σ Hh0 Hld eq_refl)
    as (locs & σ1 & Hrun & Hreq & Hσ1 & Hdup & Hfresh & Hdom & Hrows).
  set (a := fresh (dom (objects σ1))).
  assert (objects σ1 !! a = None) as Ha by apply not_elem_of_dom, is_fresh.
  exists a, locs, (State (<[a := Array (VObject <$> locs)]> (objects σ1)) (requests σ1)).
  unfold Array_map, bind at 1, array_method. rewrite Hld.
  unfold bind at 1, array_elems at 1. rewrite Hld.
  unfold bind at 1. rewrite Hrun.
  assert (a ∉ locs) as Hout.
  { intros Hin. apply not_elem_of_dom in Ha. apply Ha. rewrite Hdom.
    apply elem_of_union_r, elem_of_list_to_set, Hin. }
  split_and!.
  - done.
  - done.
  - etrans; [exact Hσ1|]. by apply insert_subseteq.
  - apply lookup_insert_eq.
  - by apply NoDup_cons.
  - intros l [->|Hl]%elem_of_cons; [|by apply Hfresh].
    destruct (objects σ !! a) as [o'|] eqn:Hoa; [|done].
    by rewrite (lookup_weaken _ _ _ _ Hoa Hσ1) in Ha.
  - simpl. rewrite dom_insert_L, Hdom.
    rewrite <- ?(assoc_L (∪)). apply union_swap.
  - rewrite drop_0 in Hrows. eapply Forall2_impl; [exact Hrows|].
    intros x l (o & Hl & HR). exists o. split; [|done].
    eapply lookup_weaken; [exact Hl|]. by apply insert_subseteq.
Qed.

End map_allocates.

Lemma Forall2_compose {A B C} (P : A → B → Prop) (Q : A → C → Prop)
    (S : B → C → Prop) xs ys zs :
  Forall2 P xs ys → Forall2 Q xs zs →
  (∀ x y z, P x y → Q x z → S y z) → Forall2 S ys zs.
Proof.
  intros HP. revert zs.
  induction HP as [|x y xs ys Hxy _ IH]; intros zs HQ HS.
  - apply Forall2_nil_inv_l in HQ as ->. constructor.
  - apply Forall2_cons_inv_l in HQ as (z & zs' & Hxz & HQ & ->).
    constructor; eauto.
Qed.

Lemma table_resource h body key columns rows :
  table h body key columns rows →
  ∃ lc ld refs,
    resource h body key (VObject lc) (VObject ld) ∧
    h !! lc = Some (Array (VString <$> columns)) ∧
    h !! ld = Some (Array refs) ∧
    Forall2 (json_array h) refs rows.
Proof.
  intros (props & t & tprops & c & d & refs & Hbody & Hkey & Ht & Hc
          & (lc & -> & Hlc) & Hd & (ld & -> & Hld) & Hrows).
  exists lc, ld, refs. split_and!; try done.
  exists props, t, tprops. split_and!; try done. by rewrite Hc.
Qed.

Lemma table_first_row_resource h body key columns row later :
  table_first_row h body key columns row later →
  ∃ lc d lr,
    resource h body key (VObject lc) d ∧
    h !! lc = Some (Array (VString <$> columns)) ∧
    json_array h d (VObject lr :: later) ∧
    h !! lr = Some (Array row).
Proof.
  intros (props & t & tprops & c & d & first & Hbody & Hkey & Ht & Hc
          & (lc & -> & Hlc) & Hd & Hdata & (lr & -> & Hlr)).
  exists lc, d, lr. split_and!; try done.
  exists props, t, tprops. split_and!; try done. by rewrite Hc.
Qed.

(** The rows of a table, seen from the references in [data]. *)
Lemma rows_of_refs h refs rows x :
  Forall2 (json_array h) refs rows → x ∈ refs →
  ∃ lr row, x = VObject lr ∧ h !! lr = Some (Array row) ∧ row ∈ rows.
Proof.
  intros Hrows [j Hj]%list_elem_of_lookup_1.
  destruct (Forall2_lookup_l _ _ _ _ _ Hrows Hj) as (row & Hrow & lr & -> & Hlr).
  exists lr, row. split_and!; [done..|]. by eapply list_elem_of_lookup_2.
Qed.



Lemma Array_map_with_proto {number_to_string : number → string} σ lc ld columns refs rows i :
  objects σ !! lc = Some (Array (VString <$> columns)) →
  objects σ !! ld = Some (Array refs) →
  Forall2 (json_array (objects σ)) refs rows →
  NoDup columns → columns !! i = Some "__proto__" →
  Forall (Forall (json_value (objects σ))) rows →
  returns_with_proto (Array_map (VObject ld) "rows" (record_of_row number_to_string (VObject lc))) σ
    columns i rows.
Proof.
  intros Hlc Hld Hrows Hdup Hi Hvalues.
  destruct (Array_map_allocates (objects σ) ld refs ((record_of_row number_to_string) (VObject lc))
              (λ x o, ∃ lr row,
                 x = VObject lr ∧ objects σ !! lr = Some (Array row) ∧
                 o = Ordinary (delete "__proto__" (assign columns row))
                              (proto_of (row_value row i))))
    with (σ := σ) (expr := "rows")
    as (a & locs & σ' & Hrun & _ & _ & Ha & _ & _ & _ & Hlocs);
    [|done..|].
  { intros x σ1 Hx Hσ1.
    destruct (rows_of_refs _ _ _ _ Hrows Hx) as (lr & row & -> & Hlr & Hrow).
    eexists. split; [|by exists lr, row].
    apply (record_of_row_fill σ1 lc lr columns row i); try done.
    - by eapply lookup_weaken.
    - by eapply lookup_weaken.
    - eapply Forall_impl.
      + eapply (proj1 (Forall_forall _ rows)); [exact Hvalues|exact Hrow].
      + intros v. by apply json_value_weaken. }
  exists a, locs, σ'. split_and!; [done..|].
  eapply Forall2_compose; [exact Hrows|exact Hlocs|].
  intros x row l (lr & -> & Hlr) (o & Hl & lr' & row' & [= <-] & Hlr' & ->).
  rewrite Hl. congruence.
Qed.

(** X11. A column named [__proto__] never becomes a field. For pairwise
    distinct column names with [__proto__] at index [i], and rows made of
    values of the parsed body, each record holds the other columns as
    usual, has no own field [__proto__], and its prototype is decided by
    [row[i]]: a reference to an array or an object of the body makes
    that object the prototype of the record, [null] leaves the record
    without prototype, any other value leaves [Object.prototype]. *)
Theorem proto_column_sets_prototype {number_to_string : number → string} σ body columns rows i :
  NoDup columns → columns !! i = Some "__proto__" →
  Forall (Forall (json_value (objects σ))) rows →
  (table (objects σ) body "securities" columns rows →
   returns_with_proto (getSecurities_decode number_to_string body) σ columns i rows) ∧
  (table (objects σ) body "sessions" columns rows →
   returns_with_proto (getTradingSessions_decode number_to_string body) σ columns i rows) ∧
  (∀ row later,
     Forall (json_value (objects σ)) row →
     table_first_row (objects σ) body "marketdata" columns row later →
     ∃ r σ',
       getMarketData_decode number_to_string body σ = Return (VObject r) σ' ∧
       objects σ' !! r
       = Some (Ordinary (delete "__proto__" (assign columns row))
                        (proto_of (row_value row i)))).
Proof.
  intros Hdup Hi Hvalues. split_and!.
  - intros (lc & ld & refs & Hres & Hlc & Hld & Hrows)%table_resource.
    unfold returns_with_proto.
    rewrite (getSecurities_decode_resource σ body _ _ Hres eq_refl).
    by eapply Array_map_with_proto.
  - intros (lc & ld & refs & Hres & Hlc & Hld & Hrows)%table_resource.
    unfold returns_with_proto.
    rewrite (getTradingSessions_decode_resource σ body _ _ Hres eq_refl).
    by eapply Array_map_with_proto.
  - intros row later Hrow
      (lc & d & lr & Hres & Hlc & Hdata & Hlr)%table_first_row_resource.
    rewrite (getMarketData_decode_resource σ body _ _ _ _ Hres Hdata).
    rewrite (record_of_row_fill σ lc lr columns row i) by done.
    eexists _, _. split; [done|]. apply lookup_insert_eq.
Qed.


Lemma proto_table :
  table (proto_heap "securities") (VObject 1) "securities"
        proto_columns [proto_row].
Proof. solve_table. Qed.

Lemma proto_row_values :
  Forall (Forall (json_value (proto_heap "securities"))) [proto_row].
Proof.
  constructor; [|constructor].
  constructor; [exact I|]. constructor; [|constructor].
  left. eexists. solve_lookup.
Qed.

Lemma proto_column_sets_prototype_witness :
  returns_with_proto (getSecurities_decode integer_to_string (VObject 1))
    (State (proto_heap "securities") []) proto_columns 1 [proto_row].
Proof.
  apply (proj1 (proto_column_sets_prototype (number_to_string:=integer_to_string)
                  (State (proto_heap "securities") [])
                  (VObject 1) proto_columns [proto_row] 1
                  ltac:(solve_decidable) eq_refl proto_row_values)).
  exact proto_table.
Defined.

(** ** One request per call *)

Section requests_of_a_call.
Context (number_to_string : number → string).
Context (undici_fetch : string → heap → settled response).

(** X13. Whatever the transport answers and however the call ends
    (result, wrapped failure of the transport, of the status, of the
    parse or of the decoding), each operation has sent exactly one
    request when it ends: nothing is retried. The request goes to the URL
    built from the arguments, [stock], [shares] and [100] standing for
    the omitted ones; for [getMarketData] and [getTradingSessions] with
    the defaults these are the two addresses given. *)
Theorem one_request_per_call σ :
  (∀ engine market limit,
     requests (final (getSecurities number_to_string undici_fetch
                        engine market limit σ))
     = (requests σ ++
        [getSecurities_url number_to_string (default "stock" engine)
           (default "shares" market) (default number_100 limit)])%list) ∧
  (∀ secid engine market,
     requests (final (getMarketData number_to_string undici_fetch
                        secid engine market σ))
     = (requests σ ++
        [getMarketData_url secid (default "stock" engine)
           (default "shares" market)])%list) ∧
  (∀ engine market,
     requests (final (getTradingSessions number_to_string undici_fetch
                        engine market σ))
     = (requests σ ++
        [getTradingSessions_url (default "stock" engine)
           (default "shares" market)])%list) ∧
  (∀ secid,
     getMarketData_url secid "stock" "shares"
     = "https://iss.moex.com/iss/engines/stock/markets/shares/securities/"
       +:+ secid +:+ ".json?iss.meta=off&iss.only=marketdata") ∧
  getTradingSessions_url "stock" "shares"
  = "https://iss.moex.com/iss/engines/stock/markets/shares/sessions.json?iss.meta=off".
Proof.
  split_and!.
  - intros engine market limit.
    exact (operation_one_request number_to_string undici_fetch _
             (getSecurities_decode number_to_string)
             (λ message, "Failed to fetch securities: " +:+ message) σ
             keeps_getSecurities_decode).
  - intros secid engine market.
    exact (operation_one_request number_to_string undici_fetch _
             (getMarketData_decode number_to_string)
             (λ message, "Failed to fetch market data for " +:+ secid +:+ ": "
                         +:+ message) σ
             keeps_getMarketData_decode).
  - intros engine market.
    exact (operation_one_request number_to_string undici_fetch _
             (getTradingSessions_decode number_to_string)
             (λ message, "Failed to fetch trading sessions: " +:+ message) σ
             keeps_getTradingSessions_decode).
  - reflexivity.
  - reflexivity.
Qed.

End requests_of_a_call.

(** * The rate limiter *)

Section limiter.
Import SimpleRateLimiter.

Lemma processQueue_on_maxConcurrent q : ∀ l,
  maxConcurrent (processQueue_on q l) = maxConcurrent l.
Proof.
  induction q as [|next rest IH]; intros l; simpl; [done|].
  destruct (running l <? maxConcurrent l)%Z; [|done].
  destruct (throws next); [|done]. by rewrite IH.
Qed.

Lemma processQueue_on_called q : ∀ l,
  (called (processQueue_on q l) ++ queue (processQueue_on q l)
   = called l ++ q)%list.
Proof.
  induction q as [|next rest IH]; intros l; simpl; [done|].
  destruct (running l <? maxConcurrent l)%Z; [|done].
  destruct (throws next); simpl.
  - rewrite IH. simpl. by rewrite <- (assoc_L (++)).
  - by rewrite <- (assoc_L (++)).
Qed.

Lemma processQueue_on_running q : ∀ l,
  running l = Z.of_nat (length (awaiting l)) →
  running (processQueue_on q l)
  = Z.of_nat (length (awaiting (processQueue_on q l))).
Proof.
  induction q as [|next rest IH]; intros l Hl; simpl; [done|].
  destruct (running l <? maxConcurrent l)%Z; [|done].
  destruct (throws next); simpl.
  - apply IH. simpl. lia.
  - rewrite length_app. simpl. lia.
Qed.

Lemma processQueue_on_bound q : ∀ l,
  (running l ≤ Z.max 0 (maxConcurrent l))%Z →
  (running (processQueue_on q l)
   ≤ Z.max 0 (maxConcurrent (processQueue_on q l)))%Z.
Proof.
  induction q as [|next rest IH]; intros l Hl; simpl; [done|].
  destruct (Z.ltb_spec (running l) (maxConcurrent l)); [|done].
  destruct (throws next); simpl.
  - apply IH. simpl. lia.
  - lia.
Qed.

(** After [processQueue] no slot is free while a task waits, when at
    most one slot was free before, or at most one task was waiting. *)
Lemma processQueue_on_busy q : ∀ l,
  (maxConcurrent l - 1 ≤ running l)%Z ∨ (length q ≤ 1)%nat →
  queue (processQueue_on q l) ≠ [] →
  (maxConcurrent (processQueue_on q l) ≤ running (processQueue_on q l))%Z.
Proof.
  induction q as [|next rest IH]; intros l Hl; simpl; [done|].
  destruct (Z.ltb_spec (running l) (maxConcurrent l)); [|done].
  destruct (throws next); simpl.
  - apply IH. simpl. destruct Hl as [Hl|Hl]; [left; lia|right; simpl in Hl; lia].
  - destruct Hl as [Hl|Hl]; [lia|].
    destruct rest; [done|simpl in Hl; lia].
Qed.

(** With a bound that is not positive [processQueue] starts nothing. *)
Lemma processQueue_on_never q l :
  (maxConcurrent l ≤ 0)%Z → (0 ≤ running l)%Z →
  processQueue_on q l
  = Limiter (maxConcurrent l) (running l) q (awaiting l) (called l).
Proof.
  intros Hmax Hrun. destruct q as [|next rest]; simpl; [done|].
  destruct (Z.ltb_spec (running l) (maxConcurrent l)); [lia|done].
Qed.

Lemma new_invariant max : invariant (new max).
Proof. split; simpl; [done|lia|done]. Qed.

Lemma limit_invariant fn l : invariant l → invariant (limit fn l).
Proof.
  intros [Hrun Hbound Hbusy]. unfold limit, processQueue. simpl.
  split.
  - by apply processQueue_on_running.
  - by apply processQueue_on_bound.
  - apply processQueue_on_busy. simpl.
    destruct (queue l) as [|x q]; [right; simpl; lia|].
    left. specialize (Hbusy ltac:(done)). lia.
Qed.

Lemma resume_invariant i l l' :
  invariant l → resume i l = Some l' → invariant l'.
Proof.
  intros [Hrun Hbound Hbusy]. unfold resume, processQueue.
  destruct (awaiting l !! i) as [fn|] eqn:Hi; [|done].
  intros [= <-]. simpl.
  apply lookup_lt_Some in Hi as Hlt.
  split.
  - apply processQueue_on_running. simpl.
    rewrite length_delete by done. lia.
  - apply processQueue_on_bound. simpl. lia.
  - apply processQueue_on_busy. simpl.
    destruct (queue l) as [|x q]; [right; simpl; lia|].
    left. specialize (Hbusy ltac:(done)). lia.
Qed.

Lemma run_invariant steps : ∀ l l',
  invariant l → run steps l = Some l' → invariant l'.
Proof.
  induction steps as [|[fn|i] steps IH]; intros l l' Hl Hrun; simpl in Hrun.
  - by injection Hrun as <-.
  - eapply IH; [|exact Hrun]. by apply limit_invariant.
  - destruct (resume i l) as [l1|] eqn:Hresume; [|done].
    eapply IH; [|exact Hrun]. by eapply resume_invariant.
Qed.

Lemma run_maxConcurrent steps : ∀ l l',
  run steps l = Some l' → maxConcurrent l' = maxConcurrent l.
Proof.
  induction steps as [|[fn|i] steps IH]; intros l l' Hrun; simpl in Hrun.
  - by injection Hrun as <-.
  - rewrite (IH _ _ Hrun). unfold limit, processQueue.
    by rewrite processQueue_on_maxConcurrent.
  - unfold resume in Hrun.
    destruct (awaiting l !! i); [|done].
    rewrite (IH _ _ Hrun). unfold processQueue.
    by rewrite processQueue_on_maxConcurrent.
Qed.

Lemma run_called steps : ∀ l l',
  run steps l = Some l' →
  (called l' ++ queue l' = (called l ++ queue l) ++ submitted steps)%list.
Proof.
  induction steps as [|[fn|i] steps IH]; intros l l' Hrun; simpl in Hrun.
  - injection Hrun as <-. simpl. by rewrite (right_id_L [] (++)).
  - rewrite (IH _ _ Hrun). unfold limit, processQueue.
    rewrite processQueue_on_called. simpl.
    by rewrite <- !(assoc_L (++)).
  - unfold resume in Hrun.
    destruct (awaiting l !! i); [|done].
    rewrite (IH _ _ Hrun). unfold processQueue.
    by rewrite processQueue_on_called.
Qed.

Lemma run_new_called max steps l :
  run steps (new max) = Some l →
  (called l ++ queue l)%list = submitted steps.
Proof. intros Hrun. by rewrite (run_called _ _ _ Hrun). Qed.

Lemma run_never steps : ∀ l l',
  (maxConcurrent l ≤ 0)%Z → (0 ≤ running l)%Z → awaiting l = [] →
  run steps l = Some l' →
  called l' = called l ∧ awaiting l' = [] ∧
  queue l' = (queue l ++ submitted steps)%list.
Proof.
  induction steps as [|[fn|i] steps IH]; intros l l' Hmax Hrunning Hnone Hrun;
    simpl in Hrun.
  - injection Hrun as <-. simpl. by rewrite (right_id_L [] (++)).
  - unfold limit, processQueue in Hrun.
    rewrite processQueue_on_never in Hrun by done. simpl in Hrun.
    destruct (IH (Limiter (maxConcurrent l) (running l) (queue l ++ [fn])
                          (awaiting l) (called l)) l' Hmax Hrunning Hnone Hrun)
      as (Hcalled & Hawaiting & Hqueue).
    simpl in *. split_and!; [done..|].
    by rewrite Hqueue, <- (assoc_L (++)).
  - unfold resume in Hrun. by rewrite Hnone in Hrun.
Qed.

(** X14. The limiter never lets more than [maxConcurrent] tasks run at
    once: after any steps from a new limiter, [running] is the number of
    tasks that were started and have not finished, and it is at most
    [maxConcurrent] (at most 0 for a negative bound). *)
Theorem limiter_bound max steps l :
  run steps (new max) = Some l →
  running l = Z.of_nat (length (awaiting l)) ∧
  (running l ≤ Z.max 0 max)%Z.
Proof.
  intros Hrun.
  destruct (run_invariant steps _ _ (new_invariant max) Hrun) as [Hr Hb _].
  rewrite (run_maxConcurrent _ _ _ Hrun) in Hb. done.
Qed.

(** X15. The limiter is first in, first out and loses nothing: after any
    steps, the functions that have been called followed by the ones
    still queued are exactly the functions given to [limit], in the
    order of the calls of [limit]; so each is called at most once and
    none overtakes an earlier one. *)
Theorem limiter_fifo max steps l :
  run steps (new max) = Some l →
  (called l ++ queue l)%list = submitted steps.
Proof. apply run_new_called. Qed.

(** X16. The limiter leaves no slot free while a task waits: after any
    steps, a non-empty queue means that [maxConcurrent] tasks are
    running; hence, for a positive bound, once every started task has
    finished the queue is empty and every function given to [limit] has
    been called. *)
Theorem limiter_no_idle_slot max steps l :
  run steps (new max) = Some l →
  (queue l ≠ [] → (max ≤ Z.of_nat (length (awaiting l)))%Z) ∧
  ((0 < max)%Z → awaiting l = [] →
   queue l = [] ∧ called l = submitted steps).
Proof.
  intros Hrun.
  destruct (run_invariant steps _ _ (new_invariant max) Hrun) as [Hr _ Hbusy].
  rewrite (run_maxConcurrent _ _ _ Hrun) in Hbusy. simpl in Hbusy.
  rewrite Hr in Hbusy.
  split; [done|].
  intros Hmax Hnone.
  assert (queue l = []) as Hq.
  { destruct (queue l) as [|x q] eqn:Hql; [done|].
    specialize (Hbusy ltac:(done)). rewrite Hnone in Hbusy. simpl in Hbusy. lia. }
  split; [done|].
  rewrite <- (run_new_called max steps l Hrun), Hq.
  by rewrite (right_id_L [] (++)).
Qed.

(** X17. A limiter whose bound is zero or negative never starts
    anything: whatever is given to [limit] stays in the queue, no
    function is ever called, and so no caller of [limit] gets an
    answer. *)
Theorem limiter_never_starts max steps l :
  (max ≤ 0)%Z →
  run steps (new max) = Some l →
  called l = [] ∧ awaiting l = [] ∧ queue l = submitted steps.
Proof.
  intros Hmax Hrun.
  by destruct (run_never steps (new max) l Hmax ltac:(done) eq_refl Hrun)
    as (Hcalled & Hawaiting & Hqueue).
Qed.

Lemma limiter_bound_witness :
  ∃ l, run example_steps (new 1) = Some l ∧
       running l = Z.of_nat (length (awaiting l)) ∧ (running l ≤ 1)%Z.
Proof.
  eexists. split; [reflexivity|].
  apply (limiter_bound 1 example_steps). reflexivity.
Defined.

Lemma limiter_fifo_witness :
  ∃ l, run example_steps (new 1) = Some l ∧
       (called l ++ queue l)%list = submitted example_steps.
Proof.
  eexists. split; [reflexivity|].
  apply (limiter_fifo 1 example_steps). reflexivity.
Defined.

Lemma limiter_no_idle_slot_witness :
  ∃ l, run example_steps (new 1) = Some l ∧
       (queue l ≠ [] → (1 ≤ Z.of_nat (length (awaiting l)))%Z).
Proof.
  eexists. split; [reflexivity|].
  apply (limiter_no_idle_slot 1 example_steps). reflexivity.
Defined.

Lemma limiter_never_starts_witness :
  ∃ l, run [Limit (Task 1 false); Limit (Task 2 true)] (new 0) = Some l ∧
       called l = [] ∧ awaiting l = [] ∧
       queue l = [Task 1 false; Task 2 true].
Proof.
  eexists. split; [reflexivity|].
  apply (limiter_never_starts 0 [Limit (Task 1 false); Limit (Task 2 true)]);
    [lia|reflexivity].
Defined.

End limiter.

(** * URLs and their arguments *)

Lemma string_app_cons c (s t : string) : String c s +:+ t = String c (s +:+ t).
Proof. reflexivity. Qed.

Lemma string_app_inv_l (s t t' : string) : s +:+ t = s +:+ t' → t = t'.
Proof.
  induction s as [|c s IH]; [done|].
  rewrite !string_app_cons. intros [= H]. by apply IH.
Qed.

Lemma string_length_app (s t : string) :
  String.length (s +:+ t) = String.length s + String.length t.
Proof.
  induction s as [|c s IH]; [done|].
  rewrite string_app_cons. simpl. by rewrite IH.
Qed.

Lemma string_app_inv_r (t : string) : ∀ s s' : string,
  s +:+ t = s' +:+ t → s = s'.
Proof.
  induction s as [|c s IH]; intros [|c' s'] Heq.
  - done.
  - apply (f_equal String.length) in Heq.
    rewrite !string_length_app in Heq. simpl in Heq. lia.
  - apply (f_equal String.length) in Heq.
    rewrite !string_length_app in Heq. simpl in Heq. lia.
  - rewrite !string_app_cons in Heq. injection Heq as -> Heq.
    f_equal. by apply IH.
Qed.

(** Two strings without [/], each followed by a [/], end at the same
    place. *)
Lemma path_segment_inj : ∀ s s' r r' : string,
  path_segment s → path_segment s' →
  s +:+ String "/"%char r = s' +:+ String "/"%char r' → s = s' ∧ r = r'.
Proof.
  unfold path_segment.
  induction s as [|c s IH]; intros [|c' s'] r r' Hs Hs' Heq.
  - by injection Heq as ->.
  - rewrite string_app_cons in Heq. injection Heq as <- _.
    by simpl in Hs'.
  - rewrite string_app_cons in Heq. injection Heq as -> _.
    by simpl in Hs.
  - rewrite !string_app_cons in Heq. injection Heq as -> Heq.
    simpl in Hs, Hs'. apply orb_false_iff in Hs as [_ Hs].
    apply orb_false_iff in Hs' as [_ Hs'].
    destruct (IH s' r r' Hs Hs' Heq) as [-> ->]. done.
Qed.

Lemma url_engine_market (engine market engine' market' rest rest' : string) :
  path_segment engine → path_segment engine' →
  MOEX_API_BASE_URL +:+ "/engines/" +:+ engine +:+ "/markets/" +:+ market +:+ rest
  = MOEX_API_BASE_URL +:+ "/engines/" +:+ engine' +:+ "/markets/" +:+ market' +:+ rest' →
  engine = engine' ∧ market +:+ rest = market' +:+ rest'.
Proof.
  intros He He' Heq.
  apply string_app_inv_l, string_app_inv_l in Heq.
  change ("/markets/" +:+ market +:+ rest)
    with (String "/"%char ("markets/" +:+ market +:+ rest)) in Heq.
  change ("/markets/" +:+ market' +:+ rest')
    with (String "/"%char ("markets/" +:+ market' +:+ rest')) in Heq.
  destruct (path_segment_inj _ _ _ _ He He' Heq) as [-> Hrest].
  split; [done|]. by apply string_app_inv_l in Hrest.
Qed.

Section urls.
Context (number_to_string : number → string).

(** X18. The URL tells the arguments apart, as long as engine and market
    hold no [/]: two calls of [getTradingSessions], of [getMarketData]
    or of [getSecurities] that request the same URL have the same
    engine and market, the same [secid], and limits with the same
    decimal text. The values of the enumerations [Engine] and [Market]
    (6 and 13, pairwise distinct) hold no [/]. Nothing is escaped, so a
    [/] in an argument lets two different calls request one URL. *)
Theorem urls_identify_arguments :
  (∀ engine market engine' market',
     path_segment engine → path_segment engine' →
     getTradingSessions_url engine market = getTradingSessions_url engine' market' →
     engine = engine' ∧ market = market') ∧
  (∀ secid engine market secid' engine' market',
     path_segment engine → path_segment engine' →
     path_segment market → path_segment market' →
     getMarketData_url secid engine market = getMarketData_url secid' engine' market' →
     secid = secid' ∧ engine = engine' ∧ market = market') ∧
  (∀ engine market limit engine' market' limit',
     path_segment engine → path_segment engine' →
     path_segment market → path_segment market' →
     getSecurities_url number_to_string engine market limit
     = getSecurities_url number_to_string engine' market' limit' →
     engine = engine' ∧ market = market' ∧
     number_to_string limit = number_to_string limit') ∧
  Forall path_segment (engines ++ markets) ∧
  NoDup engines ∧ NoDup markets ∧
  length engines = 6 ∧ length markets = 13 ∧
  getTradingSessions_url "a/markets/b" "c" = getTradingSessions_url "a" "b/markets/c".
Proof.
  split_and!.
  - intros engine market engine' market' He He' Heq.
    destruct (url_engine_market _ _ _ _ _ _ He He' Heq) as [-> Hrest].
    by apply string_app_inv_r in Hrest as ->.
  - intros secid engine market secid' engine' market' He He' Hm Hm' Heq.
    unfold getMarketData_url in Heq.
    destruct (url_engine_market _ _ _ _ _ _ He He' Heq) as [-> Hrest].
    change ("/securities/" +:+ secid +:+ ".json?iss.meta=off&iss.only=marketdata")
      with (String "/"%char ("securities/" +:+ secid +:+ ".json?iss.meta=off&iss.only=marketdata"))
      in Hrest.
    change ("/securities/" +:+ secid' +:+ ".json?iss.meta=off&iss.only=marketdata")
      with (String "/"%char ("securities/" +:+ secid' +:+ ".json?iss.meta=off&iss.only=marketdata"))
      in Hrest.
    destruct (path_segment_inj _ _ _ _ Hm Hm' Hrest) as [-> Hsecid].
    apply string_app_inv_l, string_app_inv_r in Hsecid as ->. done.
  - intros engine market limit engine' market' limit' He He' Hm Hm' Heq.
    unfold getSecurities_url in Heq.
    destruct (url_engine_market _ _ _ _ _ _ He He' Heq) as [-> Hrest].
    rewrite !(string_app_cons "/"%char) in Hrest.
    destruct (path_segment_inj _ _ _ _ Hm Hm' Hrest) as [-> Hlimit].
    by apply string_app_inv_l in Hlimit.
  - repeat constructor.
  - solve_decidable.
  - solve_decidable.
  - reflexivity.
  - reflexivity.
  - reflexivity.
Qed.

End urls.

Lemma urls_identify_arguments_witness :
  Engine.CURRENCY = "currency" ∧ Market.SELT = "selt".
Proof.
  apply (proj1 (urls_identify_arguments integer_to_string)
           Engine.CURRENCY Market.SELT "currency" "selt");
    reflexivity.
Defined.
